(** * cordova-icon: the validation-and-generation pipeline of [index.js]

    A shallow embedding of [index.js] and the properties of its pipeline:
    path templating ([processPath]), platform resolution ([getPlatforms]),
    the precondition checks ([atLeastOnePlatformFound], [configFileExists],
    [validArtAssets]), project-name extraction ([getProjectName]) and the
    sequential asset generation ([generate]).

    Promises are modelled in direct style by a state-and-outcome monad over
    a [World] (the mutable [program] object, the log of external calls, the
    source probes that nobody waits for).  The file system, the XML parser,
    ImageMagick and Node's [path] module are the fields of an [Env].

    JavaScript runs a callback to completion, so other callbacks can only
    run between two callbacks of the chain: at every [.then] and at every
    wait for I/O.  These points are the calls of [yield], where the reads
    that [validArtAssets] started and did not wait for may call back; how
    many turns each of them takes is a field of the [Env], so that a
    statement about all environments is a statement about all schedules.
    The model has a turn at every [.then], also where Q runs two callbacks
    in one flush: it has every schedule of the program, and some that the
    program does not have (a read that calls back between the call of
    [validArtAssets] and the call of [getProjectName], which is a delay of
    zero turns). *)

From Stdlib Require Import String Ascii List ZArith Lia Bool Arith.
Import ListNotations.
Open Scope string_scope.

Set Implicit Arguments.

(** ** JavaScript values

    The values that flow through the pipeline: what xml2js builds for a
    document (objects, arrays, strings) and [undefined]/[null]. *)

#[warnings="-register-all"]
Inductive jsval :=
| JUndefined
| JNull
| JStr (s : string)
| JArr (l : list jsval)
| JObj (fields : list (string * jsval)).

(** Truthiness, as used by [a || b] and [if (a)]. *)
Definition truthy (v : jsval) : bool :=
  match v with
  | JUndefined | JNull => false
  | JStr s => negb (s =? "")
  | JArr _ | JObj _ => true
  end.

(** [a || b] *)
Definition js_or (a b : jsval) : jsval := if truthy a then a else b.

Fixpoint join (sep : string) (l : list string) : string :=
  match l with
  | [] => ""
  | [x] => x
  | x :: rest => x ++ sep ++ join sep rest
  end.

(** [String(v)]: arrays join their elements with a comma, printing
    [undefined] and [null] elements as the empty string. *)
Fixpoint ToString (v : jsval) : string :=
  match v with
  | JUndefined => "undefined"
  | JNull => "null"
  | JStr s => s
  | JArr l =>
      join "," (map (fun x => match x with
                              | JUndefined | JNull => ""
                              | _ => ToString x
                              end) l)
  | JObj _ => "[object Object]"
  end.

Fixpoint assoc (k : string) (fields : list (string * jsval)) : option jsval :=
  match fields with
  | [] => None
  | (k', v) :: rest => if k =? k' then Some v else assoc k rest
  end.

(** Property access [v.k] (and [v[0]] with [k = "0"]).  [None] is the
    TypeError that reading a property of [undefined] or [null] throws. *)
Definition prop (v : jsval) (k : string) : option jsval :=
  match v with
  | JUndefined | JNull => None
  | JObj fields =>
      Some (match assoc k fields with Some x => x | None => JUndefined end)
  | JArr l =>
      if k =? "0" then Some (nth 0 l JUndefined) else Some JUndefined
  | JStr s =>
      if k =? "0"
      then Some (match s with
                 | EmptyString => JUndefined
                 | String c _ => JStr (String c EmptyString)
                 end)
      else Some JUndefined
  end.

(** ** Path templating: [processPath] *)

(** The text matched by [projectNameRE = /\$PROJECT_NAME/g]. *)
Definition projectNameToken : string := "$PROJECT_NAME".

Fixpoint drop (n : nat) (s : string) : string :=
  match n, s with
  | O, _ => s
  | S _, EmptyString => EmptyString
  | S k, String _ rest => drop k rest
  end.

(** The replacement text of [String.prototype.replace] for a pattern
    without capture groups: [$$] is a dollar sign, [$&] the matched text,
    [$`] the text before the match, [$'] the text after it; any other
    dollar sign stands for itself. *)
Fixpoint GetSubstitution (matched before after replacement : string) : string :=
  match replacement with
  | EmptyString => EmptyString
  | String c rest =>
      if Ascii.eqb c "$"
      then match rest with
           | EmptyString => String c EmptyString
           | String d rest' =>
               if Ascii.eqb d "$"
               then String "$" (GetSubstitution matched before after rest')
               else if Ascii.eqb d "&"
               then matched ++ GetSubstitution matched before after rest'
               else if Ascii.eqb d "`"
               then before ++ GetSubstitution matched before after rest'
               else if Ascii.eqb d "'"
               then after ++ GetSubstitution matched before after rest'
               else String c (GetSubstitution matched before after rest)
           end
      else String c (GetSubstitution matched before after rest)
  end.

(** [s.replace(/token/g, replacement)] for a literal, non-empty [token]:
    the matches are the leftmost non-overlapping occurrences.  [before] is
    the text already scanned and [skip] the number of characters of the
    current match still to pass over. *)
Fixpoint replaceFrom (token replacement before : string) (skip : nat)
         (s : string) : string :=
  match s with
  | EmptyString => EmptyString
  | String c rest =>
      match skip with
      | S k =>
          replaceFrom token replacement (before ++ String c EmptyString) k rest
      | O =>
          if prefix token s
          then GetSubstitution token before (drop (String.length token) s) replacement
               ++ replaceFrom token replacement (before ++ String c EmptyString)
                              (String.length token - 1) rest
          else String c (replaceFrom token replacement
                                     (before ++ String c EmptyString) 0 rest)
      end
  end.

Definition replaceAll (token replacement s : string) : string :=
  replaceFrom token replacement "" 0 s.

(** [processPath(path, projectName)]; a replacement value that is not a
    function is converted to a string. *)
Definition processPath (path : string) (projectName : jsval) : string :=
  replaceAll projectNameToken (ToString projectName) path.

(** What "replace every occurrence of the token with the project name"
    says, taken literally: each leftmost non-overlapping occurrence of the
    token becomes [name], character for character. *)
Fixpoint substituteFrom (token name : string) (skip : nat) (s : string) : string :=
  match s with
  | EmptyString => EmptyString
  | String c rest =>
      match skip with
      | S k => substituteFrom token name k rest
      | O =>
          if prefix token s
          then name ++ substituteFrom token name (String.length token - 1) rest
          else String c (substituteFrom token name 0 rest)
      end
  end.

Definition substituteLiteral (token name s : string) : string :=
  substituteFrom token name 0 s.

(** [containsToken token s]: the token occurs somewhere in [s]. *)
Fixpoint containsToken (token s : string) : bool :=
  prefix token s ||
  match s with
  | EmptyString => false
  | String _ rest => containsToken token rest
  end.

(** ** Data model *)

(** An entry of a platform's [iconAssets] or [splashAssets]: icons carry
    [size], splashes [width] and [height]; a field that the JSON object does
    not have is [undefined] ([None]). *)
Record Asset := {
  assetName : string;
  assetSize : option Z;
  assetWidth : option Z;
  assetHeight : option Z
}.

(** An entry of [platforms.json]. *)
Record Platform := {
  platformName : string;
  platformIconPath : option string;
  platformSplashPath : option string;
  iconAssets : option (list Asset);
  splashAssets : option (list Asset)
}.

(** What [getPlatforms] builds with [_.extend(Object.create(platform), ...)]:
    the descriptor is the prototype, and the three own properties shadow
    [iconPath] and [splashPath]. *)
Record ResolvedPlatform := {
  proto : Platform;
  isAdded : bool;
  iconPath : string;
  splashPath : string
}.

(** The two asset types, the strings ['icon'] and ['splash']. *)
Inductive AssetType := IconT | SplashT.

Definition typeName (t : AssetType) : string :=
  match t with IconT => "icon" | SplashT => "splash" end.

(** [platform[type+'Assets']] and [platform[type+'Path']]. *)
Definition typeAssets (t : AssetType) (p : ResolvedPlatform) : option (list Asset) :=
  match t with
  | IconT => iconAssets (proto p)
  | SplashT => splashAssets (proto p)
  end.

Definition typePath (t : AssetType) (p : ResolvedPlatform) : string :=
  match t with IconT => iconPath p | SplashT => splashPath p end.

(** The parsed command line: the three options that [validParamFile] and
    the generators read as [program[type]].  [None] is [null]. *)
Record Program := {
  icon : option string;
  splash : option string;
  config : option string
}.

Inductive ParamKey := KIcon | KSplash | KConfig.

Definition keyName (k : ParamKey) : string :=
  match k with KIcon => "icon" | KSplash => "splash" | KConfig => "config" end.

Definition keyOf (t : AssetType) : ParamKey :=
  match t with IconT => KIcon | SplashT => KSplash end.

Definition getParam (k : ParamKey) (pg : Program) : option string :=
  match k with KIcon => icon pg | KSplash => splash pg | KConfig => config pg end.

Definition setParam (k : ParamKey) (v : option string) (pg : Program) : Program :=
  match k with
  | KIcon => {| icon := v; splash := splash pg; config := config pg |}
  | KSplash => {| icon := icon pg; splash := v; config := config pg |}
  | KConfig => {| icon := icon pg; splash := splash pg; config := v |}
  end.

(** Truthiness of a string-or-null and its text in a concatenation. *)
Definition truthyParam (v : option string) : bool :=
  match v with None => false | Some s => negb (s =? "") end.

Definition showParam (v : option string) : string :=
  match v with None => "null" | Some s => s end.

(** The options object handed to [ig.resize]. *)
Record ResizeOpts := {
  srcPath : option string;
  dstPath : string;
  quality : Z;
  format : string;
  width : option Z;
  height : option Z
}.

(** ** Errors and outcomes *)

Inductive error :=
| NoPlatformsError
| NoAssetsError
| FsError (code : string) (message : string)
| ParseError (message : string)
| TypeError (message : string)
| ResizeError (message : string).

(** [err.message] *)
Definition errorMessage (e : error) : string :=
  match e with
  | NoPlatformsError =>
      "No Cordova platforms found. Make sure you have specified "
      ++ "the correct config file location (or you're in the root "
      ++ "directory of your project) and you've added platforms "
      ++ "with 'cordova platform add'"
  | NoAssetsError => "At least one asset type should be specified"
  | FsError _ m | ParseError m | TypeError m | ResizeError m => m
  end.

(** [err.code]: only the errors of [fs] carry one. *)
Definition errorCode (e : error) : option string :=
  match e with FsError c _ => Some c | _ => None end.

(** How a call ends: the promise it returns is fulfilled or rejected, or
    the call throws before it returns one. *)
Inductive outcome (A : Type) :=
| Fulfilled (a : A)
| Rejected (e : error)
| Threw (e : error).

Arguments Rejected {A} e.
Arguments Threw {A} e.

(** ** The environment *)

Inductive StatResult :=
| StatOk (isDirectory : bool)
| StatErr (code message : string).

Inductive ReadResult :=
| ReadOk (data : string)
| ReadErr (code message : string).

Record Env := {
  (** [require('./platforms.json')] *)
  platformInfo : list Platform;
  (** [fs.stat] and [fs.readFile]: one snapshot of the disk per run *)
  fs_stat : string -> StatResult;
  fs_readFile : string -> ReadResult;
  (** [xml2js.Parser#parseString]: the tree or the parser's error *)
  parseString : string -> jsval + string;
  (** [ig.resize]: [None] when the [n]-th invocation of the run succeeds *)
  ig_resize : nat -> ResizeOpts -> option string;
  (** Node's [path] module *)
  path_dirname : string -> string;
  path_join : string -> string -> string;
  path_resolve : string -> string -> string;
  (** the number of turns of the event loop that pass before the read of
      a source started by [validArtAssets] calls back *)
  probeDelay : ParamKey -> nat
}.

(** ** The world *)

Inductive DisplayKind := Success | Failure | Warn | Header.

Inductive Event :=
| EStat (path : string)
| EReadFile (path : option string)
| EParse (data : string)
| EResize (opts : ResizeOpts)
| EDisplay (kind : DisplayKind) (text : string)
| ELog (text : string).

(** A call of [validParamFile] whose read has not called back yet. *)
Record Probe := {
  probeType : ParamKey;
  probeWarningType : bool;
  probeSuccessMessage : string;
  probeWarnMessage : string;
  probeResult : error + string;
  probeWait : nat
}.

Record World := {
  program : Program;
  (** the external calls and console output so far, oldest first *)
  trace : list Event;
  (** the files written by [ig.resize] *)
  produced : list string;
  (** reads started by [validArtAssets], not yet called back *)
  pending : list Probe;
  (** the settled promises of [validIconExists()] and [validSplashExists()] *)
  settled : list (ParamKey * outcome bool);
  (** rejections of promises that nothing is chained to *)
  unhandled : list error
}.

Definition M (A : Type) : Type := World -> outcome A * World.

Definition ret {A} (a : A) : M A := fun w => (Fulfilled a, w).
Definition throw {A} (e : error) : M A := fun w => (Threw e, w).
Definition reject {A} (e : error) : M A := fun w => (Rejected e, w).

(** Sequencing inside one function body. *)
Definition bind {A B} (m : M A) (f : A -> M B) : M B :=
  fun w =>
    match m w with
    | (Fulfilled a, w') => f a w'
    | (Rejected e, w') => (Rejected e, w')
    | (Threw e, w') => (Threw e, w')
    end.

Declare Scope js_scope.
Delimit Scope js_scope with js.
Notation "x <- m ;; k" := (bind m (fun x => k))
  (at level 61, m at next level, right associativity) : js_scope.
Notation "m ;; k" := (bind m (fun _ => k))
  (at level 61, right associativity) : js_scope.
Open Scope js_scope.

Definition logEvent (e : Event) (w : World) : World :=
  {| program := program w; trace := trace w ++ [e]; produced := produced w;
     pending := pending w; settled := settled w; unhandled := unhandled w |}.

Definition setProgram (pg : Program) (w : World) : World :=
  {| program := pg; trace := trace w; produced := produced w;
     pending := pending w; settled := settled w; unhandled := unhandled w |}.

Definition setPending (ps : list Probe) (w : World) : World :=
  {| program := program w; trace := trace w; produced := produced w;
     pending := ps; settled := settled w; unhandled := unhandled w |}.

Definition addProduced (f : string) (w : World) : World :=
  {| program := program w; trace := trace w; produced := produced w ++ [f];
     pending := pending w; settled := settled w; unhandled := unhandled w |}.

Definition addSettled (k : ParamKey) (o : outcome bool) (w : World) : World :=
  {| program := program w; trace := trace w; produced := produced w;
     pending := pending w; settled := settled w ++ [(k, o)];
     unhandled := unhandled w |}.

Definition addUnhandled (e : error) (w : World) : World :=
  {| program := program w; trace := trace w; produced := produced w;
     pending := pending w; settled := settled w;
     unhandled := unhandled w ++ [e] |}.

Definition emit (e : Event) : M unit := fun w => (Fulfilled tt, logEvent e w).

(** [display.success], [display.error], [display.warn], [display.header] *)
Definition display (k : DisplayKind) (str : string) : M unit :=
  emit (EDisplay k str).

(** [program[type]] and [program[type] = null] *)
Definition readParam (k : ParamKey) : M (option string) :=
  fun w => (Fulfilled (getParam k (program w)), w).

Definition nullParam (k : ParamKey) : M unit :=
  fun w => (Fulfilled tt, setProgram (setParam k None (program w)) w).

(** ** The pipeline *)

Definition rootDirectories (name : string) : option string :=
  if name =? "android" then Some "platforms/android"
  else if name =? "ios" then Some "platforms/ios"
  else if name =? "www" then Some "www"
  else None.

(** [a || d] for a string-or-undefined [a] *)
Definition strOr (a : option string) (d : string) : string :=
  match a with
  | Some s => if s =? "" then d else s
  | None => d
  end.

(** [result.widget.name[0]] *)
Definition widgetName0 (result : jsval) : option jsval :=
  match prop result "widget" with
  | None => None
  | Some widget =>
      match prop widget "name" with
      | None => None
      | Some name => prop name "0"
      end
  end.

Definition isResize (e : Event) : bool :=
  match e with EResize _ => true | _ => false end.

(** The options of the resize invocations of a log, oldest first. *)
Fixpoint resizes (t : list Event) : list ResizeOpts :=
  match t with
  | [] => []
  | EResize o :: rest => o :: resizes rest
  | _ :: rest => resizes rest
  end.

Section Pipeline.

Variable env : Env.

(** *** Source probes: [validParamFile] *)

(** The [.then] and [.catch] callbacks of [validParamFile], applied to the
    result of the read. *)
Definition validParamFileSettled (type : ParamKey) (warningType : bool)
           (successMessage warnMessage : string) (r : error + string) : M bool :=
  match r with
  | inr _ => display Success successMessage ;; ret true
  | inl error =>
      if warningType
      then nullParam type ;; display Warn warnMessage ;; ret true
      else match errorCode error with
           | Some code => if code =? "ENOENT" then ret false else reject error
           | None => reject error
           end
  end.

(** [Q.nfcall(fs.readFile, location)]: reading [null] is a TypeError. *)
Definition readFileResult (location : option string) : error + string :=
  match location with
  | None => inl (TypeError "path must be a string")
  | Some p =>
      match fs_readFile env p with
      | ReadOk data => inr data
      | ReadErr code m => inl (FsError code m)
      end
  end.

(** The body of [validParamFile] up to the start of the read.  (The fourth
    parameter, [errorMessage], is given a default and never used.) *)
Definition validParamFileCall (type : ParamKey) (warningType : bool)
           (successMessage warnMessage : option string) : M Probe :=
  location <- readParam type ;;
  let successMessage :=
    strOr successMessage (keyName type ++ " asset exists at: " ++ showParam location) in
  let warnMessage :=
    strOr warnMessage (keyName type ++ " asset was not specified") in
  emit (EReadFile location) ;;
  ret {| probeType := type; probeWarningType := warningType;
         probeSuccessMessage := successMessage;
         probeWarnMessage := warnMessage;
         probeResult := readFileResult location;
         probeWait := probeDelay env type |}.

(** The [.spread] callback of [validArtAssets], run once both promises of
    [Q.all] are settled.  Its promise is not returned to anyone. *)
Definition lookupSettled (k : ParamKey) (w : World) : option (outcome bool) :=
  match find (fun kv => match k, fst kv with
                        | KIcon, KIcon | KSplash, KSplash | KConfig, KConfig => true
                        | _, _ => false
                        end) (settled w) with
  | Some kv => Some (snd kv)
  | None => None
  end.

Definition validArtAssetsSpread (w : World) : World :=
  match lookupSettled KIcon w, lookupSettled KSplash w with
  | Some (Fulfilled validIcon), Some (Fulfilled validSplash) =>
      if negb validIcon && negb validSplash
      then addUnhandled NoAssetsError w
      else w
  | Some (Rejected e), Some _ | Some (Threw e), Some _ => addUnhandled e w
  | Some (Fulfilled _), Some (Rejected e)
  | Some (Fulfilled _), Some (Threw e) => addUnhandled e w
  | _, _ => w
  end.

(** The read of a probe calls back. *)
Definition deliver (p : Probe) (w : World) : World :=
  let r := validParamFileSettled (probeType p) (probeWarningType p)
             (probeSuccessMessage p) (probeWarnMessage p) (probeResult p) w in
  validArtAssetsSpread (addSettled (probeType p) (fst r) (snd r)).

Definition waitLess (p : Probe) (n : nat) : Probe :=
  {| probeType := probeType p; probeWarningType := probeWarningType p;
     probeSuccessMessage := probeSuccessMessage p;
     probeWarnMessage := probeWarnMessage p;
     probeResult := probeResult p; probeWait := n |}.

(** One turn of the event loop: the probes that are due call back, the
    others wait one turn less. *)
Definition yieldStep (w : World) (p : Probe) : World :=
  match probeWait p with
  | O => deliver p w
  | S n => setPending (pending w ++ [waitLess p n]) w
  end.

Definition yield (w : World) : World :=
  fold_left yieldStep (pending w) (setPending [] w).

Definition tick : M unit := fun w => (Fulfilled tt, yield w).

(** The process exits once every pending read has called back. *)
Definition drain (w : World) : World :=
  Nat.iter (S (list_max (map probeWait (pending w)))) yield w.

(** [p.then(f)]: [f] runs in a later turn; a throw in [f] rejects. *)
Definition then_ {A B} (p : M A) (f : A -> M B) : M B :=
  fun w =>
    match p w with
    | (Fulfilled a, w1) =>
        match f a (yield w1) with
        | (Threw e, w2) => (Rejected e, w2)
        | r => r
        end
    | (Rejected e, w1) => (Rejected e, yield w1)
    | (Threw e, w1) => (Threw e, w1)
    end.

(** [p.catch(h)] *)
Definition catch_ {A} (p : M A) (h : error -> M A) : M A :=
  fun w =>
    match p w with
    | (Fulfilled a, w1) => (Fulfilled a, yield w1)
    | (Rejected e, w1) =>
        match h e (yield w1) with
        | (Threw e', w2) => (Rejected e', w2)
        | r => r
        end
    | (Threw e, w1) => (Threw e, w1)
    end.

(** [validParamFile], awaited by the caller. *)
Definition validParamFile (type : ParamKey) (warningType : bool)
           (successMessage warnMessage : option string) : M bool :=
  p <- validParamFileCall type warningType successMessage warnMessage ;;
  tick ;;
  validParamFileSettled type warningType
    (probeSuccessMessage p) (probeWarnMessage p) (probeResult p).

(** [validParamFile] called without waiting for its promise. *)
Definition validParamFileDetached (type : ParamKey) (warningType : bool)
           (successMessage warnMessage : option string) : M unit :=
  p <- validParamFileCall type warningType successMessage warnMessage ;;
  fun w => (Fulfilled tt, setPending (pending w ++ [p]) w).

Definition validIconExistsDetached : M unit :=
  validParamFileDetached KIcon true None None.

Definition validSplashExistsDetached : M unit :=
  validParamFileDetached KSplash true None None.

(** [validArtAssets]: the two reads are started, the promise of
    [Q.all(...).spread(...)] is dropped and the function returns
    [undefined]. *)
Definition validArtAssets : M unit :=
  validIconExistsDetached ;;
  validSplashExistsDetached ;;
  ret tt.

(** [configFileExists], bound when the script is loaded; [config0] is
    [program.config] at that time.  The chain calls it with the value of
    the previous stage as [warnMessage]. *)
Definition configFileExists (config0 : option string)
           (warnMessage : option string) : M bool :=
  validParamFile KConfig false
    (Some ("cordova's " ++ showParam config0 ++ " exists")) warnMessage.

(** *** Platform resolution: [getPlatforms] *)

(** [path.dirname(program.config)] *)
Definition projectRootOf : M string :=
  c <- readParam KConfig ;;
  match c with
  | None => throw (TypeError "Path must be a string")
  | Some c => ret (path_dirname env c)
  end.

(** The body of the [map] callback: the paths are computed, [fs.stat] is
    started, and the promise settles as the result says.  (The log has the
    [fs.stat] where [Q.nfcall] is called; Q makes the call one tick later,
    which shows only in a run that dies on a throw of a later descriptor.) *)
Definition resolvePlatform (projectRoot : string) (projectName : jsval)
           (platform : Platform) : M (error + ResolvedPlatform) :=
  match rootDirectories (platformName platform) with
  | None => throw (TypeError "Arguments to path.join must be strings")
  | Some platformRoot =>
      let platformPath := path_join env projectRoot platformRoot in
      let iconPath := processPath (strOr (platformIconPath platform) "") projectName in
      let splashPath := processPath (strOr (platformSplashPath platform) "") projectName in
      emit (EStat platformPath) ;;
      ret (match fs_stat env platformPath with
           | StatOk isDirectory =>
               inr {| proto := platform;
                      isAdded := isDirectory;
                      iconPath := path_join env platformPath iconPath;
                      splashPath := path_join env platformPath splashPath |}
           | StatErr code m => inl (FsError code m)
           end)
  end.

Fixpoint mapM {A B} (f : A -> M B) (l : list A) : M (list B) :=
  match l with
  | [] => ret []
  | a :: rest => b <- f a ;; bs <- mapM f rest ;; ret (b :: bs)
  end.

(** The settlement of [Q.all]: the values in order, or a rejection (the one
    of the first rejected promise of the array). *)
Fixpoint allSettled {A} (l : list (error + A)) : error + list A :=
  match l with
  | [] => inr []
  | inl e :: _ => inl e
  | inr a :: rest =>
      match allSettled rest with
      | inl e => inl e
      | inr l' => inr (a :: l')
      end
  end.

Definition Q_all {A} (l : list (error + A)) : M (list A) :=
  tick ;;
  match allSettled l with
  | inl e => reject e
  | inr l' => ret l'
  end.

(** The probes of [getPlatforms] run concurrently and touch nothing but
    the disk: the log lists them in the order in which [map] starts them,
    and [Q.all] settles one turn later. *)
Definition getPlatforms (projectName : jsval) : M (list ResolvedPlatform) :=
  let projectName := js_or projectName (JStr "") in
  projectRoot <- projectRootOf ;;
  platforms <- mapM (resolvePlatform projectRoot projectName) (platformInfo env) ;;
  Q_all platforms.

(** [_(platforms).where({ isAdded : true })] *)
Definition whereIsAdded (platforms : list ResolvedPlatform) : list ResolvedPlatform :=
  filter isAdded platforms.

Definition atLeastOnePlatformFound : M unit :=
  then_ (getPlatforms JUndefined) (fun platforms =>
    let activePlatforms := whereIsAdded platforms in
    if Nat.eqb (length activePlatforms) 0
    then throw NoPlatformsError
    else display Success
           ("platforms found: "
            ++ join ", " (map (fun p => platformName (proto p)) activePlatforms))).

(** *** Project name: [getProjectName] *)

Definition nfcall_readFile (location : option string) : M string :=
  emit (EReadFile location) ;;
  tick ;;
  match readFileResult location with
  | inl e => reject e
  | inr data => ret data
  end.

Definition ninvoke_parseString (data : string) : M jsval :=
  emit (EParse data) ;;
  tick ;;
  match parseString env data with
  | inl result => ret result
  | inr m => reject (ParseError m)
  end.

Definition getProjectName : M jsval :=
  location <- readParam KConfig ;;
  then_ (then_ (nfcall_readFile location)
               (fun data => ninvoke_parseString data))
        (fun result =>
           match widgetName0 result with
           | Some v => ret v
           | None => throw (TypeError "Cannot read property of undefined")
           end).

(** *** Generation *)

(** [Q.ninvoke(ig, 'resize', opts)]: the invocation is logged, and a resize
    that succeeds leaves its file. *)
Definition ninvoke_resize (opts : ResizeOpts) : M unit :=
  fun w =>
    let n := length (resizes (trace w)) in
    let w1 := yield (logEvent (EResize opts) w) in
    match ig_resize env n opts with
    | None => (Fulfilled tt, addProduced (dstPath opts) w1)
    | Some m => (Rejected (ResizeError m), w1)
    end.

(** [_.extend(imageMagickOptions, opts)] with [opts = {width, height}] *)
Definition extend (o : ResizeOpts) (opts : option Z * option Z) : ResizeOpts :=
  {| srcPath := srcPath o; dstPath := dstPath o; quality := quality o;
     format := format o; width := fst opts; height := snd opts |}.

Definition generateArtAsset (artAssetName : string) (srcPath : option string)
           (dstPath : string) (opts : option Z * option Z) : M unit :=
  projectRoot <- projectRootOf ;;
  let destination := path_resolve env projectRoot dstPath in
  let imageMagickOptions :=
    {| srcPath := srcPath;
       dstPath := path_join env destination artAssetName;
       quality := 1;
       format := "png";
       width := None;
       height := None |} in
  then_ (ninvoke_resize (extend imageMagickOptions opts))
        (fun _ => display Success (artAssetName ++ " created")).

Definition generateIcon (icon : Asset) (srcPath : option string)
           (dstPath : string) : M unit :=
  generateArtAsset (assetName icon) srcPath dstPath
                   (assetSize icon, assetSize icon).

Definition generateSplash (splash : Asset) (srcPath : option string)
           (dstPath : string) : M unit :=
  generateArtAsset (assetName splash) srcPath dstPath
                   (assetWidth splash, assetHeight splash).

Definition generateArtAssets (platform : ResolvedPlatform) (type : AssetType)
           (processor : Asset -> option string -> string -> M unit) : M unit :=
  display Header ("Generating " ++ typeName type ++ " assets for "
                  ++ platformName (proto platform)) ;;
  match typeAssets type platform with
  | None => throw (TypeError "Cannot read property 'reduce' of undefined")
  | Some assets =>
      fold_left (fun previous asset =>
                   then_ previous (fun _ =>
                     src <- readParam (keyOf type) ;;
                     processor asset src (typePath type platform)))
                assets (ret tt)
  end.

Definition generateIcons (platform : ResolvedPlatform) : M unit :=
  generateArtAssets platform IconT generateIcon.

Definition generateSplashes (platform : ResolvedPlatform) : M unit :=
  generateArtAssets platform SplashT generateSplash.

Definition processPlatformFor (type : AssetType) (platform : ResolvedPlatform)
           (processor : ResolvedPlatform -> M unit) : M unit :=
  let assets := match typeAssets type platform with
                | Some l => l
                | None => []
                end in
  src <- readParam (keyOf type) ;;
  if truthyParam src && negb (Nat.eqb (length assets) 0)
  then processor platform
  else ret tt.

Definition generate (platforms : list ResolvedPlatform) : M unit :=
  fold_left (fun previous platform =>
               then_ previous (fun _ =>
                 then_ (then_ (ret tt)
                              (fun _ => processPlatformFor IconT platform generateIcons))
                       (fun _ => processPlatformFor SplashT platform generateSplashes)))
            (whereIsAdded platforms) (ret tt).

(** *** The driver *)

(** The chain up to [generate]. *)
Definition pipeline (config0 : option string) : M unit :=
  then_ (then_ (then_ (then_ (then_ atLeastOnePlatformFound
                                    (fun _ => configFileExists config0 None))
                             (fun _ => validArtAssets))
                      (fun _ => getProjectName))
               (fun projectName => getPlatforms projectName))
        (fun platforms => generate platforms).

(** The script from [display.header('Checking ...')] on, run until the
    process exits. *)
Definition main : M unit :=
  display Header "Checking Project, Icon, and Splash" ;;
  config0 <- readParam KConfig ;;
  then_ (catch_ (pipeline config0)
                (fun err => display Failure (errorMessage err)))
        (fun _ => emit (ELog "")) ;;
  fun w => (Fulfilled tt, drain w).

(** The world when the script starts. *)
Definition initialWorld (pg : Program) : World :=
  {| program := pg; trace := []; produced := []; pending := [];
     settled := []; unhandled := [] |}.

End Pipeline.

(** * Specification vocabulary *)

(** The world in which [main] starts the chain. *)
Definition startWorld (pg : Program) : World :=
  logEvent (EDisplay Header "Checking Project, Icon, and Splash")
           (initialWorld pg).

(** The probes started by [validArtAssets] are those of the two sources. *)
Definition pendingOk (w : World) : Prop :=
  Forall (fun p => probeType p <> KConfig) (pending w).

(** The pending probes whose read succeeded: their callbacks leave
    [program] alone. *)
Definition stable (w : World) : Prop :=
  Forall (fun p => exists data, probeResult p = inr data) (pending w).

(** [evolves w w']: from [w] to [w'] nothing was resized or written and
    [program.config] was not touched. *)
Definition evolves (w w' : World) : Prop :=
  resizes (trace w') = resizes (trace w)
  /\ produced w' = produced w
  /\ config (program w') = config (program w).

(** A specification of a stage: [ok] holds of the world as long as the
    calls succeed, [ko e] of the world in which a call failed with [e]. *)
Record Spec := {
  ok : World -> Prop;
  ko : error -> World -> Prop
}.

(** Both conditions survive a turn of the event loop, and a failure may
    happen in any good world. *)
Definition turnClosed (S : Spec) : Prop :=
  (forall w, ok S w -> ok S (yield w))
  /\ (forall e w, ko S e w -> ko S e (yield w))
  /\ (forall e w, ok S w -> ko S e w).

Definition sat {A} (S : Spec) (m : M A) : Prop :=
  forall w, ok S w ->
    match m w with
    | (Fulfilled _, w') => ok S w'
    | (Rejected e, w') => ko S e w'
    | (Threw e, w') => ko S e w'
    end.

Definition respects (P : World -> Prop) : Prop :=
  forall w w', P w -> evolves w w' -> P w'.

Definition framed (okP : World -> Prop) (koP : error -> World -> Prop) : Spec :=
  {| ok := fun w => pendingOk w /\ okP w;
     ko := fun e w => pendingOk w /\ koP e w |}.

(** A stage is silent when it resizes nothing, writes nothing and leaves
    [program.config] alone, however it ends. *)
Definition Evo (w0 : World) : Spec :=
  framed (evolves w0) (fun _ => evolves w0).

Definition silent {A} (m : M A) : Prop := forall w0, sat (Evo w0) m.

(** The fixed options of a resize invocation. *)
Definition fixedOptions (o : ResizeOpts) : Prop :=
  quality o = 1%Z /\ format o = "png".

Definition FixedOptions : Spec :=
  framed (fun w => Forall fixedOptions (resizes (trace w)))
         (fun _ w => Forall fixedOptions (resizes (trace w))).

(** [succeeded env n0 rs]: the invocations [rs], made after [n0] earlier
    ones, all succeeded. *)
Definition succeeded (env : Env) (n0 : nat) (rs : list ResizeOpts) : Prop :=
  forall k o, nth_error rs k = Some o -> ig_resize env (n0 + k) o = None.

(** Since [w0], every resize succeeded and left its file. *)
Definition okRun (env : Env) (w0 w : World) : Prop :=
  exists rs,
    resizes (trace w) = (resizes (trace w0) ++ rs)%list
    /\ produced w = (produced w0 ++ map dstPath rs)%list
    /\ succeeded env (length (resizes (trace w0))) rs.

(** Since [w0], either every resize succeeded, or the last one failed with
    [e] and the earlier ones succeeded and left their files. *)
Definition koRun (env : Env) (w0 : World) (e : error) (w : World) : Prop :=
  okRun env w0 w
  \/ exists rs o msg,
      resizes (trace w) = (resizes (trace w0) ++ rs ++ [o])%list
      /\ produced w = (produced w0 ++ map dstPath rs)%list
      /\ succeeded env (length (resizes (trace w0))) rs
      /\ ig_resize env (length (resizes (trace w0)) + length rs) o = Some msg
      /\ e = ResizeError msg.

Definition FailFast (env : Env) (w0 : World) : Spec :=
  framed (okRun env w0) (koRun env w0).

(** The options of the resize invocation for one asset of a platform, with
    the project configuration at [c] and the source [src]. *)
Definition resizeCall (env : Env) (c : string) (type : AssetType)
           (src : option string) (platform : ResolvedPlatform)
           (asset : Asset) : ResizeOpts :=
  {| srcPath := src;
     dstPath := path_join env
                  (path_resolve env (path_dirname env c) (typePath type platform))
                  (assetName asset);
     quality := 1;
     format := "png";
     width := match type with
              | IconT => assetSize asset
              | SplashT => assetWidth asset
              end;
     height := match type with
               | IconT => assetSize asset
               | SplashT => assetHeight asset
               end |}.

(** The work list of a run of [generate] in which [program] stays [pg]. *)
Definition planFor (env : Env) (c : string) (pg : Program) (type : AssetType)
           (platform : ResolvedPlatform) : list ResizeOpts :=
  match typeAssets type platform with
  | Some assets =>
      if truthyParam (getParam (keyOf type) pg)
         && negb (Nat.eqb (length assets) 0)
      then map (resizeCall env c type (getParam (keyOf type) pg) platform) assets
      else []
  | None => []
  end.

Definition plan (env : Env) (c : string) (pg : Program)
           (platforms : list ResolvedPlatform) : list ResizeOpts :=
  flat_map (fun platform =>
              (planFor env c pg IconT platform
               ++ planFor env c pg SplashT platform)%list)
           (whereIsAdded platforms).

(** [runs pg m extra]: where [program] is [pg] and no pending probe can
    change it, [m] succeeds, invokes exactly the resizes [extra], and
    leaves such a world. *)
Definition runs (pg : Program) (m : M unit) (extra : list ResizeOpts) : Prop :=
  forall w,
    program w = pg -> stable w ->
    fst (m w) = Fulfilled tt
    /\ program (snd (m w)) = pg
    /\ stable (snd (m w))
    /\ resizes (trace (snd (m w))) = (resizes (trace w) ++ extra)%list.

(** A replacement text with a dollar sign in it. *)
Fixpoint hasDollar (s : string) : bool :=
  match s with
  | EmptyString => false
  | String c rest => Ascii.eqb c "$" || hasDollar rest
  end.

(** The events of platform resolution and of the console: no file is read,
    nothing is parsed, nothing is resized. *)
Definition harmless (e : Event) : Prop :=
  match e with
  | EStat _ | EDisplay _ _ | ELog _ => True
  | EReadFile _ | EParse _ | EResize _ => False
  end.

(** Nothing is pending, [program] is [pg], no file was written and only
    harmless events happened. *)
Definition untouched (pg : Program) (w : World) : Prop :=
  pending w = [] /\ program w = pg /\ produced w = []
  /\ Forall harmless (trace w).

Definition Untouched (pg : Program) : Spec :=
  {| ok := untouched pg; ko := fun _ => untouched pg |}.

(** The parsed document has no [widget.name]: [result.widget] is missing,
    or it is there and its [name] is missing. *)
Definition lacksWidgetName (result : jsval) : bool :=
  match prop result "widget" with
  | None => true
  | Some widget =>
      match prop widget "name" with
      | None | Some JUndefined => true
      | Some _ => false
      end
  end.

(** The probe of a platform's root, with the project at [dirname c]:
    whether [fs.stat] answers at all, and whether it answers "directory". *)
Definition rootStat (env : Env) (c : string) (p : Platform) : option bool :=
  match rootDirectories (platformName p) with
  | Some r =>
      match fs_stat env (path_join env (path_dirname env c) r) with
      | StatOk d => Some d
      | StatErr _ _ => None
      end
  | None => None
  end.

Definition rootIsDirectory (env : Env) (c : string) (p : Platform) : bool :=
  match rootStat env c p with Some d => d | None => false end.

(** ** An example project

    A project at [/proj] with the descriptors of two platforms; the disk,
    the outcome of the resizes and the delay of the source probes vary. *)

Definition iconAsset (name : string) (size : Z) : Asset :=
  {| assetName := name; assetSize := Some size;
     assetWidth := None; assetHeight := None |}.

Definition splashAsset (name : string) (w h : Z) : Asset :=
  {| assetName := name; assetSize := None;
     assetWidth := Some w; assetHeight := Some h |}.

Definition android : Platform :=
  {| platformName := "android";
     platformIconPath := Some "res";
     platformSplashPath := Some "res";
     iconAssets := Some [iconAsset "icon-36.png" 36; iconAsset "icon-48.png" 48;
                         iconAsset "icon-72.png" 72];
     splashAssets := Some [splashAsset "screen-p.png" 320 480;
                           splashAsset "screen-l.png" 480 320] |}.

Definition ios : Platform :=
  {| platformName := "ios";
     platformIconPath := Some "$PROJECT_NAME/Resources/icons";
     platformSplashPath := Some "$PROJECT_NAME/Resources/splash";
     iconAssets := Some [iconAsset "icon.png" 57];
     splashAssets := Some [splashAsset "Default.png" 320 480] |}.

Definition exampleEnv (platforms : list Platform)
           (dirs notDirs : list string) (files : list (string * string))
           (fails : nat -> ResizeOpts -> bool) (delay : nat) : Env :=
  {| platformInfo := platforms;
     fs_stat := fun p =>
       if existsb (String.eqb p) dirs then StatOk true
       else if existsb (String.eqb p) notDirs then StatOk false
       else StatErr "ENOENT" ("ENOENT, stat '" ++ p ++ "'");
     fs_readFile := fun p =>
       match find (fun kv => String.eqb p (fst kv)) files with
       | Some kv => ReadOk (snd kv)
       | None => ReadErr "ENOENT" ("ENOENT, open '" ++ p ++ "'")
       end;
     parseString := fun data =>
       if data =? "<widget><name>Hello</name></widget>"
       then inl (JObj [("widget", JObj [("name", JArr [JStr "Hello"])])])
       else if data =? "<widget/>"
       then inl (JObj [("widget", JStr "")])
       else inr "Unexpected end";
     ig_resize := fun n o => if fails n o then Some "convert: failed" else None;
     path_dirname := fun _ => "/proj";
     path_join := fun a b => a ++ "/" ++ b;
     path_resolve := fun _ b => b;
     probeDelay := fun _ => delay |}.

Definition exampleProgram : Program :=
  {| icon := Some "/proj/icon.png";
     splash := Some "/proj/splash.png";
     config := Some "/proj/config.xml" |}.

Definition configXml : string * string :=
  ("/proj/config.xml", "<widget><name>Hello</name></widget>").

Definition iconPng : string * string := ("/proj/icon.png", "PNG").
Definition splashPng : string * string := ("/proj/splash.png", "PNG").

Definition neverFails (n : nat) (o : ResizeOpts) : bool := false.

(** The resize of a source that is not on the disk fails. *)
Definition failsOnSplash (n : nat) (o : ResizeOpts) : bool :=
  match srcPath o with
  | Some s => s =? "/proj/splash.png"
  | None => true
  end.

Definition androidResolved : ResolvedPlatform :=
  {| proto := android; isAdded := true;
     iconPath := "/proj/platforms/android/res";
     splashPath := "/proj/platforms/android/res" |}.

Definition isFailure (e : Event) : bool :=
  match e with EDisplay Failure _ => true | _ => false end.

Definition isSplashResize (e : Event) : bool :=
  match e with
  | EResize o =>
      match srcPath o with
      | Some s => s =? "/proj/splash.png"
      | None => false
      end
  | _ => false
  end.

Definition androidDir : list string := ["/proj/platforms/android"].

(** Everything is in place and every resize succeeds. *)
Definition envComplete : Env :=
  exampleEnv [android] androidDir [] [configXml; iconPng; splashPng]
             neverFails 0.

(** The second resize of the run fails. *)
Definition envSecondFails : Env :=
  exampleEnv [android] androidDir [] [configXml; iconPng; splashPng]
             (fun n _ => Nat.eqb n 1) 0.

(** [platforms/android] is a file, not a directory. *)
Definition envNoPlatform : Env :=
  exampleEnv [android] [] androidDir [configXml; iconPng; splashPng]
             neverFails 0.

(** No platform was added to the project: neither [platforms/android] nor
    [platforms/ios] exists. *)
Definition envNoneAdded : Env :=
  exampleEnv [android; ios] [] [] [configXml; iconPng; splashPng]
             neverFails 1.

(** [config.xml] holds an empty [widget] element. *)
Definition envNoName : Env :=
  exampleEnv [android] androidDir []
             [("/proj/config.xml", "<widget/>"); iconPng; splashPng]
             neverFails 0.

(** Android is added, iOS is not: [platforms/ios] does not exist. *)
Definition envOnlyAndroid : Env :=
  exampleEnv [android; ios] androidDir [] [configXml; iconPng; splashPng]
             neverFails 0.

(** [config.xml] does not exist. *)
Definition envNoConfig : Env :=
  exampleEnv [android] androidDir [] [iconPng; splashPng] neverFails 0.

(** Neither [icon.png] nor [splash.png] exists. *)
Definition envNoSources : Env :=
  exampleEnv [android] androidDir [] [configXml] failsOnSplash 0.

(** [splash.png] does not exist, and the read that finds this out calls
    back after [delay] turns of the event loop. *)
Definition envNoSplash (delay : nat) : Env :=
  exampleEnv [android] androidDir [] [configXml; iconPng] failsOnSplash delay.

Definition androidNotAdded : ResolvedPlatform :=
  {| proto := android; isAdded := false;
     iconPath := "/proj/platforms/android/res";
     splashPath := "/proj/platforms/android/res" |}.

(** ** Vocabulary of the further properties *)

(** What [getPlatforms] builds for a descriptor whose root answers
    [fs.stat], with the project configuration at [c]. *)
Definition resolvedOf (env : Env) (c : string) (projectName : jsval)
           (p : Platform) : ResolvedPlatform :=
  let platformPath :=
    path_join env (path_dirname env c)
              (match rootDirectories (platformName p) with
               | Some r => r
               | None => ""
               end) in
  {| proto := p;
     isAdded := rootIsDirectory env c p;
     iconPath := path_join env platformPath
                   (processPath (strOr (platformIconPath p) "")
                                (js_or projectName (JStr "")));
     splashPath := path_join env platformPath
                     (processPath (strOr (platformSplashPath p) "")
                                  (js_or projectName (JStr ""))) |}.

(** The error of the probe of a platform's root, if it fails. *)
Definition rootStatError (env : Env) (c : string) (p : Platform) : option error :=
  match rootDirectories (platformName p) with
  | Some r =>
      match fs_stat env (path_join env (path_dirname env c) r) with
      | StatOk _ => None
      | StatErr code m => Some (FsError code m)
      end
  | None => None
  end.

(** How the promise of the [map] callback settles for a descriptor with a
    known name. *)
Definition statSettled (env : Env) (c : string) (projectName : jsval)
           (p : Platform) : error + ResolvedPlatform :=
  match rootStatError env c p with
  | Some e => inl e
  | None => inr (resolvedOf env c projectName p)
  end.

(** [satv S P m]: [m] meets [S], and the value it is fulfilled with
    satisfies [P]. *)
Definition satv {A} (S : Spec) (P : A -> Prop) (m : M A) : Prop :=
  forall w, ok S w ->
    match m w with
    | (Fulfilled a, w') => ok S w' /\ P a
    | (Rejected e, w') => ko S e w'
    | (Threw e, w') => ko S e w'
    end.

(** The settlement of a probe that is not the error of [validArtAssets]. *)
Definition settlesOther {A} (r : error + A) : Prop :=
  match r with
  | inl e => e <> NoAssetsError
  | inr _ => True
  end.

(** The events of the stages of the chain: everything but the report of a
    failure and the closing empty line, which are the driver's. *)
Definition stageEvent (e : Event) : Prop :=
  match e with
  | EDisplay Failure _ | ELog _ => False
  | _ => True
  end.

(** No promise was rejected with [NoAssetsError], every settled source
    probe was fulfilled with [true], and every pending probe is one that
    warns instead of failing. *)
Definition lenient (w : World) : Prop :=
  ~ In NoAssetsError (unhandled w)
  /\ Forall (fun kv => snd kv = Fulfilled true) (settled w)
  /\ Forall (fun p => probeWarningType p = true) (pending w).

Definition Lenient : Spec :=
  {| ok := lenient; ko := fun e w => e <> NoAssetsError /\ lenient w |}.

(** No failure was reported yet. *)
Definition Unreported : Spec :=
  {| ok := fun w => filter isFailure (trace w) = [];
     ko := fun _ w => filter isFailure (trace w) = [] |}.

(** [program.config] is the one of [pg], and each source is the one of
    [pg] or disabled. *)
Definition narrowed (pg : Program) (w : World) : Prop :=
  pendingOk w
  /\ config (program w) = config pg
  /\ (icon (program w) = icon pg \/ icon (program w) = None)
  /\ (splash (program w) = splash pg \/ splash (program w) = None).

Definition Narrowed (pg : Program) : Spec :=
  {| ok := narrowed pg; ko := fun _ => narrowed pg |}.

(** [program] after the source probes of [validArtAssets] have called
    back: a source whose read fails is disabled. *)
Definition readable (env : Env) (location : option string) : bool :=
  match location with
  | Some p =>
      match fs_readFile env p with
      | ReadOk _ => true
      | ReadErr _ _ => false
      end
  | None => false
  end.

Definition probed (env : Env) (pg : Program) : Program :=
  {| icon := if readable env (icon pg) then icon pg else None;
     splash := if readable env (splash pg) then splash pg else None;
     config := config pg |}.

(** A stage that is fulfilled with [a] and keeps [program] at [pg], as long
    as the pending probes satisfy [Q], which they then still do; it
    resizes nothing. *)
Definition keeps (Q : World -> Prop) (pg : Program) {A} (m : M A) (a : A) : Prop :=
  forall w,
    program w = pg -> Q w ->
    fst (m w) = Fulfilled a
    /\ program (snd (m w)) = pg
    /\ Q (snd (m w))
    /\ resizes (trace (snd (m w))) = resizes (trace w).

Definition idle (w : World) : Prop := pending w = [].

(** A descriptor whose name [rootDirectories] does not know. *)
Definition windows : Platform :=
  {| platformName := "windows";
     platformIconPath := Some "images";
     platformSplashPath := Some "images";
     iconAssets := Some [iconAsset "logo.png" 150];
     splashAssets := None |}.

Definition envUnknownPlatform : Env :=
  exampleEnv [android; windows] androidDir [] [configXml; iconPng; splashPng]
             neverFails 0.

(** The splash source is disabled. *)
Definition iconOnlyProgram : Program :=
  {| icon := Some "/proj/icon.png";
     splash := None;
     config := Some "/proj/config.xml" |}.

(** A stage of the chain, seen with the turn of the event loop that
    follows it: from a world with [program = pg] whose pending probes
    satisfy [Q] it is fulfilled with [a], and after the turn [program] is
    [pg'], [Q] holds again and nothing was resized. *)
Definition stage (Q : World -> Prop) (pg pg' : Program) {A} (m : M A) (a : A) : Prop :=
  forall w,
    program w = pg -> Q w ->
    fst (m w) = Fulfilled a
    /\ program (yield (snd (m w))) = pg'
    /\ Q (yield (snd (m w)))
    /\ resizes (trace (yield (snd (m w)))) = resizes (trace w).

(** [program] is [pg], the pending probes satisfy [Q] and the resizes so
    far are [rs]. *)
Definition Kept (Q : World -> Prop) (pg : Program) (rs : list ResizeOpts) : Spec :=
  {| ok := fun w => program w = pg /\ Q w /\ resizes (trace w) = rs;
     ko := fun _ _ => True |}.

(** [works env pg m extra]: where [program] is [pg] and no pending probe
    can change it, [m] goes through the resizes [extra] in order: if they
    all succeed it is fulfilled after exactly these, and if the one at
    position [k] is the first to fail it is rejected with that error after
    exactly the first [k + 1] of them. *)
Definition works (env : Env) (pg : Program) (m : M unit)
           (extra : list ResizeOpts) : Prop :=
  forall w,
    program w = pg -> stable w ->
    (succeeded env (length (resizes (trace w))) extra ->
     fst (m w) = Fulfilled tt
     /\ program (snd (m w)) = pg
     /\ stable (snd (m w))
     /\ resizes (trace (snd (m w))) = (resizes (trace w) ++ extra)%list)
    /\ (forall k o msg,
           nth_error extra k = Some o ->
           ig_resize env (length (resizes (trace w)) + k) o = Some msg ->
           succeeded env (length (resizes (trace w))) (firstn k extra) ->
           fst (m w) = Rejected (ResizeError msg)
           /\ program (snd (m w)) = pg
           /\ stable (snd (m w))
           /\ resizes (trace (snd (m w)))
              = (resizes (trace w) ++ firstn (Datatypes.S k) extra)%list).

(** A pending probe of a source of [pg] that calls back within [n] turns
    of the event loop: it warns instead of failing, and its result is the
    one of the read of that source. *)
Definition sourceProbe (env : Env) (pg : Program) (n : nat) (p : Probe) : Prop :=
  probeWarningType p = true
  /\ (probeWait p < n)%nat
  /\ match probeType p with
     | KIcon => probeResult p = readFileResult env (icon pg)
     | KSplash => probeResult p = readFileResult env (splash pg)
     | KConfig => False
     end.

(** The parameter [k] of [cur] is already what the probes leave of it, or
    it is still the one of [pg] and a probe of it is among [ps]. *)
Definition sourceDue (env : Env) (pg : Program) (k : ParamKey)
           (ps : list Probe) (cur : Program) : Prop :=
  getParam k cur = getParam k (probed env pg)
  \/ (getParam k cur = getParam k pg /\ Exists (fun p => probeType p = k) ps).

(** Between the call of [validArtAssets] and the callbacks of its probes:
    every pending probe is a probe of a source of [pg] that calls back
    within [n] turns, and [program] is on its way from [pg] to
    [probed env pg]. *)
Definition awaiting (env : Env) (pg : Program) (n : nat) (w : World) : Prop :=
  config (program w) = config pg
  /\ Forall (sourceProbe env pg n) (pending w)
  /\ sourceDue env pg KIcon (pending w) (program w)
  /\ sourceDue env pg KSplash (pending w) (program w).

(** [splash.png] is missing, the source probes call back three turns after
    they are started and every resize succeeds. *)
Definition envPromptNoSplash : Env :=
  exampleEnv [android] androidDir [] [configXml; iconPng] neverFails 3.

(** * Properties *)

(** ** The event loop: what a turn can and cannot change *)

Lemma resizes_app (t1 t2 : list Event) :
  resizes (t1 ++ t2) = (resizes t1 ++ resizes t2)%list.
Proof.
  induction t1 as [|e t1 IH]; simpl; [reflexivity|].
  destruct e; simpl; rewrite ?IH; reflexivity.
Qed.

Lemma resizes_snoc_quiet (t : list Event) (e : Event) :
  isResize e = false -> resizes (t ++ [e]) = resizes t.
Proof.
  intros H. rewrite resizes_app. destruct e; simpl in *;
    try discriminate; apply app_nil_r.
Qed.

Lemma evolves_refl w : evolves w w.
Proof. repeat split. Qed.

Lemma evolves_trans w1 w2 w3 : evolves w1 w2 -> evolves w2 w3 -> evolves w1 w3.
Proof.
  intros (A1 & A2 & A3) (B1 & B2 & B3).
  repeat split; congruence.
Qed.

Section EventLoop.

Ltac break_match :=
  repeat match goal with
         | |- context [match ?x with _ => _ end] => destruct x; simpl
         end.

Lemma spread_fields w :
  program (validArtAssetsSpread w) = program w
  /\ trace (validArtAssetsSpread w) = trace w
  /\ produced (validArtAssetsSpread w) = produced w
  /\ pending (validArtAssetsSpread w) = pending w.
Proof.
  unfold validArtAssetsSpread. break_match; repeat split.
Qed.

Lemma deliver_pending p w : pending (deliver p w) = pending w.
Proof.
  unfold deliver.
  destruct (spread_fields
              (addSettled (probeType p)
                 (fst (validParamFileSettled (probeType p) (probeWarningType p)
                         (probeSuccessMessage p) (probeWarnMessage p)
                         (probeResult p) w))
                 (snd (validParamFileSettled (probeType p) (probeWarningType p)
                         (probeSuccessMessage p) (probeWarnMessage p)
                         (probeResult p) w)))) as (_ & _ & _ & ->).
  unfold validParamFileSettled. simpl.
  destruct (probeResult p) as [e|d]; simpl; [|reflexivity].
  destruct (probeWarningType p); simpl; [reflexivity|].
  destruct (errorCode e) as [c|]; simpl; [|reflexivity].
  destruct (c =? "ENOENT"); reflexivity.
Qed.

Lemma deliver_evolves p w :
  probeType p <> KConfig -> evolves w (deliver p w).
Proof.
  intros Hk. unfold deliver, evolves.
  match goal with
  | |- context [validArtAssetsSpread ?x] =>
      destruct (spread_fields x) as (-> & -> & -> & _)
  end.
  unfold validParamFileSettled. simpl.
  destruct (probeResult p) as [e|d]; simpl.
  - destruct (probeWarningType p); simpl.
    + rewrite resizes_snoc_quiet by reflexivity.
      destruct (probeType p); simpl; try congruence; repeat split.
    + destruct (errorCode e) as [c|]; simpl; [|repeat split].
      destruct (c =? "ENOENT"); repeat split.
  - rewrite resizes_snoc_quiet by reflexivity. repeat split.
Qed.

Lemma deliver_stable p w data :
  probeResult p = inr data -> program (deliver p w) = program w.
Proof.
  intros Hr. unfold deliver.
  match goal with
  | |- context [validArtAssetsSpread ?x] =>
      destruct (spread_fields x) as (-> & _)
  end.
  unfold validParamFileSettled. rewrite Hr. reflexivity.
Qed.

(** The invariants of the loop over the pending probes. *)
Lemma yield_fold (ps : list Probe) :
  Forall (fun p => probeType p <> KConfig) ps ->
  forall acc, pendingOk acc ->
    pendingOk (fold_left yieldStep ps acc)
    /\ evolves acc (fold_left yieldStep ps acc).
Proof.
  induction 1 as [|p ps Hp _ IH]; intros acc Hacc; simpl.
  - split; [assumption | apply evolves_refl].
  - assert (Hs : pendingOk (yieldStep acc p)
                 /\ evolves acc (yieldStep acc p)).
    { unfold yieldStep. destruct (probeWait p) as [|n].
      - split; [| apply deliver_evolves; assumption].
        unfold pendingOk. rewrite deliver_pending. assumption.
      - split; [| repeat split].
        unfold pendingOk. simpl. apply Forall_app. split; [assumption|].
        constructor; [assumption | constructor]. }
    destruct Hs as [Hs1 Hs2].
    destruct (IH _ Hs1) as [H1 H2].
    split; [assumption | eapply evolves_trans; eassumption].
Qed.

Lemma yield_pendingOk w : pendingOk w -> pendingOk (yield w).
Proof.
  intros H. unfold yield.
  apply yield_fold; [exact H | constructor].
Qed.

Lemma yield_evolves w : pendingOk w -> evolves w (yield w).
Proof.
  intros H. unfold yield.
  apply (evolves_trans (w2 := setPending [] w)); [repeat split|].
  apply yield_fold; [exact H | constructor].
Qed.

Lemma yield_fold_stable (ps : list Probe) :
  Forall (fun p => exists data, probeResult p = inr data) ps ->
  forall acc, stable acc ->
    stable (fold_left yieldStep ps acc)
    /\ program (fold_left yieldStep ps acc) = program acc.
Proof.
  induction 1 as [|p ps Hp _ IH]; intros acc Hacc; simpl.
  - split; [assumption | reflexivity].
  - assert (Hs : stable (yieldStep acc p)
                 /\ program (yieldStep acc p) = program acc).
    { unfold yieldStep. destruct (probeWait p) as [|n].
      - destruct Hp as [data Hd]. split; [| eapply deliver_stable; eassumption].
        unfold stable. rewrite deliver_pending. assumption.
      - split; [| reflexivity].
        unfold stable. simpl. apply Forall_app. split; [assumption|].
        constructor; [assumption | constructor]. }
    destruct Hs as [Hs1 Hs2].
    destruct (IH _ Hs1) as [H1 H2].
    split; [assumption | congruence].
Qed.

Lemma yield_stable w :
  stable w -> stable (yield w) /\ program (yield w) = program w.
Proof.
  intros H. unfold yield.
  destruct (@yield_fold_stable (pending w) H (setPending [] w)) as [A B];
    [constructor | split; assumption].
Qed.

Lemma yield_idle w : pending w = [] -> yield w = w.
Proof.
  intros H. unfold yield. rewrite H. simpl.
  destruct w; simpl in *; subst; reflexivity.
Qed.

End EventLoop.

(** ** A logic of stages *)

Section Logic.

Variable S : Spec.
Hypothesis S_closed : turnClosed S.

Lemma sat_ret {A} (a : A) : sat S (ret a).
Proof. intros w H. exact H. Qed.

Lemma sat_throw {A} (e : error) : sat S (@throw A e).
Proof. intros w H. simpl. apply S_closed, H. Qed.

Lemma sat_reject {A} (e : error) : sat S (@reject A e).
Proof. intros w H. simpl. apply S_closed, H. Qed.

Lemma sat_tick : sat S tick.
Proof. intros w H. simpl. apply S_closed, H. Qed.

Lemma sat_readParam k : sat S (readParam k).
Proof. intros w H. exact H. Qed.

Lemma sat_bind {A B} (m : M A) (f : A -> M B) :
  sat S m -> (forall a, sat S (f a)) -> sat S (bind m f).
Proof.
  intros Hm Hf w H. unfold bind. specialize (Hm w H).
  destruct (m w) as [[a|e|e] w1]; try assumption.
  apply Hf, Hm.
Qed.

Lemma sat_then {A B} (p : M A) (f : A -> M B) :
  sat S p -> (forall a, sat S (f a)) -> sat S (then_ p f).
Proof.
  intros Hp Hf w H. unfold then_. specialize (Hp w H).
  destruct S_closed as (Hok & Hko & _).
  destruct (p w) as [[a|e|e] w1]; try assumption.
  - specialize (Hf a (yield w1) (Hok _ Hp)).
    destruct (f a (yield w1)) as [[b|e|e] w2]; assumption.
  - apply Hko, Hp.
Qed.

Lemma sat_catch {A} (p : M A) (h : error -> M A) :
  sat S p ->
  (forall e w, ko S e w ->
     match h e w with
     | (Fulfilled _, w') => ok S w'
     | (Rejected e', w') => ko S e' w'
     | (Threw e', w') => ko S e' w'
     end) ->
  sat S (catch_ p h).
Proof.
  intros Hp Hh w H. unfold catch_. specialize (Hp w H).
  destruct S_closed as (Hok & Hko & _).
  destruct (p w) as [[a|e|e] w1]; try assumption.
  - apply Hok, Hp.
  - specialize (Hh e (yield w1) (Hko _ _ Hp)).
    destruct (h e (yield w1)) as [[b|e'|e'] w2]; assumption.
Qed.

(** The [reduce] of a promise chain. *)
Lemma sat_reduce {A} (f : A -> M unit) (l : list A) :
  (forall a, sat S (f a)) ->
  forall init, sat S init ->
    sat S (fold_left (fun previous a => then_ previous (fun _ => f a)) l init).
Proof.
  intros Hf. induction l as [|a l IH]; intros init Hinit; simpl.
  - exact Hinit.
  - apply IH. apply sat_then; [exact Hinit | intros _; apply Hf].
Qed.

Lemma sat_mapM {A B} (f : A -> M B) (l : list A) :
  (forall a, sat S (f a)) -> sat S (mapM f l).
Proof.
  intros Hf. induction l as [|a l IH]; simpl.
  - apply sat_ret.
  - apply sat_bind; [apply Hf|]. intros b.
    apply sat_bind; [apply IH|]. intros bs. apply sat_ret.
Qed.

End Logic.

(** A chain of [then_] never throws unless its first promise does. *)
Lemma then_throws {A B} (p : M A) (f : A -> M B) w e :
  fst (then_ p f w) = Threw e -> fst (p w) = Threw e.
Proof.
  unfold then_. destruct (p w) as [[a|e'|e'] w1]; simpl; try discriminate.
  - destruct (f a (yield w1)) as [[b|e''|e''] w2]; simpl; discriminate.
  - intros H. injection H as ->. reflexivity.
Qed.

Lemma reduce_throws {A} (f : A -> M unit) (l : list A) :
  forall init w e,
    fst (fold_left (fun previous a => then_ previous (fun _ => f a)) l init w)
    = Threw e ->
    fst (init w) = Threw e.
Proof.
  induction l as [|a l IH]; intros init w e H; simpl in H.
  - exact H.
  - apply IH in H. apply then_throws in H. exact H.
Qed.

(** ** Framed specifications and silent stages *)

Section Framed.

Variable okP : World -> Prop.
Variable koP : error -> World -> Prop.
Hypothesis okP_respects : respects okP.
Hypothesis koP_respects : forall e, respects (koP e).
Hypothesis okP_koP : forall e w, okP w -> koP e w.

Lemma framed_closed : turnClosed (framed okP koP).
Proof.
  repeat split; simpl.
  - apply yield_pendingOk, H.
  - destruct H as [H1 H2]. eapply okP_respects; [exact H2|].
    apply yield_evolves, H1.
  - apply yield_pendingOk, H.
  - destruct H as [H1 H2]. eapply koP_respects; [exact H2|].
    apply yield_evolves, H1.
  - apply H.
  - apply okP_koP, H.
Qed.

Lemma silent_sat {A} (m : M A) : silent m -> sat (framed okP koP) m.
Proof.
  intros Hm w [H1 H2].
  specialize (Hm w w (conj H1 (evolves_refl w))).
  destruct (m w) as [[a|e|e] w1]; destruct Hm as [Hm1 Hm2];
    (split; [exact Hm1|]).
  - eapply okP_respects; eassumption.
  - eapply koP_respects; [apply okP_koP|]; eassumption.
  - eapply koP_respects; [apply okP_koP|]; eassumption.
Qed.

End Framed.

Lemma Evo_closed w0 : turnClosed (Evo w0).
Proof.
  apply framed_closed.
  - intros w w' H1 H2. eapply evolves_trans; eassumption.
  - intros _ w w' H1 H2. eapply evolves_trans; eassumption.
  - auto.
Qed.

Lemma silent_intro {A} (m : M A) :
  (forall w, pendingOk w -> pendingOk (snd (m w)) /\ evolves w (snd (m w))) ->
  silent m.
Proof.
  intros H w0 w [H1 H2]. destruct (H w H1) as [H3 H4].
  assert (E : evolves w0 (snd (m w))) by (eapply evolves_trans; eassumption).
  destruct (m w) as [[a|e|e] w1]; simpl in *; split; assumption.
Qed.

Lemma silent_elim {A} (m : M A) w :
  silent m -> pendingOk w ->
  pendingOk (snd (m w)) /\ evolves w (snd (m w)).
Proof.
  intros H Hw. specialize (H w w (conj Hw (evolves_refl w))).
  destruct (m w) as [[a|e|e] w1]; exact H.
Qed.

Lemma silent_ret {A} (a : A) : silent (ret a).
Proof. intros w0. apply sat_ret. Qed.

Lemma silent_throw {A} (e : error) : silent (@throw A e).
Proof. intros w0. apply sat_throw, Evo_closed. Qed.

Lemma silent_reject {A} (e : error) : silent (@reject A e).
Proof. intros w0. apply sat_reject, Evo_closed. Qed.

Lemma silent_tick : silent tick.
Proof. intros w0. apply sat_tick, Evo_closed. Qed.

Lemma silent_readParam k : silent (readParam k).
Proof. intros w0. apply sat_readParam. Qed.

Lemma silent_bind {A B} (m : M A) (f : A -> M B) :
  silent m -> (forall a, silent (f a)) -> silent (bind m f).
Proof. intros Hm Hf w0. apply sat_bind; [apply Hm | intros a; apply Hf]. Qed.

Lemma silent_then {A B} (p : M A) (f : A -> M B) :
  silent p -> (forall a, silent (f a)) -> silent (then_ p f).
Proof.
  intros Hp Hf w0.
  apply sat_then; [apply Evo_closed | apply Hp | intros a; apply Hf].
Qed.

Lemma silent_mapM {A B} (f : A -> M B) (l : list A) :
  (forall a, silent (f a)) -> silent (mapM f l).
Proof. intros Hf w0. apply sat_mapM. intros a. apply Hf. Qed.

Lemma silent_emit (e : Event) : isResize e = false -> silent (emit e).
Proof.
  intros He. apply silent_intro. intros w Hw. simpl. split; [exact Hw|].
  repeat split. simpl. apply resizes_snoc_quiet, He.
Qed.

Lemma silent_display k str : silent (display k str).
Proof. apply silent_emit. reflexivity. Qed.

Create HintDb silent.
#[local] Hint Resolve silent_ret silent_throw silent_reject silent_tick
  silent_readParam silent_display : silent.

Ltac silence :=
  repeat first
    [ progress intros
    | apply silent_bind
    | apply silent_then
    | apply silent_mapM
    | solve [eauto with silent]
    | apply silent_emit; reflexivity
    | match goal with
      | |- silent (match ?x with _ => _ end) => destruct x
      | |- silent (let _ := _ in _) => cbv zeta
      end ].

Lemma silent_nullParam k : k <> KConfig -> silent (nullParam k).
Proof.
  intros Hk. apply silent_intro. intros w Hw. simpl. split; [exact Hw|].
  repeat split. destruct k; simpl; congruence.
Qed.

Section SilentStages.

Variable env : Env.

Lemma silent_validParamFileSettled type warningType sm wm r :
  type <> KConfig \/ warningType = false ->
  silent (validParamFileSettled type warningType sm wm r).
Proof.
  intros H. unfold validParamFileSettled.
  destruct r as [e|d]; [|silence].
  destruct warningType.
  - destruct H as [H|H]; [|discriminate].
    apply silent_bind; [apply silent_nullParam, H | silence].
  - silence.
Qed.

Lemma silent_validParamFileCall type warningType sm wm :
  silent (validParamFileCall env type warningType sm wm).
Proof. unfold validParamFileCall. silence. Qed.

Lemma silent_validParamFile type warningType sm wm :
  type <> KConfig \/ warningType = false ->
  silent (validParamFile env type warningType sm wm).
Proof.
  intros H. unfold validParamFile.
  apply silent_bind; [apply silent_validParamFileCall|]. intros p.
  apply silent_bind; [apply silent_tick|]. intros _.
  apply silent_validParamFileSettled, H.
Qed.

Lemma silent_validParamFileDetached type warningType sm wm :
  type <> KConfig ->
  silent (validParamFileDetached env type warningType sm wm).
Proof.
  intros Hk. apply silent_intro. intros w Hw.
  unfold validParamFileDetached, validParamFileCall, bind, readParam, emit, ret.
  simpl. split.
  - unfold pendingOk. simpl. apply Forall_app. split; [exact Hw|].
    constructor; [exact Hk | constructor].
  - repeat split. simpl. apply resizes_snoc_quiet. reflexivity.
Qed.

Lemma silent_validArtAssets : silent (validArtAssets env).
Proof.
  unfold validArtAssets, validIconExistsDetached, validSplashExistsDetached.
  apply silent_bind; [apply silent_validParamFileDetached; discriminate|].
  intros _.
  apply silent_bind; [apply silent_validParamFileDetached; discriminate|].
  silence.
Qed.

Lemma silent_configFileExists config0 wm :
  silent (configFileExists env config0 wm).
Proof. apply silent_validParamFile. right. reflexivity. Qed.

Lemma silent_projectRootOf : silent (projectRootOf env).
Proof. unfold projectRootOf. silence. Qed.

Lemma silent_resolvePlatform projectRoot projectName platform :
  silent (resolvePlatform env projectRoot projectName platform).
Proof. unfold resolvePlatform. silence. Qed.

Lemma silent_Q_all {A} (l : list (error + A)) : silent (Q_all l).
Proof. unfold Q_all. silence. Qed.

Lemma silent_getPlatforms projectName : silent (getPlatforms env projectName).
Proof.
  unfold getPlatforms. cbv zeta.
  apply silent_bind; [apply silent_projectRootOf|]. intros projectRoot.
  apply silent_bind;
    [apply silent_mapM; intros a; apply silent_resolvePlatform|].
  intros platforms. apply silent_Q_all.
Qed.

Lemma silent_atLeastOnePlatformFound : silent (atLeastOnePlatformFound env).
Proof.
  unfold atLeastOnePlatformFound.
  apply silent_then; [apply silent_getPlatforms|]. intros platforms.
  cbv zeta. silence.
Qed.

Lemma silent_nfcall_readFile location : silent (nfcall_readFile env location).
Proof. unfold nfcall_readFile. silence. Qed.

Lemma silent_ninvoke_parseString data : silent (ninvoke_parseString env data).
Proof. unfold ninvoke_parseString. silence. Qed.

Lemma silent_getProjectName : silent (getProjectName env).
Proof.
  unfold getProjectName.
  apply silent_bind; [apply silent_readParam|]. intros location.
  apply silent_then; [apply silent_then|].
  - apply silent_nfcall_readFile.
  - intros data. apply silent_ninvoke_parseString.
  - silence.
Qed.

End SilentStages.

(** ** Generation under a specification *)

Section Generation.

Variable env : Env.
Variable S : Spec.
Hypothesis S_closed : turnClosed S.
Hypothesis S_silent : forall A (m : M A), silent m -> sat S m.
Hypothesis S_resize :
  forall opts, fixedOptions opts -> sat S (ninvoke_resize env opts).

Lemma sat_generateArtAsset name src dst opts :
  sat S (generateArtAsset env name src dst opts).
Proof.
  unfold generateArtAsset.
  apply sat_bind; [apply S_silent, silent_projectRootOf|].
  intros projectRoot. cbv zeta.
  apply sat_then; [exact S_closed | |].
  - apply S_resize. split; reflexivity.
  - intros _. apply S_silent, silent_display.
Qed.

Lemma sat_generateArtAssets platform type
      (processor : Asset -> option string -> string -> M unit) :
  (forall a s d, sat S (processor a s d)) ->
  sat S (generateArtAssets platform type processor).
Proof.
  intros Hp. unfold generateArtAssets.
  apply sat_bind; [apply S_silent, silent_display|]. intros _.
  destruct (typeAssets type platform) as [assets|].
  - apply (sat_reduce S_closed
             (fun asset => src <- readParam (keyOf type) ;;
                           processor asset src (typePath type platform))).
    + intros a. apply sat_bind; [apply sat_readParam|]. intros src. apply Hp.
    + apply sat_ret.
  - apply sat_throw, S_closed.
Qed.

Lemma sat_generateIcons platform : sat S (generateIcons env platform).
Proof.
  apply sat_generateArtAssets. intros a s d. apply sat_generateArtAsset.
Qed.

Lemma sat_generateSplashes platform : sat S (generateSplashes env platform).
Proof.
  apply sat_generateArtAssets. intros a s d. apply sat_generateArtAsset.
Qed.

Lemma sat_processPlatformFor type platform (processor : ResolvedPlatform -> M unit) :
  sat S (processor platform) ->
  sat S (processPlatformFor type platform processor).
Proof.
  intros Hp. unfold processPlatformFor. cbv zeta.
  apply sat_bind; [apply sat_readParam|]. intros src.
  destruct (truthyParam src && _); [exact Hp | apply sat_ret].
Qed.

Lemma sat_generate platforms : sat S (generate env platforms).
Proof.
  unfold generate.
  apply (sat_reduce S_closed
           (fun platform =>
              then_ (then_ (ret tt)
                           (fun _ => processPlatformFor IconT platform
                                       (generateIcons env)))
                    (fun _ => processPlatformFor SplashT platform
                                (generateSplashes env)))).
  - intros platform.
    apply sat_then; [exact S_closed | apply sat_then; [exact S_closed | |] |].
    + apply sat_ret.
    + intros _. apply sat_processPlatformFor, sat_generateIcons.
    + intros _. apply sat_processPlatformFor, sat_generateSplashes.
  - apply sat_ret.
Qed.

Lemma sat_pipeline config0 : sat S (pipeline env config0).
Proof.
  unfold pipeline.
  apply sat_then; [exact S_closed | | intros platforms; apply sat_generate].
  apply S_silent.
  repeat first [ apply silent_atLeastOnePlatformFound
               | apply silent_configFileExists
               | apply silent_validArtAssets
               | apply silent_getProjectName
               | apply silent_getPlatforms
               | apply silent_then; [| intros ? ] ].
Qed.

End Generation.

Lemma generate_never_throws env platforms w e :
  fst (generate env platforms w) <> Threw e.
Proof.
  intros H. unfold generate in H.
  apply (reduce_throws
           (fun platform =>
              then_ (then_ (ret tt)
                           (fun _ => processPlatformFor IconT platform
                                       (generateIcons env)))
                    (fun _ => processPlatformFor SplashT platform
                                (generateSplashes env)))) in H.
  discriminate.
Qed.

(** ** Fail-fast generation *)

Section FailFastRun.

Variable env : Env.
Variable w0 : World.

Lemma okRun_respects : respects (okRun env w0).
Proof.
  intros w w' (rs & H1 & H2 & H3) (E1 & E2 & _).
  exists rs. rewrite E1, E2. auto.
Qed.

Lemma koRun_respects e : respects (koRun env w0 e).
Proof.
  intros w w' [H|(rs & o & msg & H1 & H2 & H3)] E.
  - left. eapply okRun_respects; eassumption.
  - right. destruct E as (E1 & E2 & _).
    exists rs, o, msg. rewrite E1, E2. auto.
Qed.

Lemma FailFast_closed : turnClosed (FailFast env w0).
Proof.
  apply framed_closed.
  - apply okRun_respects.
  - apply koRun_respects.
  - intros e w H. left. exact H.
Qed.

Lemma FailFast_silent {A} (m : M A) : silent m -> sat (FailFast env w0) m.
Proof.
  apply silent_sat.
  - apply okRun_respects.
  - apply koRun_respects.
  - intros e w H. left. exact H.
Qed.

Lemma FailFast_resize opts : sat (FailFast env w0) (ninvoke_resize env opts).
Proof.
  intros w [Hp (rs & H1 & H2 & H3)]. unfold ninvoke_resize. cbv zeta.
  assert (Hp' : pendingOk (logEvent (EResize opts) w)) by exact Hp.
  pose proof (yield_pendingOk Hp') as Hy.
  destruct (yield_evolves Hp') as (E1 & E2 & _).
  simpl in E1, E2. rewrite resizes_app in E1. simpl in E1.
  rewrite H1 in E1. rewrite <- app_assoc in E1.
  assert (Hn : length (resizes (trace w))
               = length (resizes (trace w0)) + length rs)
    by (rewrite H1; apply length_app).
  rewrite Hn.
  destruct (ig_resize env (length (resizes (trace w0)) + length rs) opts)
    as [m|] eqn:Hr.
  - split; [exact Hy|]. right. exists rs, opts, m.
    rewrite E1, E2, H2. auto.
  - split; [exact Hy|]. exists (rs ++ [opts])%list. simpl.
    rewrite E1, E2, H2, map_app, <- app_assoc. simpl.
    repeat split.
    intros k o Hk.
    destruct (Nat.lt_ge_cases k (length rs)) as [Hlt|Hge].
    + rewrite nth_error_app1 in Hk by exact Hlt. apply H3, Hk.
    + rewrite nth_error_app2 in Hk by exact Hge.
      destruct (k - length rs) as [|j] eqn:Hj; simpl in Hk.
      * injection Hk as <-.
        replace k with (length rs) by lia. exact Hr.
      * destruct j; discriminate.
Qed.

Lemma FailFast_generate platforms : sat (FailFast env w0) (generate env platforms).
Proof.
  apply sat_generate.
  - apply FailFast_closed.
  - intros A m. apply FailFast_silent.
  - intros opts _. apply FailFast_resize.
Qed.

Lemma FailFast_pipeline config0 : sat (FailFast env w0) (pipeline env config0).
Proof.
  apply sat_pipeline.
  - apply FailFast_closed.
  - intros A m. apply FailFast_silent.
  - intros opts _. apply FailFast_resize.
Qed.

(** Where no resize came before [w0]: a good run has no failed resize, and
    in a failed run a failed resize is the last one and the cause. *)
Lemma okRun_clean w k o msg :
  resizes (trace w0) = [] ->
  okRun env w0 w ->
  nth_error (resizes (trace w)) k = Some o ->
  ig_resize env k o = Some msg ->
  False.
Proof.
  intros H0 (rs & H1 & _ & H3) Hk Hf.
  rewrite H0 in H1, H3. simpl in H1, H3. rewrite H1 in Hk.
  specialize (H3 k o Hk). simpl in H3. congruence.
Qed.

Lemma koRun_last e w k o msg :
  resizes (trace w0) = [] ->
  koRun env w0 e w ->
  nth_error (resizes (trace w)) k = Some o ->
  ig_resize env k o = Some msg ->
  length (resizes (trace w)) = Datatypes.S k
  /\ e = ResizeError msg
  /\ produced w
     = (produced w0 ++ map dstPath (firstn k (resizes (trace w))))%list.
Proof.
  intros H0 [H|(rs & o' & msg' & H1 & H2 & H3 & H4 & H5)] Hk Hf.
  - exfalso. eapply okRun_clean; eassumption.
  - rewrite H0 in H1, H3, H4. simpl in H1, H3, H4. rewrite H1 in Hk. rewrite H1.
    destruct (Nat.lt_ge_cases k (length rs)) as [Hlt|Hge].
    + rewrite nth_error_app1 in Hk by exact Hlt.
      specialize (H3 k o Hk). simpl in H3. congruence.
    + rewrite nth_error_app2 in Hk by exact Hge.
      destruct (k - length rs) as [|j] eqn:Hj; simpl in Hk.
      * injection Hk as <-.
        assert (k = length rs) by lia. subst k.
        rewrite length_app. simpl.
        rewrite firstn_app, firstn_all, Nat.sub_diag. simpl.
        rewrite app_nil_r.
        repeat split; [lia | congruence | exact H2].
      * destruct j; discriminate.
Qed.

End FailFastRun.

(** ** The driver *)

Lemma spread_trace w : trace (validArtAssetsSpread w) = trace w.
Proof. apply spread_fields. Qed.

Lemma deliver_trace_incl p w : incl (trace w) (trace (deliver p w)).
Proof.
  unfold deliver. rewrite spread_trace. unfold validParamFileSettled. simpl.
  destruct (probeResult p) as [e|d]; simpl.
  - destruct (probeWarningType p); simpl.
    + apply incl_appl, incl_refl.
    + destruct (errorCode e) as [c|]; simpl; [|apply incl_refl].
      destruct (c =? "ENOENT"); apply incl_refl.
  - apply incl_appl, incl_refl.
Qed.

Lemma yield_trace_incl w : incl (trace w) (trace (yield w)).
Proof.
  unfold yield.
  change (trace w) with (trace (setPending [] w)).
  generalize (setPending [] w) as acc.
  induction (pending w) as [|p ps IH]; intros acc; simpl.
  - apply incl_refl.
  - eapply incl_tran; [|apply IH].
    unfold yieldStep. destruct (probeWait p).
    + apply deliver_trace_incl.
    + apply incl_refl.
Qed.

Lemma iter_yield n w :
  pendingOk w ->
  pendingOk (Nat.iter n yield w)
  /\ evolves w (Nat.iter n yield w)
  /\ incl (trace w) (trace (Nat.iter n yield w)).
Proof.
  intros Hw. induction n as [|n (IH1 & IH2 & IH3)]; simpl.
  - split; [exact Hw | split; [apply evolves_refl | apply incl_refl]].
  - split; [apply yield_pendingOk, IH1|]. split.
    + eapply evolves_trans; [exact IH2 | apply yield_evolves, IH1].
    + eapply incl_tran; [exact IH3 | apply yield_trace_incl].
Qed.

Lemma drain_spec w :
  pendingOk w ->
  pendingOk (drain w) /\ evolves w (drain w) /\ incl (trace w) (trace (drain w)).
Proof. intros Hw. apply iter_yield, Hw. Qed.

Lemma logEvent_evolves e w :
  isResize e = false -> evolves w (logEvent e w).
Proof.
  intros He. repeat split. simpl. apply resizes_snoc_quiet, He.
Qed.

(** [then_] passes a synchronous throw through, world and all. *)
Lemma then_threw {A B} (p : M A) (f : A -> M B) w e w' :
  then_ p f w = (Threw e, w') -> p w = (Threw e, w').
Proof.
  unfold then_. destruct (p w) as [[a|e'|e'] w1]; try discriminate.
  - destruct (f a (yield w1)) as [[b|e''|e''] w2]; discriminate.
  - intros H. injection H as -> ->. reflexivity.
Qed.

Lemma pipeline_threw env config0 w e w' :
  pipeline env config0 w = (Threw e, w') ->
  atLeastOnePlatformFound env w = (Threw e, w').
Proof.
  unfold pipeline. intros H.
  do 5 apply then_threw in H. exact H.
Qed.

Lemma main_run env pg :
  main env (initialWorld pg) =
  match pipeline env (config pg) (startWorld pg) with
  | (Fulfilled _, w2) =>
      (Fulfilled tt, drain (logEvent (ELog "") (yield (yield w2))))
  | (Rejected e, w2) =>
      (Fulfilled tt,
       drain (logEvent (ELog "")
                (yield (logEvent (EDisplay Failure (errorMessage e))
                          (yield w2)))))
  | (Threw e, w2) => (Threw e, w2)
  end.
Proof.
  unfold main, bind, display, emit, readParam, then_, catch_. simpl.
  fold (startWorld pg).
  destruct (pipeline env (config pg) (startWorld pg)) as [[a|e|e] w2];
    reflexivity.
Qed.

Lemma startWorld_pendingOk pg : pendingOk (startWorld pg).
Proof. constructor. Qed.

Lemma tail_fulfilled w2 :
  pendingOk w2 ->
  evolves w2 (drain (logEvent (ELog "") (yield (yield w2)))).
Proof.
  intros H.
  pose proof (yield_pendingOk H) as H1.
  pose proof (yield_pendingOk H1) as H2.
  assert (H3 : pendingOk (logEvent (ELog "") (yield (yield w2)))) by exact H2.
  destruct (drain_spec H3) as (_ & E & _).
  eapply evolves_trans; [apply yield_evolves, H|].
  eapply evolves_trans; [apply yield_evolves, H1|].
  eapply evolves_trans; [| exact E]. apply logEvent_evolves. reflexivity.
Qed.

Lemma tail_rejected w2 msg :
  pendingOk w2 ->
  evolves w2 (drain (logEvent (ELog "")
                       (yield (logEvent (EDisplay Failure msg) (yield w2)))))
  /\ In (EDisplay Failure msg)
        (trace (drain (logEvent (ELog "")
                         (yield (logEvent (EDisplay Failure msg) (yield w2)))))).
Proof.
  intros H.
  pose proof (yield_pendingOk H) as H1.
  assert (H2 : pendingOk (logEvent (EDisplay Failure msg) (yield w2)))
    by exact H1.
  pose proof (yield_pendingOk H2) as H3.
  assert (H4 : pendingOk
                 (logEvent (ELog "")
                    (yield (logEvent (EDisplay Failure msg) (yield w2)))))
    by exact H3.
  destruct (drain_spec H4) as (_ & E & I).
  split.
  - eapply evolves_trans; [apply yield_evolves, H|].
    eapply evolves_trans;
      [apply (@logEvent_evolves (EDisplay Failure msg)); reflexivity|].
    eapply evolves_trans; [apply yield_evolves, H2|].
    eapply evolves_trans; [| exact E]. apply logEvent_evolves. reflexivity.
  - apply I. simpl. apply in_or_app. left.
    apply yield_trace_incl. simpl. apply in_or_app. right. left. reflexivity.
Qed.

Lemma generate_fail_fast env platforms w k o msg :
  pendingOk w ->
  resizes (trace w) = [] ->
  nth_error (resizes (trace (snd (generate env platforms w)))) k = Some o ->
  ig_resize env k o = Some msg ->
  length (resizes (trace (snd (generate env platforms w)))) = Datatypes.S k
  /\ fst (generate env platforms w) = Rejected (ResizeError msg)
  /\ produced (snd (generate env platforms w))
     = (produced w
        ++ map dstPath
             (firstn k (resizes (trace (snd (generate env platforms w))))))%list.
Proof.
  intros Hp H0 Hk Hf.
  assert (Hok : ok (FailFast env w) w).
  { split; [exact Hp|]. exists []. simpl. rewrite !app_nil_r.
    repeat split. intros j o' Hj. destruct j; discriminate. }
  pose proof (@FailFast_generate env w platforms w Hok) as Hs.
  pose proof (@generate_never_throws env platforms w) as Hn.
  destruct (generate env platforms w) as [[a|e|e] w']; simpl in *.
  - exfalso. destruct Hs as [_ Hs]. eapply okRun_clean; eassumption.
  - destruct Hs as [_ Hs].
    destruct (@koRun_last env w e w' k o msg H0 Hs Hk Hf) as (L & -> & P). auto.
  - exfalso. apply (Hn e). reflexivity.
Qed.

Lemma main_fail_fast env pg k o msg :
  nth_error (resizes (trace (snd (main env (initialWorld pg))))) k = Some o ->
  ig_resize env k o = Some msg ->
  length (resizes (trace (snd (main env (initialWorld pg))))) = Datatypes.S k
  /\ In (EDisplay Failure msg) (trace (snd (main env (initialWorld pg))))
  /\ produced (snd (main env (initialWorld pg)))
     = map dstPath
         (firstn k (resizes (trace (snd (main env (initialWorld pg)))))).
Proof.
  rewrite main_run.
  assert (Hok : ok (FailFast env (startWorld pg)) (startWorld pg)).
  { split; [apply startWorld_pendingOk|]. exists []. simpl.
    repeat split. intros j o' Hj. destruct j; discriminate. }
  pose proof (@FailFast_pipeline env (startWorld pg) (config pg) _ Hok) as Hs.
  assert (H0 : resizes (trace (startWorld pg)) = []) by reflexivity.
  destruct (pipeline env (config pg) (startWorld pg)) as [[a|e|e] w2] eqn:Hrun;
    simpl; intros Hk Hf.
  - exfalso. destruct Hs as [Hp Hs].
    eapply (@okRun_clean env (startWorld pg)); [exact H0| |exact Hk|exact Hf].
    eapply okRun_respects; [exact Hs | apply tail_fulfilled, Hp].
  - destruct Hs as [Hp Hs].
    destruct (@tail_rejected w2 (errorMessage e) Hp) as [E I].
    pose proof (@koRun_respects env (startWorld pg) e _ _ Hs E) as Hs'.
    destruct (@koRun_last env (startWorld pg) e _ k o msg H0 Hs' Hk Hf)
      as (L & -> & P).
    repeat split; [exact L | exact I | exact P].
  - exfalso. apply pipeline_threw in Hrun.
    pose proof (silent_elim (@silent_atLeastOnePlatformFound env)
                            (startWorld_pendingOk pg)) as [_ (E & _)].
    rewrite Hrun in E. simpl in E. rewrite E in Hk.
    destruct k; discriminate.
Qed.

(** ** The fixed options of every resize *)

Lemma FixedOptions_closed : turnClosed FixedOptions.
Proof.
  apply framed_closed.
  - intros w w' H (E & _). rewrite E. exact H.
  - intros _ w w' H (E & _). rewrite E. exact H.
  - auto.
Qed.

Lemma FixedOptions_silent {A} (m : M A) : silent m -> sat FixedOptions m.
Proof.
  apply silent_sat.
  - intros w w' H (E & _). rewrite E. exact H.
  - intros _ w w' H (E & _). rewrite E. exact H.
  - auto.
Qed.

Lemma FixedOptions_resize env opts :
  fixedOptions opts -> sat FixedOptions (ninvoke_resize env opts).
Proof.
  intros Ho w [Hp H]. unfold ninvoke_resize. cbv zeta.
  assert (Hp' : pendingOk (logEvent (EResize opts) w)) by exact Hp.
  pose proof (yield_pendingOk Hp') as Hy.
  destruct (yield_evolves Hp') as (E & _).
  simpl in E. rewrite resizes_app in E. simpl in E.
  assert (F : Forall fixedOptions
                (resizes (trace (yield (logEvent (EResize opts) w))))).
  { rewrite E. apply Forall_app. split; [exact H|].
    constructor; [exact Ho | constructor]. }
  destruct (ig_resize env _ opts); split; assumption.
Qed.

Lemma FixedOptions_main env pg :
  Forall fixedOptions (resizes (trace (snd (main env (initialWorld pg))))).
Proof.
  rewrite main_run.
  assert (Hok : ok FixedOptions (startWorld pg)).
  { split; [apply startWorld_pendingOk | constructor]. }
  pose proof (@sat_pipeline env FixedOptions FixedOptions_closed
                (@FixedOptions_silent) (FixedOptions_resize env)
                (config pg) _ Hok) as Hs.
  destruct (pipeline env (config pg) (startWorld pg)) as [[a|e|e] w2];
    simpl; destruct Hs as [Hp Hs].
  - destruct (tail_fulfilled Hp) as (E & _). rewrite E. exact Hs.
  - destruct (@tail_rejected w2 (errorMessage e) Hp) as [(E & _) _].
    rewrite E. exact Hs.
  - exact Hs.
Qed.

(** A turn of the event loop resizes nothing, whatever is pending. *)
Lemma deliver_resizes p w : resizes (trace (deliver p w)) = resizes (trace w).
Proof.
  unfold deliver. rewrite spread_trace. unfold validParamFileSettled. simpl.
  destruct (probeResult p) as [e|d]; simpl.
  - destruct (probeWarningType p); simpl.
    + apply resizes_snoc_quiet. reflexivity.
    + destruct (errorCode e) as [c|]; simpl; [|reflexivity].
      destruct (c =? "ENOENT"); reflexivity.
  - apply resizes_snoc_quiet. reflexivity.
Qed.

Lemma yield_resizes w : resizes (trace (yield w)) = resizes (trace w).
Proof.
  unfold yield.
  change (trace w) with (trace (setPending [] w)).
  generalize (setPending [] w) as acc.
  induction (pending w) as [|p ps IH]; intros acc; simpl.
  - reflexivity.
  - rewrite IH. unfold yieldStep. destruct (probeWait p).
    + apply deliver_resizes.
    + reflexivity.
Qed.

Lemma generateArtAsset_call env name src dst opts w c :
  config (program w) = Some c ->
  resizes (trace (snd (generateArtAsset env name src dst opts w)))
  = (resizes (trace w)
     ++ [ {| srcPath := src;
             dstPath := path_join env
                          (path_resolve env (path_dirname env c) dst) name;
             quality := 1;
             format := "png";
             width := fst opts;
             height := snd opts |} ])%list.
Proof.
  intros Hc.
  unfold generateArtAsset, projectRootOf, bind, readParam, then_,
    ninvoke_resize, display, emit, ret, extend.
  simpl. rewrite Hc. simpl.
  destruct (ig_resize env _ _); simpl.
  - rewrite !yield_resizes. simpl. apply resizes_app.
  - rewrite resizes_app. simpl. rewrite app_nil_r.
    rewrite yield_resizes. simpl.
    rewrite yield_resizes. simpl. apply resizes_app.
Qed.

(** ** The work list of [generate] *)

Lemma runs_ret pg : runs pg (ret tt) [].
Proof.
  intros w Hp Hs. simpl. rewrite app_nil_r. auto.
Qed.

Lemma runs_then pg (p : M unit) (f : unit -> M unit) e1 e2 :
  runs pg p e1 -> runs pg (f tt) e2 -> runs pg (then_ p f) (e1 ++ e2).
Proof.
  intros Hp Hf w Hw Hs. unfold then_.
  destruct (Hp w Hw Hs) as (A & B & C & D).
  destruct (p w) as [[[]|e|e] w1]; simpl in *; try discriminate.
  destruct (yield_stable C) as [C' B'].
  assert (B'' : program (yield w1) = pg) by congruence.
  destruct (Hf (yield w1) B'' C') as (A2 & B2 & C2 & D2).
  rewrite yield_resizes, D in D2.
  destruct (f tt (yield w1)) as [[[]|e|e] w2]; simpl in *; try discriminate.
  rewrite app_assoc. auto.
Qed.

Lemma runs_reduce pg {A} (f : A -> M unit) (g : A -> list ResizeOpts)
      (l : list A) :
  (forall a, runs pg (f a) (g a)) ->
  forall init e0,
    runs pg init e0 ->
    runs pg (fold_left (fun previous a => then_ previous (fun _ => f a)) l init)
         (e0 ++ flat_map g l).
Proof.
  intros Hf. induction l as [|a l IH]; intros init e0 Hinit; simpl.
  - rewrite app_nil_r. exact Hinit.
  - rewrite app_assoc. apply IH.
    apply (@runs_then pg init (fun _ => f a) e0 (g a)); [exact Hinit | apply Hf].
Qed.

Lemma flat_map_singleton {A B} (h : A -> B) (l : list A) :
  flat_map (fun a => [h a]) l = map h l.
Proof. induction l as [|a l IH]; simpl; congruence. Qed.

Section Plan.

Variable env : Env.
Variable pg : Program.
Variable c : string.
Hypothesis config_pg : config pg = Some c.
Hypothesis resize_succeeds : forall n o, ig_resize env n o = None.

Lemma runs_generateArtAsset name src dst opts :
  runs pg (generateArtAsset env name src dst opts)
       [ {| srcPath := src;
            dstPath := path_join env
                         (path_resolve env (path_dirname env c) dst) name;
            quality := 1;
            format := "png";
            width := fst opts;
            height := snd opts |} ].
Proof.
  intros w Hw Hs.
  assert (Hc : config (program w) = Some c) by congruence.
  split; [| split; [| split]].
  4: apply generateArtAsset_call, Hc.
  all: unfold generateArtAsset, projectRootOf, bind, readParam, then_,
         ninvoke_resize, display, emit, ret, extend;
       simpl; rewrite Hc; simpl; rewrite resize_succeeds; simpl.
  - reflexivity.
  - assert (S1 : stable (logEvent (EResize
       {| srcPath := src;
          dstPath := path_join env
                       (path_resolve env (path_dirname env c) dst) name;
          quality := 1; format := "png";
          width := fst opts; height := snd opts |}) w)) by exact Hs.
    destruct (yield_stable S1) as [S2 P2].
    match goal with
    | |- program (yield ?x) = _ =>
        assert (S3 : stable x) by exact S2;
        destruct (yield_stable S3) as [_ P3]; rewrite P3
    end.
    simpl. rewrite P2. exact Hw.
  - assert (S1 : stable (logEvent (EResize
       {| srcPath := src;
          dstPath := path_join env
                       (path_resolve env (path_dirname env c) dst) name;
          quality := 1; format := "png";
          width := fst opts; height := snd opts |}) w)) by exact Hs.
    destruct (yield_stable S1) as [S2 P2].
    match goal with
    | |- stable (logEvent _ (yield ?x)) =>
        assert (S3 : stable x) by exact S2;
        destruct (yield_stable S3) as [S4 _]; exact S4
    end.
Qed.

Lemma runs_generateArtAssets platform type
      (processor : Asset -> option string -> string -> M unit) assets :
  typeAssets type platform = Some assets ->
  (forall a, runs pg (processor a (getParam (keyOf type) pg)
                                (typePath type platform))
                  [resizeCall env c type (getParam (keyOf type) pg) platform a]) ->
  runs pg (generateArtAssets platform type processor)
       (map (resizeCall env c type (getParam (keyOf type) pg) platform) assets).
Proof.
  intros Ha Hp w Hw Hs. unfold generateArtAssets, bind, display, emit.
  rewrite Ha.
  pose proof (@runs_reduce pg Asset
                (fun asset => src <- readParam (keyOf type) ;;
                              processor asset src (typePath type platform))
                (fun a => [resizeCall env c type (getParam (keyOf type) pg)
                                      platform a])
                assets) as R.
  rewrite flat_map_singleton in R. simpl in R.
  assert (Hstep : forall a,
             runs pg (src <- readParam (keyOf type) ;;
                      processor a src (typePath type platform))
                  [resizeCall env c type (getParam (keyOf type) pg) platform a]).
  { intros a w1 Hw1 Hs1. unfold bind, readParam. rewrite Hw1.
    apply Hp; assumption. }
  specialize (R Hstep (ret tt) [] (@runs_ret pg)).
  destruct (R (logEvent (EDisplay Header
                           ("Generating " ++ typeName type ++ " assets for "
                            ++ platformName (proto platform))) w) Hw Hs)
    as (A & B & C & D).
  simpl in D. rewrite resizes_snoc_quiet in D by reflexivity.
  auto.
Qed.

Lemma runs_processPlatformFor type platform :
  runs pg (processPlatformFor type platform
             (match type with
              | IconT => generateIcons env
              | SplashT => generateSplashes env
              end))
       (planFor env c pg type platform).
Proof.
  intros w Hw Hs. unfold processPlatformFor, planFor, bind, readParam.
  cbv zeta. rewrite Hw.
  destruct (typeAssets type platform) as [assets|] eqn:Ha.
  - destruct (truthyParam (getParam (keyOf type) pg)
              && negb (Nat.eqb (length assets) 0)).
    + destruct type.
      * apply (@runs_generateArtAssets platform IconT (generateIcon env) assets Ha);
          [|exact Hw|exact Hs].
        intros a. apply runs_generateArtAsset.
      * apply (@runs_generateArtAssets platform SplashT (generateSplash env) assets Ha);
          [|exact Hw|exact Hs].
        intros a. apply runs_generateArtAsset.
    + apply runs_ret; assumption.
  - rewrite andb_false_r. apply runs_ret; assumption.
Qed.

Lemma runs_platform platform :
  runs pg (then_ (then_ (ret tt)
                        (fun _ => processPlatformFor IconT platform
                                    (generateIcons env)))
                 (fun _ => processPlatformFor SplashT platform
                             (generateSplashes env)))
       (planFor env c pg IconT platform ++ planFor env c pg SplashT platform).
Proof.
  apply (@runs_then pg _ (fun _ => processPlatformFor SplashT platform
                                     (generateSplashes env))).
  - apply (@runs_then pg (ret tt)
             (fun _ => processPlatformFor IconT platform (generateIcons env))
             [] (planFor env c pg IconT platform)).
    + apply runs_ret.
    + apply (runs_processPlatformFor IconT).
  - apply (runs_processPlatformFor SplashT).
Qed.

Lemma runs_generate platforms :
  runs pg (generate env platforms) (plan env c pg platforms).
Proof.
  unfold generate, plan.
  apply (@runs_reduce pg ResolvedPlatform
           (fun platform =>
              then_ (then_ (ret tt)
                           (fun _ => processPlatformFor IconT platform
                                       (generateIcons env)))
                    (fun _ => processPlatformFor SplashT platform
                                (generateSplashes env)))
           (fun platform =>
              (planFor env c pg IconT platform
               ++ planFor env c pg SplashT platform)%list)
           (whereIsAdded platforms) runs_platform (ret tt) [] (@runs_ret pg)).
Qed.

End Plan.

(** ** Path templating *)

Example processPath_ios :
  processPath "$PROJECT_NAME/Resources/icons" (JStr "Hello")
  = "Hello/Resources/icons".
Proof. reflexivity. Qed.

Example processPath_twice :
  processPath "a/$PROJECT_NAME/$PROJECT_NAME.x" (JStr "Hi") = "a/Hi/Hi.x".
Proof. reflexivity. Qed.

Example processPath_undefined :
  processPath "$PROJECT_NAME/icons" (js_or JUndefined (JStr "")) = "/icons".
Proof. reflexivity. Qed.

Lemma replaceFrom_absent token replacement s :
  containsToken token s = false ->
  forall before, replaceFrom token replacement before 0 s = s.
Proof.
  induction s as [|c rest IH]; intros H before.
  - reflexivity.
  - cbn [containsToken] in H. apply orb_false_iff in H. destruct H as [H1 H2].
    cbn [replaceFrom]. rewrite H1. f_equal. apply IH, H2.
Qed.

Lemma processPath_absent path projectName :
  containsToken projectNameToken path = false ->
  processPath path projectName = path.
Proof.
  intros H. unfold processPath, replaceAll. apply replaceFrom_absent, H.
Qed.

Lemma GetSubstitution_plain matched before after replacement :
  hasDollar replacement = false ->
  GetSubstitution matched before after replacement = replacement.
Proof.
  induction replacement as [|c rest IH]; intros H.
  - reflexivity.
  - cbn [hasDollar] in H. apply orb_false_iff in H. destruct H as [H1 H2].
    cbn [GetSubstitution]. rewrite H1. f_equal. apply IH, H2.
Qed.

Lemma replaceFrom_plain token replacement s :
  hasDollar replacement = false ->
  forall before skip,
    replaceFrom token replacement before skip s
    = substituteFrom token replacement skip s.
Proof.
  intros H. induction s as [|c rest IH]; intros before skip.
  - reflexivity.
  - cbn [replaceFrom substituteFrom]. destruct skip as [|k].
    + destruct (prefix token (String c rest)).
      * rewrite GetSubstitution_plain by exact H. f_equal. apply IH.
      * f_equal. apply IH.
    + apply IH.
Qed.

Lemma processPath_plain path name :
  hasDollar name = false ->
  processPath path (JStr name) = substituteLiteral projectNameToken name path.
Proof.
  intros H. unfold processPath, replaceAll, substituteLiteral. simpl.
  apply replaceFrom_plain, H.
Qed.

(** ** Platform resolution touches nothing *)

Lemma Untouched_closed pg : turnClosed (Untouched pg).
Proof.
  unfold turnClosed. simpl. split; [|split].
  - intros w H. rewrite yield_idle by apply H. exact H.
  - intros _ w H. rewrite yield_idle by apply H. exact H.
  - intros _ w H. exact H.
Qed.

Lemma Untouched_emit pg e : harmless e -> sat (Untouched pg) (emit e).
Proof.
  intros He w (H1 & H2 & H3 & H4). simpl. repeat split; try assumption.
  simpl. apply Forall_app. split; [exact H4|].
  constructor; [exact He | constructor].
Qed.

Lemma Untouched_getPlatforms env pg projectName :
  sat (Untouched pg) (getPlatforms env projectName).
Proof.
  pose proof (Untouched_closed pg) as C.
  unfold getPlatforms. cbv zeta.
  apply sat_bind.
  { unfold projectRootOf. apply sat_bind; [apply sat_readParam|].
    intros [c|]; [apply sat_ret | apply sat_throw, C]. }
  intros projectRoot. apply sat_bind.
  { apply sat_mapM. intros platform. unfold resolvePlatform.
    destruct (rootDirectories (platformName platform)) as [r|];
      [|apply sat_throw, C].
    cbv zeta. apply sat_bind; [apply Untouched_emit; exact I|].
    intros _. apply sat_ret. }
  intros platforms. unfold Q_all.
  apply sat_bind; [apply sat_tick, C|]. intros _.
  destruct (allSettled platforms); [apply sat_reject, C | apply sat_ret].
Qed.

Lemma startWorld_untouched pg : untouched pg (startWorld pg).
Proof.
  repeat split. simpl. constructor; [exact I | constructor].
Qed.

Lemma drain_idle w : pending w = [] -> drain w = w.
Proof.
  intros H. unfold drain. rewrite H. simpl. apply yield_idle, H.
Qed.

Lemma no_platforms_run env pg platforms :
  fst (getPlatforms env JUndefined (startWorld pg)) = Fulfilled platforms ->
  whereIsAdded platforms = [] ->
  fst (pipeline env (config pg) (startWorld pg)) = Rejected NoPlatformsError
  /\ untouched pg (snd (pipeline env (config pg) (startWorld pg)))
  /\ untouched pg (snd (main env (initialWorld pg)))
  /\ In (EDisplay Failure (errorMessage NoPlatformsError))
        (trace (snd (main env (initialWorld pg)))).
Proof.
  intros Hg Hz.
  pose proof (@Untouched_getPlatforms env pg JUndefined (startWorld pg)
                (startWorld_untouched pg)) as Hs.
  destruct (getPlatforms env JUndefined (startWorld pg)) as [o w1] eqn:Hrun.
  simpl in Hg. subst o.
  assert (Ha : atLeastOnePlatformFound env (startWorld pg)
               = (Rejected NoPlatformsError, w1)).
  { unfold atLeastOnePlatformFound, then_. rewrite Hrun. cbv zeta.
    rewrite Hz. simpl. rewrite yield_idle by apply Hs. reflexivity. }
  assert (Hpipe : pipeline env (config pg) (startWorld pg)
                  = (Rejected NoPlatformsError, w1)).
  { unfold pipeline, then_. rewrite Ha.
    rewrite !(@yield_idle w1) by apply Hs. reflexivity. }
  rewrite main_run, Hpipe. simpl.
  destruct Hs as (H1 & H2 & H3 & H4).
  rewrite (@yield_idle w1) by exact H1.
  rewrite yield_idle by exact H1.
  rewrite drain_idle by exact H1.
  repeat split; try assumption; simpl.
  - apply Forall_app. split.
    + apply Forall_app. split; [exact H4|].
      constructor; [exact I | constructor].
    + constructor; [exact I | constructor].
  - apply in_or_app. left. apply in_or_app. right. left. reflexivity.
Qed.

(** ** Project name *)

Lemma lacksWidgetName_None result :
  lacksWidgetName result = true -> widgetName0 result = None.
Proof.
  unfold lacksWidgetName, widgetName0.
  destruct (prop result "widget") as [widget|]; [|reflexivity].
  destruct (prop widget "name") as [[]|]; try discriminate; reflexivity.
Qed.

Section MissingName.

Variable env : Env.
Variables (c data : string) (result : jsval).
Hypothesis config_readable : fs_readFile env c = ReadOk data.
Hypothesis config_parsed : parseString env data = inl result.
Hypothesis name_missing : lacksWidgetName result = true.

Lemma getProjectName_lacking w :
  config (program w) = Some c ->
  fst (getProjectName env w)
  = Rejected (TypeError "Cannot read property of undefined").
Proof.
  intros Hc.
  unfold getProjectName, bind, readParam, then_, nfcall_readFile,
    ninvoke_parseString, emit, tick, readFileResult, reject, ret, throw.
  simpl. rewrite Hc, config_readable. simpl.
  rewrite config_parsed. simpl.
  rewrite (lacksWidgetName_None _ name_missing). reflexivity.
Qed.

(** The chain up to [getProjectName]. *)
Lemma stages_silent config0 :
  silent (then_ (then_ (then_ (then_ (atLeastOnePlatformFound env)
                                     (fun _ => configFileExists env config0 None))
                              (fun _ => validArtAssets env))
                       (fun _ => getProjectName env))
                (fun projectName => getPlatforms env projectName)).
Proof.
  repeat first [ apply silent_atLeastOnePlatformFound
               | apply silent_configFileExists
               | apply silent_validArtAssets
               | apply silent_getProjectName
               | apply silent_getPlatforms
               | apply silent_then; [| intros ? ] ].
Qed.

Lemma stages_fail w (X : M unit) :
  silent X -> pendingOk w -> config (program w) = Some c ->
  forall ps,
    fst (then_ (then_ X (fun _ => getProjectName env))
               (fun projectName => getPlatforms env projectName) w)
    <> Fulfilled ps.
Proof.
  intros HX Hw Hc ps. unfold then_ at 1 2.
  destruct (silent_elim HX Hw) as [Hp (_ & _ & E)].
  destruct (X w) as [[[]|e|e] w1]; simpl in *; try discriminate.
  assert (Hc1 : config (program (yield w1)) = Some c).
  { destruct (yield_evolves Hp) as (_ & _ & E1). congruence. }
  pose proof (getProjectName_lacking _ Hc1) as Hn.
  destruct (getProjectName env (yield w1)) as [o w2]. simpl in Hn. subst o.
  simpl. discriminate.
Qed.

Lemma lacking_pipeline pg :
  config pg = Some c ->
  (forall a, fst (pipeline env (config pg) (startWorld pg)) <> Fulfilled a)
  /\ pendingOk (snd (pipeline env (config pg) (startWorld pg)))
  /\ evolves (startWorld pg) (snd (pipeline env (config pg) (startWorld pg))).
Proof.
  intros Hc.
  pose proof (stages_silent (config pg)) as Hsil.
  pose proof (startWorld_pendingOk pg) as Hw.
  destruct (silent_elim Hsil Hw) as [Hp E].
  assert (Hf : forall ps,
             fst (then_ (then_ (then_ (then_ (atLeastOnePlatformFound env)
                                  (fun _ => configFileExists env (config pg) None))
                                  (fun _ => validArtAssets env))
                               (fun _ => getProjectName env))
                        (fun projectName => getPlatforms env projectName)
                        (startWorld pg)) <> Fulfilled ps).
  { apply stages_fail; [| exact Hw | exact Hc].
    repeat first [ apply silent_atLeastOnePlatformFound
                 | apply silent_configFileExists
                 | apply silent_validArtAssets
                 | apply silent_then; [| intros ? ] ]. }
  unfold pipeline.
  match goal with
  | |- context [then_ ?Y ?g (startWorld pg)] =>
      change (then_ Y g (startWorld pg))
        with (match Y (startWorld pg) with
              | (Fulfilled a, w1) =>
                  match g a (yield w1) with
                  | (Threw e, w2) => (Rejected e, w2)
                  | r => r
                  end
              | (Rejected e, w1) => (Rejected e, yield w1)
              | (Threw e, w1) => (Threw e, w1)
              end);
      destruct (Y (startWorld pg)) as [[ps|e|e] w1]
  end; simpl in *.
  - exfalso. apply (Hf ps). reflexivity.
  - split; [discriminate|]. split; [apply yield_pendingOk, Hp|].
    eapply evolves_trans; [exact E | apply yield_evolves, Hp].
  - split; [discriminate|]. split; assumption.
Qed.

Lemma lacking_main pg :
  config pg = Some c ->
  resizes (trace (snd (main env (initialWorld pg)))) = []
  /\ produced (snd (main env (initialWorld pg))) = [].
Proof.
  intros Hc. destruct (lacking_pipeline pg Hc) as (Hf & Hp & E).
  rewrite main_run.
  destruct (pipeline env (config pg) (startWorld pg)) as [[a|e|e] w2];
    simpl in *.
  - exfalso. apply (Hf a). reflexivity.
  - destruct (@tail_rejected w2 (errorMessage e) Hp) as [E2 _].
    destruct (evolves_trans E E2) as (R & P & _). split; assumption.
  - destruct E as (R & P & _). split; assumption.
Qed.

End MissingName.

(** ** What holds of the stages that the claims find wanting *)

(** When every root answers [fs.stat], resolution yields one platform per
    descriptor, in order, added exactly where the root is a directory. *)
Lemma mapM_cons {A B} (f : A -> M B) a l w :
  mapM f (a :: l) w
  = match f a w with
    | (Fulfilled b, w1) =>
        match mapM f l w1 with
        | (Fulfilled bs, w2) => (Fulfilled (b :: bs), w2)
        | (Rejected e, w2) => (Rejected e, w2)
        | (Threw e, w2) => (Threw e, w2)
        end
    | (Rejected e, w1) => (Rejected e, w1)
    | (Threw e, w1) => (Threw e, w1)
    end.
Proof.
  simpl. unfold bind. destruct (f a w) as [[b|e|e] w1]; reflexivity.
Qed.

Lemma resolvePlatform_found env c projectName p d w :
  rootStat env c p = Some d ->
  exists rp,
    resolvePlatform env (path_dirname env c) projectName p w
    = (Fulfilled (inr rp),
       logEvent (EStat (path_join env (path_dirname env c)
                          (match rootDirectories (platformName p) with
                           | Some r => r
                           | None => ""
                           end))) w)
    /\ proto rp = p /\ isAdded rp = d.
Proof.
  unfold rootStat, resolvePlatform. intros H.
  destruct (rootDirectories (platformName p)) as [r|]; [|discriminate].
  cbv zeta. unfold bind, emit, ret.
  destruct (fs_stat env (path_join env (path_dirname env c) r)) as [d'|? ?];
    [|discriminate].
  injection H as ->. eexists. split; [reflexivity|]. split; reflexivity.
Qed.

Lemma mapM_resolve_found env c projectName (l : list Platform) :
  Forall (fun p => rootStat env c p <> None) l ->
  forall w,
  exists ps,
    fst (mapM (resolvePlatform env (path_dirname env c) projectName) l w)
    = Fulfilled (map inr ps)
    /\ map proto ps = l
    /\ map isAdded ps = map (rootIsDirectory env c) l.
Proof.
  induction 1 as [|p l Hp _ IH]; intros w.
  - exists []. repeat split.
  - rewrite mapM_cons.
    destruct (rootStat env c p) as [d|] eqn:Hd; [|congruence].
    destruct (@resolvePlatform_found env c projectName p d w Hd)
      as (rp & -> & A1 & A2).
    match goal with
    | |- context [mapM ?f l ?w1] =>
        destruct (IH w1) as (ps & A & B & C);
        destruct (mapM f l w1) as [o w2]
    end.
    simpl in A. subst o. simpl.
    exists (rp :: ps). simpl. unfold rootIsDirectory at 1.
    rewrite Hd, A1, A2, B, C. repeat split.
Qed.

Lemma allSettled_inr {A} (l : list A) :
  allSettled (map inr l) = inr l.
Proof. induction l as [|a l IH]; simpl; [|rewrite IH]; reflexivity. Qed.

Lemma projectRootOf_config env w c :
  config (program w) = Some c ->
  projectRootOf env w = (Fulfilled (path_dirname env c), w).
Proof.
  intros Hc. unfold projectRootOf, bind, readParam. simpl. rewrite Hc.
  reflexivity.
Qed.

Lemma getPlatforms_found env projectName w c :
  config (program w) = Some c ->
  Forall (fun p => rootStat env c p <> None) (platformInfo env) ->
  exists ps,
    fst (getPlatforms env projectName w) = Fulfilled ps
    /\ map proto ps = platformInfo env
    /\ map isAdded ps = map (rootIsDirectory env c) (platformInfo env).
Proof.
  intros Hc Hall. unfold getPlatforms. cbv zeta.
  unfold bind at 1. rewrite (projectRootOf_config env w Hc).
  unfold bind at 1.
  destruct (@mapM_resolve_found env c (js_or projectName (JStr "")) _ Hall w)
    as (ps & A & B & C).
  destruct (mapM _ (platformInfo env) w) as [o w1]. simpl in A. subst o.
  exists ps. unfold Q_all, bind, tick. rewrite allSettled_inr. simpl. auto.
Qed.

(** A missing configuration file fulfils [configFileExists] with [false];
    only another error of the read rejects it. *)
Lemma configFileExists_not_found env config0 w c m :
  config (program w) = Some c ->
  fs_readFile env c = ReadErr "ENOENT" m ->
  fst (configFileExists env config0 None w) = Fulfilled false.
Proof.
  intros Hc Hr.
  unfold configFileExists, validParamFile, validParamFileCall, bind, readParam,
    emit, tick, ret, readFileResult.
  simpl. rewrite Hc, Hr. reflexivity.
Qed.

(** [validArtAssets] is fulfilled at once, and a probe of a source is
    fulfilled with [true] however its read ends: the test of the [spread]
    callback never holds. *)
Lemma validArtAssets_fulfilled env w :
  fst (validArtAssets env w) = Fulfilled tt.
Proof. reflexivity. Qed.

Lemma source_probe_true type sm wm r w :
  fst (validParamFileSettled type true sm wm r w) = Fulfilled true.
Proof. destruct r; reflexivity. Qed.

(** Once the splash source is disabled and no pending probe can change
    [program], [generate] resizes icons only. *)
Lemma planFor_disabled env c pg platform :
  splash pg = None -> planFor env c pg SplashT platform = [].
Proof.
  intros H. unfold planFor. simpl. rewrite H. simpl.
  destruct (splashAssets (proto platform)); reflexivity.
Qed.

Lemma generate_splash_disabled env platforms w c :
  config (program w) = Some c ->
  splash (program w) = None ->
  stable w ->
  (forall n o, ig_resize env n o = None) ->
  resizes (trace (snd (generate env platforms w)))
  = (resizes (trace w)
     ++ flat_map (planFor env c (program w) IconT) (whereIsAdded platforms))%list.
Proof.
  intros Hc Hs Hst Hok.
  destruct (@runs_generate env (program w) c Hc Hok platforms w eq_refl Hst)
    as (_ & _ & _ & D).
  rewrite D. f_equal. unfold plan.
  induction (whereIsAdded platforms) as [|p l IH]; simpl; [reflexivity|].
  rewrite planFor_disabled by exact Hs. rewrite app_nil_r, IH. reflexivity.
Qed.

(** * The claims *)

(** C1. A single added platform with three icon specifications and two
    splash specifications, both sources present in [program] (a path is not
    the empty string), no pending source probe that could disable one, and
    a resize capability that succeeds: [generate] invokes the resize
    exactly five times, the three icons in declared order and then the two
    splashes in declared order, and is fulfilled. *)
Theorem generate_three_icons_two_splashes
        (env : Env) (platform : ResolvedPlatform) (w : World)
        (i1 i2 i3 s1 s2 : Asset) (iconSrc splashSrc c : string) :
  isAdded platform = true ->
  iconAssets (proto platform) = Some [i1; i2; i3] ->
  splashAssets (proto platform) = Some [s1; s2] ->
  icon (program w) = Some iconSrc -> iconSrc <> "" ->
  splash (program w) = Some splashSrc -> splashSrc <> "" ->
  config (program w) = Some c ->
  stable w ->
  (forall n o, ig_resize env n o = None) ->
  fst (generate env [platform] w) = Fulfilled tt
  /\ resizes (trace (snd (generate env [platform] w)))
     = (resizes (trace w)
        ++ [ resizeCall env c IconT (Some iconSrc) platform i1;
             resizeCall env c IconT (Some iconSrc) platform i2;
             resizeCall env c IconT (Some iconSrc) platform i3;
             resizeCall env c SplashT (Some splashSrc) platform s1;
             resizeCall env c SplashT (Some splashSrc) platform s2 ])%list.
Proof.
  intros Ha Hi Hs Hic Hne1 Hsp Hne2 Hc Hst Hok.
  destruct (@runs_generate env (program w) c Hc Hok [platform] w eq_refl Hst)
    as (A & _ & _ & D).
  split; [exact A|]. rewrite D. f_equal.
  unfold plan, whereIsAdded. simpl. rewrite Ha. simpl.
  unfold planFor. simpl. rewrite Hi, Hs, Hic, Hsp. simpl.
  apply String.eqb_neq in Hne1, Hne2. rewrite Hne1, Hne2. reflexivity.
Qed.

Lemma generate_three_icons_two_splashes_witness :
  fst (generate envComplete [androidResolved] (startWorld exampleProgram))
  = Fulfilled tt
  /\ resizes (trace (snd (generate envComplete [androidResolved]
                            (startWorld exampleProgram))))
     = [ resizeCall envComplete "/proj/config.xml" IconT
           (Some "/proj/icon.png") androidResolved (iconAsset "icon-36.png" 36);
         resizeCall envComplete "/proj/config.xml" IconT
           (Some "/proj/icon.png") androidResolved (iconAsset "icon-48.png" 48);
         resizeCall envComplete "/proj/config.xml" IconT
           (Some "/proj/icon.png") androidResolved (iconAsset "icon-72.png" 72);
         resizeCall envComplete "/proj/config.xml" SplashT
           (Some "/proj/splash.png") androidResolved
           (splashAsset "screen-p.png" 320 480);
         resizeCall envComplete "/proj/config.xml" SplashT
           (Some "/proj/splash.png") androidResolved
           (splashAsset "screen-l.png" 480 320) ].
Proof.
  apply (@generate_three_icons_two_splashes envComplete androidResolved
           (startWorld exampleProgram)
           (iconAsset "icon-36.png" 36) (iconAsset "icon-48.png" 48)
           (iconAsset "icon-72.png" 72)
           (splashAsset "screen-p.png" 320 480)
           (splashAsset "screen-l.png" 480 320)
           "/proj/icon.png" "/proj/splash.png" "/proj/config.xml");
    try reflexivity; try discriminate.
  - constructor.
Defined.

(** C2 (the code differs).  Two descriptors, Android whose root directory
    exists and iOS whose root directory does not: the [fs.stat] of the
    missing root fails with [ENOENT], nothing catches it, and [getPlatforms]
    is rejected instead of resolving two platforms of which one is added.
    The run stops there, with that error as its report. *)
Theorem getPlatforms_missing_root_rejects :
  fst (getPlatforms envOnlyAndroid JUndefined (startWorld exampleProgram))
  = Rejected (FsError "ENOENT" "ENOENT, stat '/proj/platforms/ios'")
  /\ filter isFailure (trace (snd (main envOnlyAndroid (initialWorld exampleProgram))))
     = [EDisplay Failure "ENOENT, stat '/proj/platforms/ios'"]
  /\ resizes (trace (snd (main envOnlyAndroid (initialWorld exampleProgram)))) = [].
Proof. vm_compute. repeat split. Qed.

(** C3 (the code differs).  The configuration file does not exist:
    [configFileExists] is fulfilled with [false] and displays nothing, the
    next stage runs and reads both sources, and the run fails only in
    [getProjectName], with the error of its own read. *)
Theorem configFileExists_missing_config_resolves :
  fst (configFileExists envNoConfig (config exampleProgram) None
                        (startWorld exampleProgram))
  = Fulfilled false
  /\ trace (snd (main envNoConfig (initialWorld exampleProgram)))
     = [ EDisplay Header "Checking Project, Icon, and Splash";
         EStat "/proj/platforms/android";
         EDisplay Success "platforms found: android";
         EReadFile (Some "/proj/config.xml");
         EReadFile (Some "/proj/icon.png");
         EReadFile (Some "/proj/splash.png");
         EDisplay Success "icon asset exists at: /proj/icon.png";
         EDisplay Success "splash asset exists at: /proj/splash.png";
         EReadFile (Some "/proj/config.xml");
         EDisplay Failure "ENOENT, open '/proj/config.xml'";
         ELog "" ].
Proof. vm_compute. split; reflexivity. Qed.

(** C4 (the code differs).  Neither source exists: both are disabled with
    a warning, no error is raised anywhere, the chain reaches [generate]
    and is fulfilled, and the run ends without reporting a failure. *)
Theorem validArtAssets_no_sources_no_error :
  fst (pipeline envNoSources (config exampleProgram) (startWorld exampleProgram))
  = Fulfilled tt
  /\ filter isFailure (trace (snd (main envNoSources (initialWorld exampleProgram))))
     = []
  /\ unhandled (snd (main envNoSources (initialWorld exampleProgram))) = []
  /\ program (snd (main envNoSources (initialWorld exampleProgram)))
     = {| icon := None; splash := None; config := Some "/proj/config.xml" |}.
Proof. vm_compute. repeat split. Qed.

(** C5. Fail-fast generation.  In a run of [generate] that starts with no
    resize behind it, and in a whole run of [main]: if the resize of some
    unit fails, it is the last resize invoked (no later unit, of this or of
    any other platform or type, is resized), the failure is what
    [generate] is rejected with and what [main] reports, and the files
    written are those of the units before it: none is removed. *)
Theorem resize_failure_aborts_run (env : Env) :
  (forall platforms w k o msg,
      pendingOk w ->
      resizes (trace w) = [] ->
      nth_error (resizes (trace (snd (generate env platforms w)))) k = Some o ->
      ig_resize env k o = Some msg ->
      length (resizes (trace (snd (generate env platforms w)))) = Datatypes.S k
      /\ fst (generate env platforms w) = Rejected (ResizeError msg)
      /\ produced (snd (generate env platforms w))
         = (produced w
            ++ map dstPath
                 (firstn k (resizes (trace (snd (generate env platforms w))))))%list)
  /\ (forall pg k o msg,
         nth_error (resizes (trace (snd (main env (initialWorld pg))))) k = Some o ->
         ig_resize env k o = Some msg ->
         length (resizes (trace (snd (main env (initialWorld pg))))) = Datatypes.S k
         /\ In (EDisplay Failure msg) (trace (snd (main env (initialWorld pg))))
         /\ produced (snd (main env (initialWorld pg)))
            = map dstPath
                (firstn k (resizes (trace (snd (main env (initialWorld pg))))))).
Proof.
  split.
  - intros platforms w k o msg Hp H0 Hk Hf.
    apply (@generate_fail_fast env platforms w k o msg Hp H0 Hk Hf).
  - intros pg k o msg Hk Hf.
    apply (@main_fail_fast env pg k o msg Hk Hf).
Qed.

Lemma resize_failure_aborts_run_witness :
  (length (resizes (trace (snd (generate envSecondFails [androidResolved]
                                  (startWorld exampleProgram))))) = 2
   /\ fst (generate envSecondFails [androidResolved] (startWorld exampleProgram))
      = Rejected (ResizeError "convert: failed")
   /\ produced (snd (generate envSecondFails [androidResolved]
                       (startWorld exampleProgram)))
      = (produced (startWorld exampleProgram)
         ++ map dstPath
              (firstn 1 (resizes (trace (snd (generate envSecondFails
                                                [androidResolved]
                                                (startWorld exampleProgram)))))))%list)
  /\ (length (resizes (trace (snd (main envSecondFails
                                     (initialWorld exampleProgram))))) = 2
      /\ In (EDisplay Failure "convert: failed")
            (trace (snd (main envSecondFails (initialWorld exampleProgram))))
      /\ produced (snd (main envSecondFails (initialWorld exampleProgram)))
         = map dstPath
             (firstn 1 (resizes (trace (snd (main envSecondFails
                                               (initialWorld exampleProgram))))))).
Proof.
  split.
  - apply (proj1 (resize_failure_aborts_run envSecondFails)
                 [androidResolved] (startWorld exampleProgram) 1
                 (resizeCall envSecondFails "/proj/config.xml" IconT
                    (Some "/proj/icon.png") androidResolved
                    (iconAsset "icon-48.png" 48))
                 "convert: failed").
    + constructor.
    + reflexivity.
    + vm_compute. reflexivity.
    + reflexivity.
  - apply (proj2 (resize_failure_aborts_run envSecondFails)
                 exampleProgram 1
                 (resizeCall envSecondFails "/proj/config.xml" IconT
                    (Some "/proj/icon.png") androidResolved
                    (iconAsset "icon-48.png" 48))
                 "convert: failed").
    + vm_compute. reflexivity.
    + reflexivity.
Defined.

(** C6 (the code differs).  The icon exists, the splash does not, and the
    read that finds this out calls back late (nothing makes the chain wait
    for it, since [validArtAssets] drops its promise): when [generate]
    reaches the splashes of Android, [program.splash] is still the path, and
    the resize of the first splash is invoked.  The splash source is
    disabled only afterwards. *)
Theorem late_splash_probe_resizes_splash :
  filter isSplashResize
    (trace (snd (main (envNoSplash 40) (initialWorld exampleProgram))))
  = [ EResize {| srcPath := Some "/proj/splash.png";
                 dstPath := "/proj/platforms/android/res/screen-p.png";
                 quality := 1; format := "png";
                 width := Some 320%Z; height := Some 480%Z |} ]
  /\ splash (program (snd (main (envNoSplash 40) (initialWorld exampleProgram))))
     = None
  /\ filter isSplashResize
       (trace (snd (main (envNoSplash 0) (initialWorld exampleProgram))))
     = [].
Proof. vm_compute. repeat split. Qed.

(** C7 (the code differs).  A project to which no platform was added:
    neither root exists, the [fs.stat] of a missing root fails with
    [ENOENT], nothing catches it, and the first stage is rejected with that
    error instead of [NoPlatformsError]: the run reports the [ENOENT] of a
    root and never the "No Cordova platforms found" message.  What the
    claim says of the side effects does hold: no file is read, nothing is
    parsed, resized or written, and [program] is unchanged. *)
Theorem no_platform_added_reports_stat_error :
  (exists root,
      In root ["/proj/platforms/android"; "/proj/platforms/ios"]
      /\ fst (atLeastOnePlatformFound envNoneAdded (startWorld exampleProgram))
         = Rejected (FsError "ENOENT" ("ENOENT, stat '" ++ root ++ "'"))
      /\ filter isFailure
           (trace (snd (main envNoneAdded (initialWorld exampleProgram))))
         = [EDisplay Failure ("ENOENT, stat '" ++ root ++ "'")])
  /\ fst (atLeastOnePlatformFound envNoneAdded (startWorld exampleProgram))
     <> Rejected NoPlatformsError
  /\ ~ In (EDisplay Failure (errorMessage NoPlatformsError))
          (trace (snd (main envNoneAdded (initialWorld exampleProgram))))
  /\ untouched exampleProgram (snd (main envNoneAdded (initialWorld exampleProgram))).
Proof.
  split; [|split; [|split]].
  - exists "/proj/platforms/android". vm_compute. repeat split. left. reflexivity.
  - vm_compute. discriminate.
  - vm_compute. intros H. repeat (destruct H as [H|H]; [discriminate H|]). exact H.
  - vm_compute. repeat split. repeat constructor.
Qed.

(** Where every root answers [fs.stat] and none is a directory (each is a
    file, say), platform resolution is fulfilled with no platform added and
    the chain is rejected with [NoPlatformsError] in its first stage, which
    is what the run reports; in the whole run no file is read, nothing is
    parsed, nothing is resized or written, no probe is left pending and
    [program] is unchanged. *)
Theorem no_platforms_fails_first (env : Env) (pg : Program)
        (platforms : list ResolvedPlatform) :
  fst (getPlatforms env JUndefined (startWorld pg)) = Fulfilled platforms ->
  whereIsAdded platforms = [] ->
  fst (atLeastOnePlatformFound env (startWorld pg)) = Rejected NoPlatformsError
  /\ fst (pipeline env (config pg) (startWorld pg)) = Rejected NoPlatformsError
  /\ untouched pg (snd (main env (initialWorld pg)))
  /\ In (EDisplay Failure (errorMessage NoPlatformsError))
        (trace (snd (main env (initialWorld pg)))).
Proof.
  intros Hg Hz.
  destruct (@no_platforms_run env pg platforms Hg Hz) as (A & _ & B & C).
  repeat split; try apply B; try assumption.
  unfold atLeastOnePlatformFound, then_.
  destruct (getPlatforms env JUndefined (startWorld pg)) as [o w1].
  simpl in Hg. subst o. cbv zeta. rewrite Hz. reflexivity.
Qed.

Lemma no_platforms_fails_first_witness :
  fst (atLeastOnePlatformFound envNoPlatform (startWorld exampleProgram))
  = Rejected NoPlatformsError
  /\ fst (pipeline envNoPlatform (config exampleProgram) (startWorld exampleProgram))
     = Rejected NoPlatformsError
  /\ untouched exampleProgram (snd (main envNoPlatform (initialWorld exampleProgram)))
  /\ In (EDisplay Failure (errorMessage NoPlatformsError))
        (trace (snd (main envNoPlatform (initialWorld exampleProgram)))).
Proof.
  apply (@no_platforms_fails_first envNoPlatform exampleProgram [androidNotAdded]).
  - vm_compute. reflexivity.
  - reflexivity.
Defined.

(** C8 (the code differs).  [String.prototype.replace] reads the dollar
    signs of the replacement text: for the project name [a$$b] the token is
    replaced by [a$b], not by the project name, and for the name [$&] the
    template comes back unchanged. *)
Theorem processPath_dollar_name :
  processPath "$PROJECT_NAME/icons" (JStr "a$$b") = "a$b/icons"
  /\ substituteLiteral projectNameToken "a$$b" "$PROJECT_NAME/icons"
     = "a$$b/icons"
  /\ processPath "$PROJECT_NAME/icons" (JStr "$&") = "$PROJECT_NAME/icons".
Proof. repeat split. Qed.

(** C9. The configuration file is read and parsed, and the document has no
    [widget.name]: [getProjectName] is rejected with the TypeError of the
    property access (the schema error), the chain is not fulfilled, and the
    run resizes nothing and writes nothing. *)
Theorem missing_widget_name_rejects (env : Env) (pg : Program)
        (c data : string) (result : jsval) :
  config pg = Some c ->
  fs_readFile env c = ReadOk data ->
  parseString env data = inl result ->
  lacksWidgetName result = true ->
  (forall w, config (program w) = Some c ->
             fst (getProjectName env w)
             = Rejected (TypeError "Cannot read property of undefined"))
  /\ (forall a, fst (pipeline env (config pg) (startWorld pg)) <> Fulfilled a)
  /\ resizes (trace (snd (main env (initialWorld pg)))) = []
  /\ produced (snd (main env (initialWorld pg))) = [].
Proof.
  intros Hc Hr Hp Hl.
  split; [| split].
  - intros w Hw. exact (@getProjectName_lacking env c data result Hr Hp Hl w Hw).
  - apply (@lacking_pipeline env c data result Hr Hp Hl pg Hc).
  - apply (@lacking_main env c data result Hr Hp Hl pg Hc).
Qed.

Lemma missing_widget_name_rejects_witness :
  (forall w, config (program w) = Some "/proj/config.xml" ->
             fst (getProjectName envNoName w)
             = Rejected (TypeError "Cannot read property of undefined"))
  /\ (forall a, fst (pipeline envNoName (config exampleProgram)
                              (startWorld exampleProgram)) <> Fulfilled a)
  /\ resizes (trace (snd (main envNoName (initialWorld exampleProgram)))) = []
  /\ produced (snd (main envNoName (initialWorld exampleProgram))) = [].
Proof.
  apply (@missing_widget_name_rejects envNoName exampleProgram
           "/proj/config.xml" "<widget/>" (JObj [("widget", JStr "")]));
    reflexivity.
Defined.

(** C10. Every resize invoked in a run has [quality = 1] and
    [format = 'png']; and the one invocation made for an icon or for a
    splash carries, next to these, the source path it was given, the
    destination directory joined with the name of the asset, and the
    dimensions of the asset (its size twice for an icon, its width and
    height for a splash). *)
Theorem resize_options_fixed (env : Env) :
  (forall pg,
      Forall fixedOptions (resizes (trace (snd (main env (initialWorld pg))))))
  /\ (forall icon src dst w c,
         config (program w) = Some c ->
         resizes (trace (snd (generateIcon env icon src dst w)))
         = (resizes (trace w)
            ++ [ {| srcPath := src;
                    dstPath := path_join env
                                 (path_resolve env (path_dirname env c) dst)
                                 (assetName icon);
                    quality := 1;
                    format := "png";
                    width := assetSize icon;
                    height := assetSize icon |} ])%list)
  /\ (forall splash src dst w c,
         config (program w) = Some c ->
         resizes (trace (snd (generateSplash env splash src dst w)))
         = (resizes (trace w)
            ++ [ {| srcPath := src;
                    dstPath := path_join env
                                 (path_resolve env (path_dirname env c) dst)
                                 (assetName splash);
                    quality := 1;
                    format := "png";
                    width := assetWidth splash;
                    height := assetHeight splash |} ])%list).
Proof.
  split; [| split].
  - intros pg. apply FixedOptions_main.
  - intros icon src dst w c Hc. unfold generateIcon.
    apply (@generateArtAsset_call env (assetName icon) src dst
             (assetSize icon, assetSize icon) w c Hc).
  - intros splash src dst w c Hc. unfold generateSplash.
    apply (@generateArtAsset_call env (assetName splash) src dst
             (assetWidth splash, assetHeight splash) w c Hc).
Qed.

Lemma resize_options_fixed_witness :
  Forall fixedOptions
         (resizes (trace (snd (main envComplete (initialWorld exampleProgram)))))
  /\ resizes (trace (snd (generateIcon envComplete (iconAsset "icon-36.png" 36)
                            (Some "/proj/icon.png")
                            "/proj/platforms/android/res"
                            (startWorld exampleProgram))))
     = [ {| srcPath := Some "/proj/icon.png";
            dstPath := "/proj/platforms/android/res/icon-36.png";
            quality := 1;
            format := "png";
            width := Some 36%Z;
            height := Some 36%Z |} ]
  /\ resizes (trace (snd (generateSplash envComplete
                            (splashAsset "screen-p.png" 320 480)
                            (Some "/proj/splash.png")
                            "/proj/platforms/android/res"
                            (startWorld exampleProgram))))
     = [ {| srcPath := Some "/proj/splash.png";
            dstPath := "/proj/platforms/android/res/screen-p.png";
            quality := 1;
            format := "png";
            width := Some 320%Z;
            height := Some 480%Z |} ].
Proof.
  split; [| split].
  - apply (proj1 (resize_options_fixed envComplete) exampleProgram).
  - apply (proj1 (proj2 (resize_options_fixed envComplete))
                 (iconAsset "icon-36.png" 36) (Some "/proj/icon.png")
                 "/proj/platforms/android/res" (startWorld exampleProgram)
                 "/proj/config.xml").
    reflexivity.
  - apply (proj2 (proj2 (resize_options_fixed envComplete))
                 (splashAsset "screen-p.png" 320 480) (Some "/proj/splash.png")
                 "/proj/platforms/android/res" (startWorld exampleProgram)
                 "/proj/config.xml").
    reflexivity.
Defined.

(** * Further properties *)

(** ** Path templating *)

(** X1. A template without the placeholder comes back unchanged, whatever
    the project name is (a string with dollar signs, [undefined], an
    object). *)
Theorem processPath_without_token (path : string) (projectName : jsval) :
  containsToken projectNameToken path = false ->
  processPath path projectName = path.
Proof. apply processPath_absent. Qed.

Lemma processPath_without_token_witness :
  processPath "res/drawable" (JStr "a$$b") = "res/drawable".
Proof. apply processPath_without_token. reflexivity. Defined.

(** X2. For a project name without a dollar sign, [processPath] replaces
    each leftmost non-overlapping occurrence of the placeholder by the
    name, character for character. *)
Theorem processPath_literal (path name : string) :
  hasDollar name = false ->
  processPath path (JStr name) = substituteLiteral projectNameToken name path.
Proof. apply processPath_plain. Qed.

Lemma processPath_literal_witness :
  processPath "$PROJECT_NAME/Resources/$PROJECT_NAME.png" (JStr "Hello")
  = substituteLiteral projectNameToken "Hello"
                      "$PROJECT_NAME/Resources/$PROJECT_NAME.png".
Proof. apply processPath_literal. reflexivity. Defined.

(** ** Platform resolution *)

Lemma resolvePlatform_known env c projectName p r w :
  rootDirectories (platformName p) = Some r ->
  resolvePlatform env (path_dirname env c) (js_or projectName (JStr "")) p w
  = (Fulfilled (statSettled env c projectName p),
     logEvent (EStat (path_join env (path_dirname env c) r)) w).
Proof.
  intros H.
  unfold resolvePlatform, statSettled, rootStatError, resolvedOf,
    rootIsDirectory, rootStat.
  rewrite H. cbv zeta. unfold bind, emit, ret.
  destruct (fs_stat env (path_join env (path_dirname env c) r));
    reflexivity.
Qed.

Lemma mapM_resolve_known env c projectName (l : list Platform) :
  Forall (fun p => rootDirectories (platformName p) <> None) l ->
  forall w,
    fst (mapM (resolvePlatform env (path_dirname env c)
                               (js_or projectName (JStr ""))) l w)
    = Fulfilled (map (statSettled env c projectName) l).
Proof.
  induction 1 as [|p l Hp _ IH]; intros w.
  - reflexivity.
  - rewrite mapM_cons.
    destruct (rootDirectories (platformName p)) as [r|] eqn:Hr; [|congruence].
    rewrite (resolvePlatform_known env c projectName p w Hr).
    specialize (IH (logEvent (EStat (path_join env (path_dirname env c) r)) w)).
    destruct (mapM _ l _) as [o w2]. simpl in IH. subst o. reflexivity.
Qed.

Lemma mapM_resolve_unknown env c projectName (l : list Platform) :
  Exists (fun p => rootDirectories (platformName p) = None) l ->
  forall w,
    fst (mapM (resolvePlatform env (path_dirname env c)
                               (js_or projectName (JStr ""))) l w)
    = Threw (TypeError "Arguments to path.join must be strings").
Proof.
  induction l as [|p l IH]; intros H w.
  - inversion H.
  - rewrite mapM_cons.
    destruct (rootDirectories (platformName p)) as [r|] eqn:Hr.
    + rewrite (resolvePlatform_known env c projectName p w Hr).
      assert (Hl : Exists (fun p => rootDirectories (platformName p) = None) l).
      { inversion H as [? ? Hh|? ? Ht]; subst; [congruence | exact Ht]. }
      specialize (IH Hl (logEvent (EStat (path_join env (path_dirname env c) r)) w)).
      destruct (mapM _ l _) as [o w2]. simpl in IH. subst o. reflexivity.
    + unfold resolvePlatform. rewrite Hr. reflexivity.
Qed.

Lemma getPlatforms_known env projectName w c :
  config (program w) = Some c ->
  Forall (fun p => rootDirectories (platformName p) <> None) (platformInfo env) ->
  fst (getPlatforms env projectName w)
  = match allSettled (map (statSettled env c projectName) (platformInfo env)) with
    | inl e => Rejected e
    | inr ps => Fulfilled ps
    end.
Proof.
  intros Hc Hk. unfold getPlatforms. cbv zeta.
  unfold bind at 1. rewrite (projectRootOf_config env w Hc).
  unfold bind at 1.
  pose proof (@mapM_resolve_known env c projectName _ Hk w) as Hm.
  destruct (mapM _ (platformInfo env) w) as [o w1]. simpl in Hm. subst o.
  unfold Q_all, bind, tick.
  destruct (allSettled _); reflexivity.
Qed.

Lemma allSettled_all env c projectName (l : list Platform) :
  Forall (fun p => rootStat env c p <> None) l ->
  allSettled (map (statSettled env c projectName) l)
  = inr (map (resolvedOf env c projectName) l).
Proof.
  induction 1 as [|p l Hp _ IH]; simpl; [reflexivity|].
  rewrite IH. unfold statSettled, rootStatError. unfold rootStat in Hp.
  destruct (rootDirectories (platformName p)); [|congruence].
  destruct (fs_stat env _); [reflexivity | congruence].
Qed.

Lemma allSettled_some env c projectName (l : list Platform) :
  Exists (fun p => rootStatError env c p <> None) l ->
  exists p e,
    In p l /\ rootStatError env c p = Some e
    /\ allSettled (map (statSettled env c projectName) l) = inl e.
Proof.
  induction l as [|p l IH]; intros H.
  - inversion H.
  - simpl. unfold statSettled at 1.
    destruct (rootStatError env c p) as [e|] eqn:He.
    + exists p, e. repeat split; [left; reflexivity | exact He].
    + assert (Hl : Exists (fun p => rootStatError env c p <> None) l).
      { inversion H as [? ? Hh|? ? Ht]; subst; [congruence | exact Ht]. }
      destruct (IH Hl) as (q & e & Hin & Hq & Ha).
      exists q, e. rewrite Ha. repeat split; [right; exact Hin | exact Hq].
Qed.

Lemma rootStat_known env c p :
  rootStat env c p <> None -> rootDirectories (platformName p) <> None.
Proof.
  unfold rootStat. destruct (rootDirectories (platformName p)); congruence.
Qed.

Lemma filter_map_resolved env c projectName (l : list Platform) :
  whereIsAdded (map (resolvedOf env c projectName) l)
  = map (resolvedOf env c projectName) (filter (rootIsDirectory env c) l).
Proof.
  unfold whereIsAdded. induction l as [|p l IH]; simpl; [reflexivity|].
  destruct (rootIsDirectory env c p); simpl; rewrite IH; reflexivity.
Qed.

(** X3. When the root of every descriptor answers [fs.stat], platform
    resolution is fulfilled with one resolved platform per descriptor, in
    the order of [platforms.json]; a platform is added exactly when its
    root is a directory, and its two output directories are the root
    joined with the templates in which the project name is substituted. *)
Theorem getPlatforms_resolves_all (env : Env) (projectName : jsval)
        (w : World) (c : string) :
  config (program w) = Some c ->
  Forall (fun p => rootStat env c p <> None) (platformInfo env) ->
  fst (getPlatforms env projectName w)
  = Fulfilled (map (resolvedOf env c projectName) (platformInfo env))
  /\ whereIsAdded (map (resolvedOf env c projectName) (platformInfo env))
     = map (resolvedOf env c projectName)
           (filter (rootIsDirectory env c) (platformInfo env)).
Proof.
  intros Hc Hall. split; [| apply filter_map_resolved].
  rewrite (@getPlatforms_known env projectName w c Hc).
  - rewrite (allSettled_all env c projectName Hall). reflexivity.
  - eapply Forall_impl; [|exact Hall]. intros p. apply rootStat_known.
Qed.

Lemma getPlatforms_resolves_all_witness :
  fst (getPlatforms envNoPlatform (JStr "Hello") (startWorld exampleProgram))
  = Fulfilled (map (resolvedOf envNoPlatform "/proj/config.xml" (JStr "Hello"))
                   (platformInfo envNoPlatform))
  /\ whereIsAdded (map (resolvedOf envNoPlatform "/proj/config.xml" (JStr "Hello"))
                       (platformInfo envNoPlatform))
     = map (resolvedOf envNoPlatform "/proj/config.xml" (JStr "Hello"))
           (filter (rootIsDirectory envNoPlatform "/proj/config.xml")
                   (platformInfo envNoPlatform)).
Proof.
  apply getPlatforms_resolves_all.
  - reflexivity.
  - repeat constructor. vm_compute. discriminate.
Defined.

(** X4. When every descriptor has a known name and the [fs.stat] of some
    root fails, for whatever reason (a root that does not exist included),
    platform resolution is rejected with the error of one of the failed
    probes: no platform is returned. *)
Theorem getPlatforms_stat_failure_rejects (env : Env) (projectName : jsval)
        (w : World) (c : string) :
  config (program w) = Some c ->
  Forall (fun p => rootDirectories (platformName p) <> None) (platformInfo env) ->
  Exists (fun p => rootStatError env c p <> None) (platformInfo env) ->
  exists p e,
    In p (platformInfo env)
    /\ rootStatError env c p = Some e
    /\ fst (getPlatforms env projectName w) = Rejected e.
Proof.
  intros Hc Hk Hf.
  destruct (allSettled_some env c projectName Hf) as (p & e & Hin & He & Ha).
  exists p, e. repeat split; try assumption.
  rewrite (@getPlatforms_known env projectName w c Hc Hk), Ha. reflexivity.
Qed.

Lemma getPlatforms_stat_failure_rejects_witness :
  exists p e,
    In p (platformInfo envOnlyAndroid)
    /\ rootStatError envOnlyAndroid "/proj/config.xml" p = Some e
    /\ fst (getPlatforms envOnlyAndroid JUndefined (startWorld exampleProgram))
       = Rejected e.
Proof.
  apply getPlatforms_stat_failure_rejects.
  - reflexivity.
  - repeat constructor; vm_compute; discriminate.
  - apply Exists_cons_tl. apply Exists_cons_hd. vm_compute. discriminate.
Defined.

(** ** The checks *)

Lemma validParamFile_run env type warningType sm wm w :
  validParamFile env type warningType sm wm w
  = validParamFileSettled type warningType
      (strOr sm (keyName type ++ " asset exists at: "
                 ++ showParam (getParam type (program w))))
      (strOr wm (keyName type ++ " asset was not specified"))
      (readFileResult env (getParam type (program w)))
      (yield (logEvent (EReadFile (getParam type (program w))) w)).
Proof. reflexivity. Qed.

(** X6. [configFileExists] on a configuration path [c]: a file that can be
    read fulfils it with [true] and displays the message bound at load
    time; a file that does not exist ([ENOENT]) fulfils it with [false] and
    displays nothing; any other error of the read rejects it with that
    error. *)
Theorem configFileExists_outcomes (env : Env) (config0 warnMessage : option string)
        (w : World) (c : string) :
  config (program w) = Some c ->
  (forall data,
      fs_readFile env c = ReadOk data ->
      configFileExists env config0 warnMessage w
      = (Fulfilled true,
         logEvent (EDisplay Success ("cordova's " ++ showParam config0 ++ " exists"))
                  (yield (logEvent (EReadFile (Some c)) w))))
  /\ (forall m,
         fs_readFile env c = ReadErr "ENOENT" m ->
         configFileExists env config0 warnMessage w
         = (Fulfilled false, yield (logEvent (EReadFile (Some c)) w)))
  /\ (forall code m,
         fs_readFile env c = ReadErr code m ->
         code <> "ENOENT" ->
         configFileExists env config0 warnMessage w
         = (Rejected (FsError code m), yield (logEvent (EReadFile (Some c)) w))).
Proof.
  intros Hc. unfold configFileExists. rewrite validParamFile_run.
  simpl getParam. rewrite Hc. unfold readFileResult.
  split; [| split].
  - intros data Hr. rewrite Hr. reflexivity.
  - intros m Hr. rewrite Hr. reflexivity.
  - intros code m Hr Hn. rewrite Hr. simpl.
    apply String.eqb_neq in Hn. rewrite Hn. reflexivity.
Qed.

Lemma configFileExists_outcomes_witness :
  (forall data,
      fs_readFile envNoConfig "/proj/config.xml" = ReadOk data ->
      configFileExists envNoConfig (Some "/proj/config.xml") None
                       (startWorld exampleProgram)
      = (Fulfilled true,
         logEvent (EDisplay Success
                     ("cordova's " ++ showParam (Some "/proj/config.xml")
                      ++ " exists"))
                  (yield (logEvent (EReadFile (Some "/proj/config.xml"))
                                   (startWorld exampleProgram)))))
  /\ (forall m,
         fs_readFile envNoConfig "/proj/config.xml" = ReadErr "ENOENT" m ->
         configFileExists envNoConfig (Some "/proj/config.xml") None
                          (startWorld exampleProgram)
         = (Fulfilled false,
            yield (logEvent (EReadFile (Some "/proj/config.xml"))
                            (startWorld exampleProgram))))
  /\ (forall code m,
         fs_readFile envNoConfig "/proj/config.xml" = ReadErr code m ->
         code <> "ENOENT" ->
         configFileExists envNoConfig (Some "/proj/config.xml") None
                          (startWorld exampleProgram)
         = (Rejected (FsError code m),
            yield (logEvent (EReadFile (Some "/proj/config.xml"))
                            (startWorld exampleProgram)))).
Proof.
  apply (@configFileExists_outcomes envNoConfig (Some "/proj/config.xml") None
           (startWorld exampleProgram) "/proj/config.xml").
  reflexivity.
Defined.

(** X7. When resolution is fulfilled with at least one added platform,
    [atLeastOnePlatformFound] is fulfilled and its last output is the line
    that lists the names of the added platforms, in order, separated by a
    comma and a space. *)
Theorem atLeastOnePlatformFound_lists_added (env : Env) (w : World)
        (platforms : list ResolvedPlatform) :
  fst (getPlatforms env JUndefined w) = Fulfilled platforms ->
  whereIsAdded platforms <> [] ->
  atLeastOnePlatformFound env w
  = (Fulfilled tt,
     logEvent (EDisplay Success
                 ("platforms found: "
                  ++ join ", " (map (fun p => platformName (proto p))
                                    (whereIsAdded platforms))))
              (yield (snd (getPlatforms env JUndefined w)))).
Proof.
  intros Hg Hne. unfold atLeastOnePlatformFound, then_.
  destruct (getPlatforms env JUndefined w) as [o w1]. simpl in Hg. subst o.
  cbv zeta. destruct (whereIsAdded platforms) as [|p l]; [congruence|].
  reflexivity.
Qed.

Lemma atLeastOnePlatformFound_lists_added_witness :
  atLeastOnePlatformFound envComplete (startWorld exampleProgram)
  = (Fulfilled tt,
     logEvent (EDisplay Success
                 ("platforms found: "
                  ++ join ", " (map (fun p => platformName (proto p))
                                    (whereIsAdded [androidResolved]))))
              (yield (snd (getPlatforms envComplete JUndefined
                                        (startWorld exampleProgram))))).
Proof.
  apply atLeastOnePlatformFound_lists_added.
  - reflexivity.
  - discriminate.
Defined.

(** ** Project name *)

(** X8. [getProjectName] with the configuration at [c]: a read that fails
    rejects it with the error of the read, and the parser is not called
    (the log gains the read and nothing else from this stage); a document
    that does not parse rejects it with the error of the parser; a
    document whose [widget.name[0]] is [v] fulfils it with [v]. *)
Theorem getProjectName_outcomes (env : Env) (w : World) (c : string) :
  config (program w) = Some c ->
  (forall code m,
      fs_readFile env c = ReadErr code m ->
      getProjectName env w
      = (Rejected (FsError code m),
         yield (yield (yield (logEvent (EReadFile (Some c)) w)))))
  /\ (forall data m,
         fs_readFile env c = ReadOk data ->
         parseString env data = inr m ->
         fst (getProjectName env w) = Rejected (ParseError m))
  /\ (forall data result v,
         fs_readFile env c = ReadOk data ->
         parseString env data = inl result ->
         widgetName0 result = Some v ->
         fst (getProjectName env w) = Fulfilled v).
Proof.
  intros Hc.
  unfold getProjectName, bind, readParam, then_, nfcall_readFile,
    ninvoke_parseString, emit, tick, readFileResult, reject, ret, throw.
  simpl. rewrite Hc.
  split; [| split].
  - intros code m Hr. rewrite Hr. reflexivity.
  - intros data m Hr Hp. rewrite Hr. simpl. rewrite Hp. reflexivity.
  - intros data result v Hr Hp Hv. rewrite Hr. simpl. rewrite Hp. simpl.
    rewrite Hv. reflexivity.
Qed.

Lemma getProjectName_outcomes_witness :
  fst (getProjectName envComplete (startWorld exampleProgram))
  = Fulfilled (JStr "Hello").
Proof.
  apply (proj2 (proj2 (@getProjectName_outcomes envComplete
                         (startWorld exampleProgram) "/proj/config.xml"
                         eq_refl))
               "<widget><name>Hello</name></widget>"
               (JObj [("widget", JObj [("name", JArr [JStr "Hello"])])])
               (JStr "Hello"));
    reflexivity.
Defined.

(** ** Generation *)

(** X9. The work list of [generate].  Where no pending probe can change
    [program] and every resize succeeds, [generate] is fulfilled, leaves
    [program] as it is, and invokes exactly the resizes of the plan: for
    each added platform in the order given, its icons in declared order
    and then its splashes in declared order, a type being left out when
    its source is [null] or empty or when the platform has no
    specification of it; platforms that are not added contribute
    nothing. *)
Theorem generate_work_list (env : Env) (platforms : list ResolvedPlatform)
        (w : World) (c : string) :
  config (program w) = Some c ->
  stable w ->
  (forall n o, ig_resize env n o = None) ->
  fst (generate env platforms w) = Fulfilled tt
  /\ program (snd (generate env platforms w)) = program w
  /\ resizes (trace (snd (generate env platforms w)))
     = (resizes (trace w) ++ plan env c (program w) platforms)%list.
Proof.
  intros Hc Hst Hok.
  destruct (@runs_generate env (program w) c Hc Hok platforms w eq_refl Hst)
    as (A & B & _ & D).
  auto.
Qed.

Lemma generate_work_list_witness :
  fst (generate envComplete [androidNotAdded; androidResolved]
                (startWorld exampleProgram)) = Fulfilled tt
  /\ program (snd (generate envComplete [androidNotAdded; androidResolved]
                            (startWorld exampleProgram)))
     = program (startWorld exampleProgram)
  /\ resizes (trace (snd (generate envComplete [androidNotAdded; androidResolved]
                                   (startWorld exampleProgram))))
     = (resizes (trace (startWorld exampleProgram))
        ++ plan envComplete "/proj/config.xml"
                (program (startWorld exampleProgram))
                [androidNotAdded; androidResolved])%list.
Proof.
  apply generate_work_list.
  - reflexivity.
  - constructor.
  - reflexivity.
Defined.

Lemma planFor_icon_disabled env c pg platform :
  icon pg = None -> planFor env c pg IconT platform = [].
Proof.
  intros H. unfold planFor. simpl. rewrite H. simpl.
  destruct (iconAssets (proto platform)); reflexivity.
Qed.

Lemma generate_icon_disabled env platforms w c :
  config (program w) = Some c ->
  icon (program w) = None ->
  stable w ->
  (forall n o, ig_resize env n o = None) ->
  resizes (trace (snd (generate env platforms w)))
  = (resizes (trace w)
     ++ flat_map (planFor env c (program w) SplashT) (whereIsAdded platforms))%list.
Proof.
  intros Hc Hs Hst Hok.
  destruct (@runs_generate env (program w) c Hc Hok platforms w eq_refl Hst)
    as (_ & _ & _ & D).
  rewrite D. f_equal. unfold plan.
  induction (whereIsAdded platforms) as [|p l IH]; simpl; [reflexivity|].
  rewrite planFor_icon_disabled by exact Hs. simpl. rewrite IH. reflexivity.
Qed.

(** X10. A source that is disabled when [generate] starts, with no pending
    probe left to change [program] and a resize that succeeds, is skipped
    for every platform: with [program.splash = null] only the icons of the
    added platforms are resized, with [program.icon = null] only their
    splashes. *)
Theorem generate_skips_disabled_source (env : Env)
        (platforms : list ResolvedPlatform) (w : World) (c : string) :
  config (program w) = Some c ->
  stable w ->
  (forall n o, ig_resize env n o = None) ->
  (splash (program w) = None ->
   resizes (trace (snd (generate env platforms w)))
   = (resizes (trace w)
      ++ flat_map (planFor env c (program w) IconT) (whereIsAdded platforms))%list)
  /\ (icon (program w) = None ->
      resizes (trace (snd (generate env platforms w)))
      = (resizes (trace w)
         ++ flat_map (planFor env c (program w) SplashT)
                     (whereIsAdded platforms))%list).
Proof.
  intros Hc Hst Hok. split; intros Hs.
  - apply generate_splash_disabled; assumption.
  - apply generate_icon_disabled; assumption.
Qed.

(** ** The stages under a specification

    The stages of the chain meet every specification that survives a turn
    of the event loop, the events of the stages, the disabling of a source,
    the start of a source probe and a resize, and that lets a stage fail
    with any error but [NoAssetsError]. *)

Section Stages.

Variable env : Env.
Variable S : Spec.
Hypothesis S_ok_turn : forall w, ok S w -> ok S (yield w).
Hypothesis S_ko_turn : forall e w, ko S e w -> ko S e (yield w).
Hypothesis S_raise : forall e w, e <> NoAssetsError -> ok S w -> ko S e w.
Hypothesis S_emit :
  forall e, stageEvent e -> isResize e = false -> sat S (emit e).
Hypothesis S_detach :
  forall t sm wm, sat S (validParamFileDetached env (keyOf t) true sm wm).
Hypothesis S_resize :
  forall opts, fixedOptions opts -> sat S (ninvoke_resize env opts).

Lemma st_throw {A} e : e <> NoAssetsError -> sat S (@throw A e).
Proof. intros He w H. simpl. apply S_raise; assumption. Qed.

Lemma st_reject {A} e : e <> NoAssetsError -> sat S (@reject A e).
Proof. intros He w H. simpl. apply S_raise; assumption. Qed.

Lemma st_tick : sat S tick.
Proof. intros w H. simpl. apply S_ok_turn, H. Qed.

Lemma st_then {A B} (p : M A) (f : A -> M B) :
  sat S p -> (forall a, sat S (f a)) -> sat S (then_ p f).
Proof.
  intros Hp Hf w H. unfold then_. specialize (Hp w H).
  destruct (p w) as [[a|e|e] w1]; try assumption.
  - specialize (Hf a (yield w1) (S_ok_turn _ Hp)).
    destruct (f a (yield w1)) as [[b|e|e] w2]; assumption.
  - apply S_ko_turn, Hp.
Qed.

Lemma st_thenv {A B} (P : A -> Prop) (p : M A) (f : A -> M B) :
  satv S P p -> (forall a, P a -> sat S (f a)) -> sat S (then_ p f).
Proof.
  intros Hp Hf w H. unfold then_. specialize (Hp w H).
  destruct (p w) as [[a|e|e] w1]; try assumption.
  - destruct Hp as [Hp Ha].
    specialize (Hf a Ha (yield w1) (S_ok_turn _ Hp)).
    destruct (f a (yield w1)) as [[b|e|e] w2]; assumption.
  - apply S_ko_turn, Hp.
Qed.

Lemma st_bindv {A B} (P : A -> Prop) (m : M A) (f : A -> M B) :
  satv S P m -> (forall a, P a -> sat S (f a)) -> sat S (bind m f).
Proof.
  intros Hm Hf w H. unfold bind. specialize (Hm w H).
  destruct (m w) as [[a|e|e] w1]; try assumption.
  destruct Hm as [Hm Ha]. apply Hf; assumption.
Qed.

Lemma st_reduce {A} (f : A -> M unit) (l : list A) :
  (forall a, sat S (f a)) ->
  forall init, sat S init ->
    sat S (fold_left (fun previous a => then_ previous (fun _ => f a)) l init).
Proof.
  intros Hf. induction l as [|a l IH]; intros init Hinit; simpl.
  - exact Hinit.
  - apply IH. apply st_then; [exact Hinit | intros _; apply Hf].
Qed.

Lemma st_mapMv {A B} (P : B -> Prop) (f : A -> M B) (l : list A) :
  (forall a, satv S P (f a)) -> satv S (Forall P) (mapM f l).
Proof.
  intros Hf. induction l as [|a l IH]; intros w H.
  - simpl. split; [exact H | constructor].
  - rewrite mapM_cons. specialize (Hf a w H).
    destruct (f a w) as [[b|e|e] w1]; try assumption.
    destruct Hf as [H1 Hb]. specialize (IH w1 H1).
    destruct (mapM f l w1) as [[bs|e|e] w2]; try assumption.
    destruct IH as [H2 Hbs]. split; [exact H2 | constructor; assumption].
Qed.

Lemma st_display k str : k <> Failure -> sat S (display k str).
Proof.
  intros Hk. apply S_emit; [|reflexivity].
  destruct k; try exact I. congruence.
Qed.

Lemma readFileResult_other location : settlesOther (readFileResult env location).
Proof.
  unfold readFileResult. destruct location as [p|]; simpl; [|discriminate].
  destruct (fs_readFile env p); simpl; [exact I | discriminate].
Qed.

Lemma st_settled_config sm wm (r : error + string) :
  settlesOther r -> sat S (validParamFileSettled KConfig false sm wm r).
Proof.
  intros Hr. unfold validParamFileSettled. destruct r as [e|d]; simpl in Hr.
  - destruct (errorCode e) as [code|]; [|apply st_reject, Hr].
    destruct (code =? "ENOENT"); [apply sat_ret | apply st_reject, Hr].
  - apply sat_bind; [apply st_display; discriminate|]. intros _. apply sat_ret.
Qed.

Lemma st_configFileExists config0 wm : sat S (configFileExists env config0 wm).
Proof.
  intros w H. unfold configFileExists. rewrite validParamFile_run.
  apply st_settled_config; [apply readFileResult_other|].
  apply S_ok_turn.
  apply (S_emit (EReadFile (getParam KConfig (program w))) I eq_refl w H).
Qed.

Lemma st_validArtAssets : sat S (validArtAssets env).
Proof.
  unfold validArtAssets, validIconExistsDetached, validSplashExistsDetached.
  apply sat_bind; [apply (S_detach IconT)|]. intros _.
  apply sat_bind; [apply (S_detach SplashT)|]. intros _. apply sat_ret.
Qed.

Lemma st_projectRootOf : sat S (projectRootOf env).
Proof.
  unfold projectRootOf. apply sat_bind; [apply sat_readParam|].
  intros [c|]; [apply sat_ret | apply st_throw; discriminate].
Qed.

Lemma st_resolvePlatform projectRoot projectName platform :
  satv S settlesOther (resolvePlatform env projectRoot projectName platform).
Proof.
  intros w H. unfold resolvePlatform.
  destruct (rootDirectories (platformName platform)) as [r|].
  - cbv zeta. unfold bind, emit, ret. split.
    + apply (S_emit (EStat (path_join env projectRoot r)) I eq_refl w H).
    + destruct (fs_stat env (path_join env projectRoot r)); simpl;
        [exact I | discriminate].
  - simpl. apply S_raise; [discriminate | exact H].
Qed.

Lemma allSettled_other {A} (l : list (error + A)) e :
  Forall settlesOther l -> allSettled l = inl e -> e <> NoAssetsError.
Proof.
  induction 1 as [|r l Hr _ IH]; simpl; [discriminate|].
  destruct r as [e'|a]; simpl in Hr.
  - intros E. injection E as <-. exact Hr.
  - destruct (allSettled l) as [e'|l']; [|discriminate].
    intros E. injection E as <-. apply IH. reflexivity.
Qed.

Lemma st_Q_all {A} (l : list (error + A)) :
  Forall settlesOther l -> sat S (Q_all l).
Proof.
  intros Hl. unfold Q_all. apply sat_bind; [apply st_tick|]. intros _.
  destruct (allSettled l) as [e|l'] eqn:E; [|apply sat_ret].
  apply st_reject. eapply allSettled_other; eassumption.
Qed.

Lemma st_getPlatforms projectName : sat S (getPlatforms env projectName).
Proof.
  unfold getPlatforms. cbv zeta.
  apply sat_bind; [apply st_projectRootOf|]. intros projectRoot.
  apply (st_bindv (P := Forall settlesOther)).
  - apply st_mapMv. intros p. apply st_resolvePlatform.
  - intros l Hl. apply st_Q_all, Hl.
Qed.

Lemma st_atLeastOnePlatformFound : sat S (atLeastOnePlatformFound env).
Proof.
  unfold atLeastOnePlatformFound.
  apply st_then; [apply st_getPlatforms|]. intros platforms. cbv zeta.
  destruct (Nat.eqb _ 0);
    [apply st_throw | apply st_display]; discriminate.
Qed.

Lemma st_nfcall_readFile location : sat S (nfcall_readFile env location).
Proof.
  unfold nfcall_readFile.
  apply sat_bind; [apply S_emit; [exact I | reflexivity]|]. intros _.
  apply sat_bind; [apply st_tick|]. intros _.
  pose proof (readFileResult_other location) as Ho.
  destruct (readFileResult env location); [apply st_reject, Ho | apply sat_ret].
Qed.

Lemma st_ninvoke_parseString data : sat S (ninvoke_parseString env data).
Proof.
  unfold ninvoke_parseString.
  apply sat_bind; [apply S_emit; [exact I | reflexivity]|]. intros _.
  apply sat_bind; [apply st_tick|]. intros _.
  destruct (parseString env data);
    [apply sat_ret | apply st_reject; discriminate].
Qed.

Lemma st_getProjectName : sat S (getProjectName env).
Proof.
  unfold getProjectName.
  apply sat_bind; [apply sat_readParam|]. intros location.
  apply st_then; [apply st_then|].
  - apply st_nfcall_readFile.
  - intros data. apply st_ninvoke_parseString.
  - intros result. destruct (widgetName0 result);
      [apply sat_ret | apply st_throw; discriminate].
Qed.

Lemma st_generateArtAsset name src dst opts :
  sat S (generateArtAsset env name src dst opts).
Proof.
  unfold generateArtAsset.
  apply sat_bind; [apply st_projectRootOf|]. intros projectRoot. cbv zeta.
  apply st_then.
  - apply S_resize. split; reflexivity.
  - intros _. apply st_display. discriminate.
Qed.

Lemma st_generateArtAssets platform type
      (processor : Asset -> option string -> string -> M unit) :
  (forall a s d, sat S (processor a s d)) ->
  sat S (generateArtAssets platform type processor).
Proof.
  intros Hp. unfold generateArtAssets.
  apply sat_bind; [apply st_display; discriminate|]. intros _.
  destruct (typeAssets type platform) as [assets|].
  - apply (st_reduce
             (fun asset => src <- readParam (keyOf type) ;;
                           processor asset src (typePath type platform))).
    + intros a. apply sat_bind; [apply sat_readParam|]. intros src. apply Hp.
    + apply sat_ret.
  - apply st_throw. discriminate.
Qed.

Lemma st_processPlatformFor type platform (processor : ResolvedPlatform -> M unit) :
  sat S (processor platform) ->
  sat S (processPlatformFor type platform processor).
Proof.
  intros Hp. unfold processPlatformFor. cbv zeta.
  apply sat_bind; [apply sat_readParam|]. intros src.
  destruct (truthyParam src && _); [exact Hp | apply sat_ret].
Qed.

Lemma st_generate platforms : sat S (generate env platforms).
Proof.
  unfold generate.
  apply (st_reduce
           (fun platform =>
              then_ (then_ (ret tt)
                           (fun _ => processPlatformFor IconT platform
                                       (generateIcons env)))
                    (fun _ => processPlatformFor SplashT platform
                                (generateSplashes env)))).
  - intros platform.
    apply st_then; [apply st_then |].
    + apply sat_ret.
    + intros _. apply st_processPlatformFor, st_generateArtAssets.
      intros a s d. apply st_generateArtAsset.
    + intros _. apply st_processPlatformFor, st_generateArtAssets.
      intros a s d. apply st_generateArtAsset.
  - apply sat_ret.
Qed.

Lemma st_pipeline config0 : sat S (pipeline env config0).
Proof.
  unfold pipeline.
  repeat first [ apply st_atLeastOnePlatformFound
               | apply st_configFileExists
               | apply st_validArtAssets
               | apply st_getProjectName
               | apply st_getPlatforms
               | apply st_generate
               | apply st_then; [| intros ? ] ].
Qed.

End Stages.

(** ** What the source probes can and cannot do *)

Lemma lookupSettled_in k w o :
  lookupSettled k w = Some o -> exists k', In (k', o) (settled w).
Proof.
  unfold lookupSettled.
  destruct (find _ (settled w)) as [[k' o']|] eqn:F; [|discriminate].
  intros E. injection E as <-. apply find_some in F. destruct F as [F _].
  exists k'. exact F.
Qed.

Lemma spread_lenient w :
  Forall (fun kv => snd kv = Fulfilled true) (settled w) ->
  validArtAssetsSpread w = w.
Proof.
  intros H. unfold validArtAssetsSpread.
  assert (L : forall k o, lookupSettled k w = Some o -> o = Fulfilled true).
  { intros k o E. destruct (lookupSettled_in _ _ E) as [k' Hin].
    rewrite Forall_forall in H. apply (H _ Hin). }
  destruct (lookupSettled KIcon w) as [oi|] eqn:Ei; [|reflexivity].
  rewrite (L _ _ Ei).
  destruct (lookupSettled KSplash w) as [os|] eqn:Es; [|reflexivity].
  rewrite (L _ _ Es). reflexivity.
Qed.

Lemma deliver_lenient p w :
  probeWarningType p = true -> lenient w -> lenient (deliver p w).
Proof.
  intros Hp (H1 & H2 & H3). unfold deliver.
  set (r := validParamFileSettled (probeType p) (probeWarningType p)
              (probeSuccessMessage p) (probeWarnMessage p) (probeResult p) w).
  assert (Hr : fst r = Fulfilled true
               /\ unhandled (snd r) = unhandled w
               /\ settled (snd r) = settled w
               /\ pending (snd r) = pending w).
  { unfold r, validParamFileSettled. rewrite Hp.
    destruct (probeResult p); repeat split. }
  destruct Hr as (R1 & R2 & R3 & R4). rewrite R1.
  rewrite spread_lenient.
  - repeat split; simpl.
    + rewrite R2. exact H1.
    + rewrite R3. apply Forall_app. split; [exact H2|].
      constructor; [reflexivity | constructor].
    + rewrite R4. exact H3.
  - simpl. rewrite R3. apply Forall_app. split; [exact H2|].
    constructor; [reflexivity | constructor].
Qed.

Lemma yield_fold_lenient (ps : list Probe) :
  Forall (fun p => probeWarningType p = true) ps ->
  forall acc, lenient acc -> lenient (fold_left yieldStep ps acc).
Proof.
  induction 1 as [|p ps Hp _ IH]; intros acc Hacc; simpl.
  - exact Hacc.
  - apply IH. unfold yieldStep. destruct (probeWait p) as [|n].
    + apply deliver_lenient; assumption.
    + destruct Hacc as (H1 & H2 & H3). repeat split; try assumption.
      simpl. apply Forall_app. split; [exact H3|].
      constructor; [exact Hp | constructor].
Qed.

Lemma yield_lenient w : lenient w -> lenient (yield w).
Proof.
  intros H. unfold yield. apply yield_fold_lenient.
  - apply H.
  - destruct H as (H1 & H2 & _). repeat split; try assumption. constructor.
Qed.

Lemma logEvent_lenient e w : lenient w -> lenient (logEvent e w).
Proof. intros H. exact H. Qed.

Lemma Lenient_pipeline env config0 : sat Lenient (pipeline env config0).
Proof.
  apply st_pipeline.
  - apply yield_lenient.
  - intros e w [H1 H2]. split; [exact H1 | apply yield_lenient, H2].
  - intros e w He H. split; assumption.
  - intros e _ _ w H. exact H.
  - intros t sm wm w (H1 & H2 & H3).
    unfold validParamFileDetached, validParamFileCall, bind, readParam, emit, ret.
    simpl. repeat split; try assumption.
    simpl. apply Forall_app. split; [exact H3|].
    constructor; [reflexivity | constructor].
  - intros opts _ w H. unfold ninvoke_resize. cbv zeta.
    pose proof (yield_lenient (logEvent_lenient (EResize opts) H)) as Hy.
    destruct (ig_resize env _ opts).
    + split; [discriminate | exact Hy].
    + exact Hy.
Qed.

Lemma iter_yield_lenient n w : lenient w -> lenient (Nat.iter n yield w).
Proof.
  intros H. induction n as [|n IH]; simpl; [exact H | apply yield_lenient, IH].
Qed.

(** X11. The error of [validArtAssets] is never raised.  In every run,
    whatever the disk holds and whenever the source probes call back: the
    chain is not rejected with [NoAssetsError], no dropped promise is
    rejected with it, and every settled source probe was fulfilled with
    [true]. *)
Theorem no_assets_error_never_raised (env : Env) (pg : Program) :
  fst (pipeline env (config pg) (startWorld pg)) <> Rejected NoAssetsError
  /\ fst (pipeline env (config pg) (startWorld pg)) <> Threw NoAssetsError
  /\ ~ In NoAssetsError (unhandled (snd (main env (initialWorld pg))))
  /\ Forall (fun kv => snd kv = Fulfilled true)
            (settled (snd (main env (initialWorld pg)))).
Proof.
  assert (H0 : lenient (startWorld pg)).
  { repeat split; [intros [] | constructor | constructor]. }
  pose proof (@Lenient_pipeline env (config pg) (startWorld pg) H0) as Hs.
  rewrite main_run.
  destruct (pipeline env (config pg) (startWorld pg)) as [[a|e|e] w2];
    simpl in *.
  - assert (L : lenient (drain (logEvent (ELog "") (yield (yield w2))))).
    { apply iter_yield_lenient, logEvent_lenient, yield_lenient, yield_lenient, Hs. }
    repeat split; try discriminate; apply L.
  - destruct Hs as [He Hs].
    assert (L : lenient (drain (logEvent (ELog "")
                (yield (logEvent (EDisplay Failure (errorMessage e)) (yield w2)))))).
    { apply iter_yield_lenient, logEvent_lenient, yield_lenient,
        logEvent_lenient, yield_lenient, Hs. }
    repeat split; try discriminate; try apply L. congruence.
  - destruct Hs as [He Hs].
    repeat split; try discriminate; try apply Hs. congruence.
Qed.

(** ** Reporting *)

Lemma yield_filter (f : Event -> bool) w :
  (forall text, f (EDisplay Success text) = false) ->
  (forall text, f (EDisplay Warn text) = false) ->
  filter f (trace (yield w)) = filter f (trace w).
Proof.
  intros Hs Hw. unfold yield.
  change (trace w) with (trace (setPending [] w)).
  generalize (setPending [] w) as acc.
  induction (pending w) as [|p ps IH]; intros acc; simpl.
  - reflexivity.
  - rewrite IH. unfold yieldStep. destruct (probeWait p); [|reflexivity].
    unfold deliver. rewrite spread_trace. unfold validParamFileSettled. simpl.
    destruct (probeResult p) as [e|d]; simpl.
    + destruct (probeWarningType p); simpl.
      * rewrite filter_app. simpl. rewrite Hw. apply app_nil_r.
      * destruct (errorCode e) as [c|]; simpl; [|reflexivity].
        destruct (c =? "ENOENT"); reflexivity.
    + rewrite filter_app. simpl. rewrite Hs. apply app_nil_r.
Qed.

Lemma yield_failures w :
  filter isFailure (trace (yield w)) = filter isFailure (trace w).
Proof. apply yield_filter; reflexivity. Qed.

Lemma iter_yield_failures n w :
  filter isFailure (trace (Nat.iter n yield w)) = filter isFailure (trace w).
Proof.
  induction n as [|n IH]; simpl; [reflexivity|].
  rewrite yield_failures. exact IH.
Qed.

Lemma stageEvent_quiet e : stageEvent e -> isFailure e = false.
Proof. destruct e as [| | | |[] ?|]; simpl; intros H; try reflexivity; destruct H. Qed.

Lemma Unreported_pipeline env config0 : sat Unreported (pipeline env config0).
Proof.
  apply st_pipeline; simpl.
  - intros w H. rewrite yield_failures. exact H.
  - intros _ w H. rewrite yield_failures. exact H.
  - intros _ w _ H. exact H.
  - intros e He _ w H. simpl. rewrite filter_app, H. simpl.
    rewrite (stageEvent_quiet e He). reflexivity.
  - intros t sm wm w H.
    unfold validParamFileDetached, validParamFileCall, bind, readParam, emit, ret.
    simpl. rewrite filter_app, H. reflexivity.
  - intros opts _ w H. unfold ninvoke_resize. cbv zeta.
    assert (Hy : filter isFailure
                   (trace (yield (logEvent (EResize opts) w))) = []).
    { rewrite yield_failures. simpl. rewrite filter_app, H. reflexivity. }
    destruct (ig_resize env _ opts); exact Hy.
Qed.

Lemma main_failures (env : Env) (pg : Program) :
  filter isFailure (trace (snd (main env (initialWorld pg))))
  = match fst (pipeline env (config pg) (startWorld pg)) with
    | Rejected e => [EDisplay Failure (errorMessage e)]
    | _ => []
    end.
Proof.
  assert (H0 : ok Unreported (startWorld pg)) by reflexivity.
  pose proof (@Unreported_pipeline env (config pg) (startWorld pg) H0) as Hs.
  rewrite main_run.
  destruct (pipeline env (config pg) (startWorld pg)) as [[a|e|e] w2];
    simpl in *.
  - unfold drain. rewrite iter_yield_failures. simpl.
    rewrite filter_app, !yield_failures, Hs. reflexivity.
  - unfold drain. rewrite iter_yield_failures. simpl.
    rewrite filter_app, yield_failures. simpl.
    rewrite filter_app, yield_failures, Hs. reflexivity.
  - exact Hs.
Qed.

(** X12. A run reports a failure exactly when the chain is rejected, and
    then once, with the message of the error that rejected it; a chain
    that is fulfilled, or a script that dies on a synchronous throw,
    reports none. *)
Theorem main_reports_the_rejection_once (env : Env) (pg : Program) :
  filter isFailure (trace (snd (main env (initialWorld pg))))
  = match fst (pipeline env (config pg) (startWorld pg)) with
    | Rejected e => [EDisplay Failure (errorMessage e)]
    | _ => []
    end.
Proof. apply main_failures. Qed.

Lemma generate_skips_disabled_source_witness :
  resizes (trace (snd (generate envComplete [androidResolved]
                         (startWorld iconOnlyProgram))))
  = (resizes (trace (startWorld iconOnlyProgram))
     ++ flat_map (planFor envComplete "/proj/config.xml"
                          (program (startWorld iconOnlyProgram)) IconT)
                 (whereIsAdded [androidResolved]))%list.
Proof.
  apply (proj1 (@generate_skips_disabled_source envComplete [androidResolved]
                  (startWorld iconOnlyProgram) "/proj/config.xml"
                  eq_refl (Forall_nil _) (fun _ _ => eq_refl))).
  reflexivity.
Defined.

(** ** What a run does to [program] *)

Lemma deliver_program p w :
  program (deliver p w) = program w
  \/ program (deliver p w) = setParam (probeType p) None (program w).
Proof.
  unfold deliver.
  match goal with
  | |- context [validArtAssetsSpread ?x] =>
      destruct (spread_fields x) as (-> & _)
  end.
  unfold validParamFileSettled. simpl.
  destruct (probeResult p) as [e|d]; simpl; [|left; reflexivity].
  destruct (probeWarningType p); simpl; [right; reflexivity|].
  destruct (errorCode e) as [c|]; simpl; [|left; reflexivity].
  destruct (c =? "ENOENT"); left; reflexivity.
Qed.

Lemma deliver_narrowed pg p w :
  probeType p <> KConfig -> narrowed pg w -> narrowed pg (deliver p w).
Proof.
  intros Hk (H1 & H2 & H3 & H4). unfold narrowed, pendingOk.
  rewrite deliver_pending.
  destruct (deliver_program p w) as [-> | ->]; [auto|].
  destruct (probeType p); simpl; [auto | auto | congruence].
Qed.

Lemma yield_fold_narrowed pg (ps : list Probe) :
  Forall (fun p => probeType p <> KConfig) ps ->
  forall acc, narrowed pg acc -> narrowed pg (fold_left yieldStep ps acc).
Proof.
  induction 1 as [|p ps Hp _ IH]; intros acc Hacc; simpl.
  - exact Hacc.
  - apply IH. unfold yieldStep. destruct (probeWait p) as [|n].
    + apply deliver_narrowed; assumption.
    + destruct Hacc as (H1 & H2 & H3 & H4). repeat split; try assumption.
      unfold pendingOk. simpl. apply Forall_app. split; [exact H1|].
      constructor; [exact Hp | constructor].
Qed.

Lemma yield_narrowed pg w : narrowed pg w -> narrowed pg (yield w).
Proof.
  intros H. unfold yield. apply yield_fold_narrowed.
  - apply H.
  - destruct H as (_ & H2 & H3 & H4). repeat split; try assumption. constructor.
Qed.

Lemma iter_yield_narrowed pg n w :
  narrowed pg w -> narrowed pg (Nat.iter n yield w).
Proof.
  intros H. induction n as [|n IH]; simpl; [exact H | apply yield_narrowed, IH].
Qed.

Lemma Narrowed_pipeline env pg config0 : sat (Narrowed pg) (pipeline env config0).
Proof.
  apply st_pipeline; simpl.
  - apply yield_narrowed.
  - intros _. apply yield_narrowed.
  - intros _ w _ H. exact H.
  - intros e _ _ w H. exact H.
  - intros t sm wm w (H1 & H2 & H3 & H4).
    unfold validParamFileDetached, validParamFileCall, bind, readParam, emit, ret.
    simpl. repeat split; try assumption.
    unfold pendingOk. simpl. apply Forall_app. split; [exact H1|].
    constructor; [destruct t; discriminate | constructor].
  - intros opts _ w H. unfold ninvoke_resize. cbv zeta.
    assert (Hy : narrowed pg (yield (logEvent (EResize opts) w)))
      by (apply yield_narrowed; exact H).
    destruct (ig_resize env _ opts); exact Hy.
Qed.

(** X13. A run never changes [program.config], and the only change it
    ever makes to [program.icon] and [program.splash] is to disable them:
    at the end each source is the one given on the command line or
    [null]. *)
Theorem main_only_disables_sources (env : Env) (pg : Program) :
  config (program (snd (main env (initialWorld pg)))) = config pg
  /\ (icon (program (snd (main env (initialWorld pg)))) = icon pg
      \/ icon (program (snd (main env (initialWorld pg)))) = None)
  /\ (splash (program (snd (main env (initialWorld pg)))) = splash pg
      \/ splash (program (snd (main env (initialWorld pg)))) = None).
Proof.
  assert (H0 : narrowed pg (startWorld pg)).
  { repeat split; auto. constructor. }
  pose proof (@Narrowed_pipeline env pg (config pg) (startWorld pg) H0) as Hs.
  rewrite main_run.
  destruct (pipeline env (config pg) (startWorld pg)) as [[a|e|e] w2];
    simpl in *.
  - assert (L : narrowed pg (drain (logEvent (ELog "") (yield (yield w2))))).
    { apply iter_yield_narrowed.
      apply (yield_narrowed (yield_narrowed Hs)). }
    apply L.
  - assert (L : narrowed pg (drain (logEvent (ELog "")
                (yield (logEvent (EDisplay Failure (errorMessage e)) (yield w2)))))).
    { apply iter_yield_narrowed.
      apply (@yield_narrowed pg (logEvent (EDisplay Failure (errorMessage e))
                                          (yield w2))).
      apply (yield_narrowed Hs). }
    apply L.
  - apply Hs.
Qed.

(** ** The driver *)

Lemma iter_yield_incl n w : incl (trace w) (trace (Nat.iter n yield w)).
Proof.
  induction n as [|n IH]; simpl; [apply incl_refl|].
  eapply incl_tran; [exact IH | apply yield_trace_incl].
Qed.

Lemma pipeline_never_throws env pg c :
  config pg = Some c ->
  Forall (fun p => rootDirectories (platformName p) <> None) (platformInfo env) ->
  forall e, fst (pipeline env (config pg) (startWorld pg)) <> Threw e.
Proof.
  intros Hc Hk e H.
  destruct (pipeline env (config pg) (startWorld pg)) as [o w2] eqn:Hrun.
  simpl in H. subst o. apply pipeline_threw in Hrun.
  unfold atLeastOnePlatformFound in Hrun. apply then_threw in Hrun.
  pose proof (@getPlatforms_known env JUndefined (startWorld pg) c Hc Hk) as G.
  rewrite Hrun in G. simpl in G.
  destruct (allSettled _); discriminate.
Qed.

(** X14. With a configuration path and descriptors whose names are all
    known, the driver catches whatever goes wrong: the script ends
    normally and prints its closing empty line, at most after having
    reported the one failure. *)
Theorem main_ends_normally (env : Env) (pg : Program) (c : string) :
  config pg = Some c ->
  Forall (fun p => rootDirectories (platformName p) <> None) (platformInfo env) ->
  fst (main env (initialWorld pg)) = Fulfilled tt
  /\ In (ELog "") (trace (snd (main env (initialWorld pg)))).
Proof.
  intros Hc Hk. pose proof (@pipeline_never_throws env pg c Hc Hk) as Hn.
  rewrite main_run.
  destruct (pipeline env (config pg) (startWorld pg)) as [[a|e|e] w2];
    simpl in *.
  - split; [reflexivity|]. apply iter_yield_incl. simpl.
    apply in_or_app. right. left. reflexivity.
  - split; [reflexivity|]. apply iter_yield_incl. simpl.
    apply in_or_app. right. left. reflexivity.
  - exfalso. apply (Hn e). reflexivity.
Qed.

Lemma main_ends_normally_witness :
  fst (main envSecondFails (initialWorld exampleProgram)) = Fulfilled tt
  /\ In (ELog "") (trace (snd (main envSecondFails (initialWorld exampleProgram)))).
Proof.
  apply (@main_ends_normally envSecondFails exampleProgram "/proj/config.xml").
  - reflexivity.
  - repeat constructor; vm_compute; discriminate.
Defined.

Lemma pipeline_passes_throw env config0 w e w1 :
  getPlatforms env JUndefined w = (Threw e, w1) ->
  pipeline env config0 w = (Threw e, w1).
Proof.
  intros H. unfold pipeline, atLeastOnePlatformFound, then_. rewrite H.
  reflexivity.
Qed.

Lemma yield_no_log w :
  ~ In (ELog "") (trace w) -> ~ In (ELog "") (trace (yield w)).
Proof.
  intros H Hin. apply H.
  assert (E : filter (fun e => match e with ELog _ => true | _ => false end)
                     (trace (yield w))
              = filter (fun e => match e with ELog _ => true | _ => false end)
                       (trace w))
    by (apply yield_filter; reflexivity).
  assert (Hf : In (ELog "")
                  (filter (fun e => match e with ELog _ => true | _ => false end)
                          (trace (yield w))))
    by (apply filter_In; split; [exact Hin | reflexivity]).
  rewrite E in Hf. apply filter_In in Hf. apply Hf.
Qed.

Lemma getPlatforms_no_log env projectName w :
  ~ In (ELog "") (trace w) ->
  ~ In (ELog "") (trace (snd (getPlatforms env projectName w))).
Proof.
  intros H.
  assert (S : sat {| ok := fun w => ~ In (ELog "") (trace w);
                     ko := fun _ w => ~ In (ELog "") (trace w) |}
                  (getPlatforms env projectName)).
  { apply st_getPlatforms; simpl.
    - apply yield_no_log.
    - intros _ w' _ H'. exact H'.
    - intros e He _ w' H'. simpl. intros Hin. apply in_app_or in Hin.
      destruct Hin as [Hin|[Hin|[]]]; [exact (H' Hin)|].
      subst e. exact He. }
  specialize (S w H).
  destruct (getPlatforms env projectName w) as [[a|e|e] w1]; exact S.
Qed.

(** X5. A descriptor whose name is not a key of [rootDirectories] makes
    [getPlatforms] throw the TypeError of [path.join] before it returns a
    promise, whatever the disk holds; thrown in the first statement of the
    script, it is caught by nobody: the run dies without reporting a
    failure, without its closing line, and with no file read, nothing
    resized and [program] untouched. *)
Theorem unknown_platform_name_throws (env : Env) (pg : Program) (c : string) :
  config pg = Some c ->
  Exists (fun p => rootDirectories (platformName p) = None) (platformInfo env) ->
  (forall projectName w,
      config (program w) = Some c ->
      fst (getPlatforms env projectName w)
      = Threw (TypeError "Arguments to path.join must be strings"))
  /\ fst (main env (initialWorld pg))
     = Threw (TypeError "Arguments to path.join must be strings")
  /\ filter isFailure (trace (snd (main env (initialWorld pg)))) = []
  /\ ~ In (ELog "") (trace (snd (main env (initialWorld pg))))
  /\ untouched pg (snd (main env (initialWorld pg))).
Proof.
  intros Hc Hu.
  assert (G : forall projectName w,
             config (program w) = Some c ->
             fst (getPlatforms env projectName w)
             = Threw (TypeError "Arguments to path.join must be strings")).
  { intros projectName w Hw. unfold getPlatforms. cbv zeta.
    unfold bind at 1. rewrite (projectRootOf_config env w Hw).
    unfold bind at 1.
    pose proof (@mapM_resolve_unknown env c projectName _ Hu w) as Hm.
    destruct (mapM _ (platformInfo env) w) as [o w1]. simpl in Hm. subst o.
    reflexivity. }
  split; [exact G|].
  pose proof (G JUndefined (startWorld pg) Hc) as G0.
  pose proof (@Untouched_getPlatforms env pg JUndefined (startWorld pg)
                (startWorld_untouched pg)) as U.
  assert (L0 : ~ In (ELog "") (trace (startWorld pg))).
  { simpl. intros [H|[]]. discriminate. }
  pose proof (@getPlatforms_no_log env JUndefined (startWorld pg) L0) as L.
  pose proof (main_failures env pg) as F.
  rewrite main_run in *.
  destruct (getPlatforms env JUndefined (startWorld pg)) as [o w1] eqn:Hg.
  simpl in G0. subst o.
  rewrite (@pipeline_passes_throw env (config pg) _ _ _ Hg) in *.
  simpl in *. repeat split; try apply U; assumption.
Qed.

Lemma unknown_platform_name_throws_witness :
  (forall projectName w,
      config (program w) = Some "/proj/config.xml" ->
      fst (getPlatforms envUnknownPlatform projectName w)
      = Threw (TypeError "Arguments to path.join must be strings"))
  /\ fst (main envUnknownPlatform (initialWorld exampleProgram))
     = Threw (TypeError "Arguments to path.join must be strings")
  /\ filter isFailure
       (trace (snd (main envUnknownPlatform (initialWorld exampleProgram)))) = []
  /\ ~ In (ELog "")
          (trace (snd (main envUnknownPlatform (initialWorld exampleProgram))))
  /\ untouched exampleProgram
               (snd (main envUnknownPlatform (initialWorld exampleProgram))).
Proof.
  apply (@unknown_platform_name_throws envUnknownPlatform exampleProgram
           "/proj/config.xml").
  - reflexivity.
  - apply Exists_cons_tl. apply Exists_cons_hd. reflexivity.
Defined.

(** ** A whole run *)

Section Chain.

Variable env : Env.
Variable Q : World -> Prop.
Hypothesis Q_turn : forall w, Q w -> Q (yield w) /\ program (yield w) = program w.
Hypothesis Q_frame : forall w w', pending w' = pending w -> Q w -> Q w'.
Hypothesis Q_stable : forall w, Q w -> stable w.

Lemma stage_of_keeps pg {A} (m : M A) (a : A) :
  keeps Q pg m a -> stage Q pg pg m a.
Proof.
  intros H w Hw Hq. destruct (H w Hw Hq) as (A1 & A2 & A3 & A4).
  destruct (Q_turn A3) as [B1 B2].
  split; [exact A1|]. split; [rewrite B2; exact A2|]. split; [exact B1|].
  rewrite yield_resizes. exact A4.
Qed.

Lemma stage_then pg pg1 pg2 {A B} (p : M A) (f : A -> M B) (a : A) (b : B) :
  stage Q pg pg1 p a -> stage Q pg1 pg2 (f a) b ->
  stage Q pg pg2 (then_ p f) b.
Proof.
  intros Hp Hf w Hw Hq. unfold then_.
  destruct (Hp w Hw Hq) as (A1 & A2 & A3 & A4).
  destruct (p w) as [o w1]. cbn [fst snd] in *. subst o.
  destruct (Hf (yield w1) A2 A3) as (B1 & B2 & B3 & B4).
  destruct (f a (yield w1)) as [o w2]. cbn [fst snd] in *. subst o.
  cbn [fst snd].
  split; [reflexivity|]. split; [exact B2|]. split; [exact B3|].
  rewrite B4. exact A4.
Qed.

Lemma stage_then_runs pg pg' {A} (p : M A) (f : A -> M unit) (a : A) extra :
  stage Q pg pg' p a -> runs pg' (f a) extra ->
  forall w,
    program w = pg -> Q w ->
    fst (then_ p f w) = Fulfilled tt
    /\ program (snd (then_ p f w)) = pg'
    /\ stable (snd (then_ p f w))
    /\ resizes (trace (snd (then_ p f w))) = (resizes (trace w) ++ extra)%list.
Proof.
  intros Hp Hf w Hw Hq. unfold then_.
  destruct (Hp w Hw Hq) as (A1 & A2 & A3 & A4).
  destruct (p w) as [o w1]. cbn [fst snd] in *. subst o.
  destruct (Hf (yield w1) A2 (Q_stable A3)) as (B1 & B2 & B3 & B4).
  destruct (f a (yield w1)) as [o w2]. cbn [fst snd] in *. subst o.
  cbn [fst snd].
  split; [reflexivity|]. split; [exact B2|]. split; [exact B3|].
  rewrite B4, A4. reflexivity.
Qed.

Lemma Kept_turn pg rs w : ok (Kept Q pg rs) w -> ok (Kept Q pg rs) (yield w).
Proof.
  intros (H1 & H2 & H3). destruct (Q_turn H2) as [B1 B2].
  simpl. rewrite yield_resizes.
  split; [rewrite B2; exact H1|]. split; [exact B1 | exact H3].
Qed.

Lemma Kept_emit pg rs e :
  stageEvent e -> isResize e = false -> sat (Kept Q pg rs) (emit e).
Proof.
  intros _ He w (H1 & H2 & H3). simpl. repeat split.
  - exact H1.
  - apply (Q_frame (w := w)); [reflexivity | exact H2].
  - rewrite resizes_snoc_quiet by exact He. exact H3.
Qed.

(** A stage that meets [Kept] and is fulfilled with [a] keeps [program]. *)
Lemma keeps_intro pg {A} (m : M A) (a : A) :
  (forall rs, sat (Kept Q pg rs) m) ->
  (forall w, program w = pg -> fst (m w) = Fulfilled a) ->
  keeps Q pg m a.
Proof.
  intros Hs Ho w Hw Hq.
  specialize (Hs (resizes (trace w)) w (conj Hw (conj Hq eq_refl))).
  specialize (Ho w Hw).
  destruct (m w) as [o w1]. simpl in *. subst o. simpl in Hs.
  destruct Hs as (H1 & H2 & H3). auto.
Qed.

Section Stable.

Variable pg : Program.
Variables (c data : string) (result name : jsval).
Hypothesis config_pg : config pg = Some c.
Hypothesis roots_answer :
  Forall (fun p => rootStat env c p <> None) (platformInfo env).
Hypothesis some_added : filter (rootIsDirectory env c) (platformInfo env) <> [].
Hypothesis config_readable : fs_readFile env c = ReadOk data.
Hypothesis config_parsed : parseString env data = inl result.
Hypothesis name_found : widgetName0 result = Some name.

Lemma getPlatforms_fulfilled projectName w :
  program w = pg ->
  fst (getPlatforms env projectName w)
  = Fulfilled (map (resolvedOf env c projectName) (platformInfo env)).
Proof.
  intros Hw.
  assert (Hc : config (program w) = Some c) by congruence.
  rewrite (@getPlatforms_known env projectName w c Hc).
  - rewrite (allSettled_all env c projectName roots_answer). reflexivity.
  - eapply Forall_impl; [|exact roots_answer]. intros p. apply rootStat_known.
Qed.

Lemma keeps_getPlatforms projectName :
  keeps Q pg (getPlatforms env projectName)
        (map (resolvedOf env c projectName) (platformInfo env)).
Proof.
  apply keeps_intro.
  - intros rs. apply st_getPlatforms.
    + apply Kept_turn.
    + intros e w _ _. exact I.
    + apply Kept_emit.
  - apply getPlatforms_fulfilled.
Qed.

Lemma keeps_atLeastOnePlatformFound :
  keeps Q pg (atLeastOnePlatformFound env) tt.
Proof.
  apply keeps_intro.
  - intros rs. apply st_atLeastOnePlatformFound.
    + apply Kept_turn.
    + intros e w _. exact I.
    + intros e w _ _. exact I.
    + apply Kept_emit.
  - intros w Hw. unfold atLeastOnePlatformFound, then_.
    pose proof (getPlatforms_fulfilled JUndefined w Hw) as G.
    destruct (getPlatforms env JUndefined w) as [o w1]. simpl in G. subst o.
    cbv zeta. rewrite filter_map_resolved.
    destruct (filter (rootIsDirectory env c) (platformInfo env));
      [congruence | reflexivity].
Qed.

Lemma keeps_configFileExists config0 :
  keeps Q pg (configFileExists env config0 None) true.
Proof.
  apply keeps_intro.
  - intros rs. apply st_configFileExists.
    + apply Kept_turn.
    + intros e w _ _. exact I.
    + apply Kept_emit.
  - intros w Hw. unfold configFileExists. rewrite validParamFile_run.
    simpl getParam. rewrite Hw, config_pg. unfold readFileResult.
    rewrite config_readable. reflexivity.
Qed.

Lemma keeps_getProjectName : keeps Q pg (getProjectName env) name.
Proof.
  apply keeps_intro.
  - intros rs. apply st_getProjectName.
    + apply Kept_turn.
    + intros e w _. exact I.
    + intros e w _ _. exact I.
    + apply Kept_emit.
  - intros w Hw.
    unfold getProjectName, bind, readParam, then_, nfcall_readFile,
      ninvoke_parseString, emit, tick, readFileResult, reject, ret, throw.
    simpl. rewrite Hw, config_pg, config_readable. simpl.
    rewrite config_parsed. simpl. rewrite name_found. reflexivity.
Qed.

End Stable.

(** The chain, for a [validArtAssets] that takes [program] from [pg] to
    [pg'] by the turn that follows it. *)
Lemma pipeline_chain pg pg' (c data : string) (result name : jsval) :
  config pg = Some c ->
  config pg' = Some c ->
  Forall (fun p => rootStat env c p <> None) (platformInfo env) ->
  filter (rootIsDirectory env c) (platformInfo env) <> [] ->
  fs_readFile env c = ReadOk data ->
  parseString env data = inl result ->
  widgetName0 result = Some name ->
  (forall n o, ig_resize env n o = None) ->
  stage Q pg pg' (validArtAssets env) tt ->
  forall w,
    program w = pg -> Q w ->
    fst (pipeline env (config pg) w) = Fulfilled tt
    /\ program (snd (pipeline env (config pg) w)) = pg'
    /\ stable (snd (pipeline env (config pg) w))
    /\ resizes (trace (snd (pipeline env (config pg) w)))
       = (resizes (trace w)
          ++ plan env c pg' (map (resolvedOf env c name) (platformInfo env)))%list.
Proof.
  intros Hc Hc' Hr Ha Hread Hparse Hname Hok Hval.
  unfold pipeline.
  apply (@stage_then_runs pg pg' _ _ (fun platforms => generate env platforms)
           (map (resolvedOf env c name) (platformInfo env))).
  - apply (@stage_then pg pg' pg' _ _ _ (fun projectName => getPlatforms env projectName) name).
    + apply (@stage_then pg pg' pg' _ _ _ (fun _ => getProjectName env) tt).
      * apply (@stage_then pg pg pg' _ _ _ (fun _ => validArtAssets env) true).
        -- apply (@stage_then pg pg pg _ _ _
                    (fun _ => configFileExists env (config pg) None) tt).
           ++ apply stage_of_keeps.
              apply (@keeps_atLeastOnePlatformFound pg c Hc Hr Ha).
           ++ apply stage_of_keeps.
              apply (@keeps_configFileExists pg c data Hc Hread).
        -- exact Hval.
      * apply stage_of_keeps.
        apply (@keeps_getProjectName pg' c data result name Hc' Hread Hparse Hname).
    + apply stage_of_keeps. apply (@keeps_getPlatforms pg' c Hc' Hr).
  - apply (@runs_generate env pg' c Hc' Hok).
Qed.

(** The two checks before [validArtAssets]. *)
Lemma checks_stage pg (c data : string) :
  config pg = Some c ->
  Forall (fun p => rootStat env c p <> None) (platformInfo env) ->
  filter (rootIsDirectory env c) (platformInfo env) <> [] ->
  fs_readFile env c = ReadOk data ->
  stage Q pg pg
        (then_ (atLeastOnePlatformFound env)
               (fun _ => configFileExists env (config pg) None))
        true.
Proof.
  intros Hc Hr Ha Hread.
  apply (@stage_then pg pg pg _ _ _
           (fun _ => configFileExists env (config pg) None) tt).
  - apply stage_of_keeps. apply (@keeps_atLeastOnePlatformFound pg c Hc Hr Ha).
  - apply stage_of_keeps. apply (@keeps_configFileExists pg c data Hc Hread).
Qed.

End Chain.

Lemma readable_result env location :
  match readFileResult env location with
  | inl _ => readable env location = false
  | inr _ => readable env location = true
  end.
Proof.
  unfold readFileResult, readable. destruct location as [p|]; [|reflexivity].
  destruct (fs_readFile env p); reflexivity.
Qed.

Lemma deliver_program_warning p w :
  probeWarningType p = true ->
  program (deliver p w)
  = match probeResult p with
    | inl _ => setParam (probeType p) None (program w)
    | inr _ => program w
    end.
Proof.
  intros Hp. unfold deliver.
  match goal with
  | |- context [validArtAssetsSpread ?x] =>
      destruct (spread_fields x) as (-> & _)
  end.
  unfold validParamFileSettled. rewrite Hp.
  destruct (probeResult p); reflexivity.
Qed.

(** With sources that can be read, the probes of [validArtAssets] leave
    [program] alone whenever they call back. *)
Lemma stage_validArtAssets_readable env pg :
  readable env (icon pg) = true ->
  readable env (splash pg) = true ->
  stage stable pg pg (validArtAssets env) tt.
Proof.
  intros Hi Hs w Hw Hst.
  assert (St : stable (snd (validArtAssets env w))).
  { unfold validArtAssets, validIconExistsDetached, validSplashExistsDetached,
      validParamFileDetached, validParamFileCall, bind, readParam, emit, ret.
    unfold stable. simpl. rewrite Hw.
    rewrite <- app_assoc. apply Forall_app. split; [exact Hst|].
    pose proof (readable_result env (icon pg)) as Ri.
    pose proof (readable_result env (splash pg)) as Rs.
    constructor; [|constructor; [|constructor]]; simpl.
    - destruct (readFileResult env (icon pg)) as [e|d]; [congruence|].
      exists d. reflexivity.
    - destruct (readFileResult env (splash pg)) as [e|d]; [congruence|].
      exists d. reflexivity. }
  destruct (yield_stable St) as [Y1 Y2].
  split; [reflexivity|]. split; [|split; [exact Y1|]].
  - rewrite Y2. exact Hw.
  - rewrite yield_resizes.
    unfold validArtAssets, validIconExistsDetached, validSplashExistsDetached,
      validParamFileDetached, validParamFileCall, bind, readParam, emit, ret.
    simpl. rewrite !resizes_snoc_quiet by reflexivity. reflexivity.
Qed.

Lemma iter_yield_stable n w :
  stable w ->
  program (Nat.iter n yield w) = program w
  /\ resizes (trace (Nat.iter n yield w)) = resizes (trace w).
Proof.
  intros H.
  assert (G : stable (Nat.iter n yield w)
              /\ program (Nat.iter n yield w) = program w
              /\ resizes (trace (Nat.iter n yield w)) = resizes (trace w)).
  { induction n as [|n (I1 & I2 & I3)]; simpl; [auto|].
    destruct (yield_stable I1) as [Y1 Y2].
    rewrite yield_resizes. repeat split; try assumption. congruence. }
  split; apply G.
Qed.

(** What [main] makes of a chain that is fulfilled. *)
Lemma main_after_chain env pg pg' plan0 :
  fst (pipeline env (config pg) (startWorld pg)) = Fulfilled tt ->
  program (snd (pipeline env (config pg) (startWorld pg))) = pg' ->
  stable (snd (pipeline env (config pg) (startWorld pg))) ->
  resizes (trace (snd (pipeline env (config pg) (startWorld pg)))) = plan0 ->
  fst (main env (initialWorld pg)) = Fulfilled tt
  /\ program (snd (main env (initialWorld pg))) = pg'
  /\ resizes (trace (snd (main env (initialWorld pg)))) = plan0
  /\ produced (snd (main env (initialWorld pg))) = map dstPath plan0
  /\ filter isFailure (trace (snd (main env (initialWorld pg)))) = [].
Proof.
  intros Ho Hp Hst Hr.
  pose proof (main_failures env pg) as F.
  assert (Hok : ok (FailFast env (startWorld pg)) (startWorld pg)).
  { split; [apply startWorld_pendingOk|]. exists []. simpl.
    repeat split. intros j o' Hj. destruct j; discriminate. }
  pose proof (@FailFast_pipeline env (startWorld pg) (config pg) _ Hok) as Hs.
  rewrite main_run in *.
  destruct (pipeline env (config pg) (startWorld pg)) as [o w2].
  cbn [fst snd] in Ho, Hp, Hst, Hr, F. subst o. cbn [fst snd] in *.
  destruct Hs as [Hpend (rs & R1 & R2 & _)]. simpl in R1, R2.
  destruct (yield_stable Hst) as [S1 P1].
  destruct (yield_stable S1) as [S2 P2].
  assert (S3 : stable (logEvent (ELog "") (yield (yield w2)))) by exact S2.
  destruct (iter_yield_stable
              (Datatypes.S (list_max (map probeWait
                 (pending (logEvent (ELog "") (yield (yield w2))))))) S3)
    as [P3 R3].
  destruct (tail_fulfilled Hpend) as (_ & T2 & _).
  split; [reflexivity|]. split; [|split; [|split]].
  - unfold drain. rewrite P3. simpl. rewrite P2, P1. exact Hp.
  - unfold drain. rewrite R3. simpl.
    rewrite resizes_snoc_quiet by reflexivity.
    rewrite !yield_resizes. exact Hr.
  - rewrite T2, R2. rewrite <- Hr, R1. reflexivity.
  - exact F.
Qed.

Lemma idle_turn w : idle w -> idle (yield w) /\ program (yield w) = program w.
Proof. intros H. rewrite (@yield_idle w H). split; [exact H | reflexivity]. Qed.

Lemma idle_frame w w' : pending w' = pending w -> idle w -> idle w'.
Proof. unfold idle. congruence. Qed.

Lemma idle_stable w : idle w -> stable w.
Proof. unfold idle, stable. intros ->. constructor. Qed.

Lemma stable_frame w w' : pending w' = pending w -> stable w -> stable w'.
Proof. unfold stable. intros ->. auto. Qed.

(** X15. A complete project, whatever the schedule.  With a
    configuration that reads and parses to a name, sources that can both
    be read, every platform root answering [fs.stat] and at least one of
    them a directory, and resizes that succeed: the chain is fulfilled,
    the run resizes exactly the work list of the platforms resolved with
    the project name, writes exactly those files, reports no failure and
    leaves [program] as it was. *)
Theorem complete_project_run (env : Env) (pg : Program)
        (c data : string) (result name : jsval) :
  config pg = Some c ->
  readable env (icon pg) = true ->
  readable env (splash pg) = true ->
  Forall (fun p => rootStat env c p <> None) (platformInfo env) ->
  filter (rootIsDirectory env c) (platformInfo env) <> [] ->
  fs_readFile env c = ReadOk data ->
  parseString env data = inl result ->
  widgetName0 result = Some name ->
  (forall n o, ig_resize env n o = None) ->
  fst (main env (initialWorld pg)) = Fulfilled tt
  /\ program (snd (main env (initialWorld pg))) = pg
  /\ resizes (trace (snd (main env (initialWorld pg))))
     = plan env c pg (map (resolvedOf env c name) (platformInfo env))
  /\ produced (snd (main env (initialWorld pg)))
     = map dstPath (plan env c pg (map (resolvedOf env c name) (platformInfo env)))
  /\ filter isFailure (trace (snd (main env (initialWorld pg)))) = [].
Proof.
  intros Hc Hi Hs Hr Ha Hread Hparse Hname Hok.
  assert (Chain :
    fst (pipeline env (config pg) (startWorld pg)) = Fulfilled tt
    /\ program (snd (pipeline env (config pg) (startWorld pg))) = pg
    /\ stable (snd (pipeline env (config pg) (startWorld pg)))
    /\ resizes (trace (snd (pipeline env (config pg) (startWorld pg))))
       = (resizes (trace (startWorld pg))
          ++ plan env c pg (map (resolvedOf env c name) (platformInfo env)))%list).
  { apply (@pipeline_chain env stable yield_stable stable_frame
             (fun w H => H)
             pg pg c data result name Hc Hc Hr Ha Hread Hparse Hname Hok).
    - apply stage_validArtAssets_readable; assumption.
    - reflexivity.
    - constructor. }
  destruct Chain as (C1 & C2 & C3 & C4).
  apply main_after_chain; assumption.
Qed.

Lemma complete_project_run_witness :
  fst (main envComplete (initialWorld exampleProgram)) = Fulfilled tt
  /\ program (snd (main envComplete (initialWorld exampleProgram))) = exampleProgram
  /\ resizes (trace (snd (main envComplete (initialWorld exampleProgram))))
     = plan envComplete "/proj/config.xml" exampleProgram
            (map (resolvedOf envComplete "/proj/config.xml" (JStr "Hello"))
                 (platformInfo envComplete))
  /\ produced (snd (main envComplete (initialWorld exampleProgram)))
     = map dstPath
           (plan envComplete "/proj/config.xml" exampleProgram
                 (map (resolvedOf envComplete "/proj/config.xml" (JStr "Hello"))
                      (platformInfo envComplete)))
  /\ filter isFailure (trace (snd (main envComplete (initialWorld exampleProgram))))
     = [].
Proof.
  apply (@complete_project_run envComplete exampleProgram "/proj/config.xml"
           "<widget><name>Hello</name></widget>"
           (JObj [("widget", JObj [("name", JArr [JStr "Hello"])])])
           (JStr "Hello"));
    try reflexivity.
  - repeat constructor. vm_compute. discriminate.
  - vm_compute. discriminate.
Defined.

(** *** Probes that call back before [generate] is called *)

Lemma then_run {A B} (p : M A) (f : A -> M B) w (a : A) w1 (b : B) w2 :
  p w = (Fulfilled a, w1) ->
  f a (yield w1) = (Fulfilled b, w2) ->
  then_ p f w = (Fulfilled b, w2).
Proof. intros Hp Hf. unfold then_. rewrite Hp, Hf. reflexivity. Qed.

Lemma fulfilled_run {A} (r : outcome A * World) (a : A) :
  fst r = Fulfilled a -> r = (Fulfilled a, snd r).
Proof. destruct r as [o w]. simpl. intros ->. reflexivity. Qed.

Lemma sourceDue_delivered env pg n p ps1 ps2 w k :
  sourceProbe env pg n p ->
  k <> KConfig ->
  sourceDue env pg k (ps1 ++ p :: ps2) (program w) ->
  sourceDue env pg k (ps1 ++ ps2) (program (deliver p w)).
Proof.
  intros (Hw & _ & Hr) Hk H.
  rewrite (deliver_program_warning p w Hw).
  assert (Hother : probeType p <> k ->
            Exists (fun q => probeType q = k) (ps1 ++ p :: ps2) ->
            Exists (fun q => probeType q = k) (ps1 ++ ps2)).
  { intros Hne He. apply Exists_app in He. apply Exists_app.
    destruct He as [He|He]; [left; exact He|].
    inversion He as [? ? Hh|? ? Ht]; subst; [congruence | right; exact Ht]. }
  pose proof (readable_result env (icon pg)) as Ri.
  pose proof (readable_result env (splash pg)) as Rs.
  unfold sourceDue in *. unfold probed.
  destruct (probeType p) eqn:Hp; [| |contradiction].
  - rewrite <- Hr in Ri.
    destruct k; [| |congruence].
    + left. cbn [getParam icon].
      destruct (probeResult p); rewrite Ri; cbn [setParam icon].
      * reflexivity.
      * destruct H as [H|[H _]]; [|exact H].
        cbn [getParam probed icon] in H. rewrite Ri in H. exact H.
    + destruct H as [H|[H He]].
      * left. destruct (probeResult p); exact H.
      * right. split; [destruct (probeResult p); exact H|].
        apply Hother; [discriminate | exact He].
  - rewrite <- Hr in Rs.
    destruct k; [| |congruence].
    + destruct H as [H|[H He]].
      * left. destruct (probeResult p); exact H.
      * right. split; [destruct (probeResult p); exact H|].
        apply Hother; [discriminate | exact He].
    + left. cbn [getParam splash].
      destruct (probeResult p); rewrite Rs; cbn [setParam splash].
      * reflexivity.
      * destruct H as [H|[H _]]; [|exact H].
        cbn [getParam probed splash] in H. rewrite Rs in H. exact H.
Qed.

Lemma sourceDue_requeued env pg p n ps1 ps2 cur k :
  sourceDue env pg k (ps1 ++ p :: ps2) cur ->
  sourceDue env pg k ((ps1 ++ [waitLess p n]) ++ ps2) cur.
Proof.
  intros [H|[H He]]; [left; exact H|]. right. split; [exact H|].
  apply Exists_app in He. apply Exists_app.
  destruct He as [He|He].
  - left. apply Exists_app. left. exact He.
  - inversion He as [? ? Hh|? ? Ht]; subst.
    + left. apply Exists_app. right. constructor. reflexivity.
    + right. exact Ht.
Qed.

(** The loop over the pending probes brings every probe one turn closer. *)
Lemma yield_fold_awaiting env pg n (ps : list Probe) :
  Forall (sourceProbe env pg (Datatypes.S n)) ps ->
  forall acc,
    config (program acc) = config pg ->
    Forall (sourceProbe env pg n) (pending acc) ->
    sourceDue env pg KIcon (pending acc ++ ps) (program acc) ->
    sourceDue env pg KSplash (pending acc ++ ps) (program acc) ->
    awaiting env pg n (fold_left yieldStep ps acc).
Proof.
  induction 1 as [|p ps Hp _ IH]; intros acc Hc Hf Hi Hs; cbn [fold_left].
  - rewrite app_nil_r in Hi, Hs. repeat split; assumption.
  - unfold yieldStep at 2. destruct (probeWait p) as [|m] eqn:Hm.
    + apply IH.
      * destruct Hp as (Hw & _ & Hr).
        rewrite (deliver_program_warning p acc Hw).
        destruct (probeType p); [| |contradiction];
          destruct (probeResult p); exact Hc.
      * rewrite deliver_pending. exact Hf.
      * rewrite deliver_pending.
        apply (sourceDue_delivered (n := Datatypes.S n)); [exact Hp|discriminate|exact Hi].
      * rewrite deliver_pending.
        apply (sourceDue_delivered (n := Datatypes.S n)); [exact Hp|discriminate|exact Hs].
    + apply IH; cbn [program pending setPending].
      * exact Hc.
      * apply Forall_app. split; [exact Hf|].
        constructor; [|constructor].
        destruct Hp as (Hw & Hlt & Hr). repeat split; cbn; [exact Hw| lia |exact Hr].
      * apply sourceDue_requeued. exact Hi.
      * apply sourceDue_requeued. exact Hs.
Qed.

Lemma yield_awaiting env pg n w :
  awaiting env pg (Datatypes.S n) w -> awaiting env pg n (yield w).
Proof.
  intros (Hc & Hf & Hi & Hs). unfold yield.
  apply yield_fold_awaiting; [exact Hf|exact Hc|constructor|exact Hi|exact Hs].
Qed.

Lemma awaiting_emit env pg n e w :
  awaiting env pg n w -> awaiting env pg n (logEvent e w).
Proof. intros H. exact H. Qed.

(** Once every probe has called back, [program] is [probed env pg]. *)
Lemma awaiting_idle env pg w :
  awaiting env pg 0 w -> idle w /\ program w = probed env pg.
Proof.
  intros (Hc & Hf & Hi & Hs).
  assert (Hidle : pending w = []).
  { destruct (pending w) as [|p ps]; [reflexivity|].
    inversion Hf as [|? ? (_ & Hlt & _) _]. lia. }
  split; [exact Hidle|].
  rewrite Hidle in Hi, Hs.
  destruct Hi as [Hi|[_ Hi]]; [|inversion Hi].
  destruct Hs as [Hs|[_ Hs]]; [|inversion Hs].
  cbn [getParam] in Hi, Hs.
  destruct (program w) as [i s0 c0], (probed env pg) as [i' s' c'] eqn:Hq.
  assert (Hc' : c' = config pg).
  { change c' with (config {| icon := i'; splash := s'; config := c' |}).
    rewrite <- Hq. reflexivity. }
  cbn [icon splash config] in *. subst. reflexivity.
Qed.

(** [validArtAssets] starts the two probes and returns. *)
Lemma validArtAssets_awaiting env pg n w :
  (forall k, (probeDelay env k <= n)%nat) ->
  program w = pg -> idle w ->
  fst (validArtAssets env w) = Fulfilled tt
  /\ awaiting env pg (Datatypes.S n) (snd (validArtAssets env w))
  /\ resizes (trace (snd (validArtAssets env w))) = resizes (trace w).
Proof.
  intros Hd Hw Hidle. subst pg. unfold idle in Hidle.
  unfold validArtAssets, validIconExistsDetached, validSplashExistsDetached,
    validParamFileDetached, validParamFileCall, bind, readParam, emit, ret.
  cbn [fst snd]. cbn [pending program trace setPending logEvent].
  rewrite Hidle. cbn [app getParam].
  split; [reflexivity|]. split.
  - pose proof (Hd KIcon) as Di. pose proof (Hd KSplash) as Ds.
    unfold awaiting. cbn [pending program trace setPending logEvent].
    split; [reflexivity|]. split; [|split].
    + constructor; [|constructor; [|constructor]];
        (split; [reflexivity|]; split; [cbn; lia | reflexivity]).
    + right. split; [reflexivity|]. apply Exists_cons_hd. reflexivity.
    + right. split; [reflexivity|].
      apply Exists_cons_tl, Exists_cons_hd. reflexivity.
  - rewrite !resizes_snoc_quiet by reflexivity. reflexivity.
Qed.

Lemma getProjectName_run env w (c data : string) (result name : jsval) :
  config (program w) = Some c ->
  fs_readFile env c = ReadOk data ->
  parseString env data = inl result ->
  widgetName0 result = Some name ->
  getProjectName env w
  = (Fulfilled name,
     yield (yield (logEvent (EParse data)
                     (yield (yield (logEvent (EReadFile (Some c)) w)))))).
Proof.
  intros Hc Hr Hp Hv.
  unfold getProjectName, bind, readParam, then_, nfcall_readFile,
    ninvoke_parseString, emit, tick, readFileResult, reject, ret, throw.
  simpl. rewrite Hc, Hr. simpl. rewrite Hp. simpl. rewrite Hv. reflexivity.
Qed.

(** The probes of the platform roots only add their [fs.stat] to the log. *)
Lemma mapM_resolve_world env c projectName (P : World -> Prop)
      (l : list Platform) :
  (forall path w, P w -> P (logEvent (EStat path) w)) ->
  Forall (fun p => rootDirectories (platformName p) <> None) l ->
  forall w,
    P w ->
    P (snd (mapM (resolvePlatform env (path_dirname env c)
                                  (js_or projectName (JStr ""))) l w)).
Proof.
  intros HP. induction 1 as [|p l Hp Hl IH]; intros w Hw.
  - exact Hw.
  - rewrite mapM_cons.
    destruct (rootDirectories (platformName p)) as [r|] eqn:Hr; [|congruence].
    rewrite (resolvePlatform_known env c projectName p w Hr).
    pose proof (@mapM_resolve_known env c projectName l Hl
                  (logEvent (EStat (path_join env (path_dirname env c) r)) w))
      as Hm.
    specialize (IH (logEvent (EStat (path_join env (path_dirname env c) r)) w)
                   (HP _ _ Hw)).
    destruct (mapM _ l _) as [o w2]. cbn [fst snd] in *. subst o. exact IH.
Qed.

Lemma getPlatforms_world env projectName w c (P : World -> Prop) :
  config (program w) = Some c ->
  Forall (fun p => rootDirectories (platformName p) <> None) (platformInfo env) ->
  (forall path w, P w -> P (logEvent (EStat path) w)) ->
  P w ->
  exists w1, P w1 /\ snd (getPlatforms env projectName w) = yield w1.
Proof.
  intros Hc Hk HP Hw. unfold getPlatforms. cbv zeta.
  unfold bind at 1. rewrite (projectRootOf_config env w Hc).
  unfold bind at 1.
  pose proof (@mapM_resolve_known env c projectName _ Hk w) as Hm.
  pose proof (@mapM_resolve_world env c projectName P _ HP Hk w Hw) as Hq.
  destruct (mapM _ (platformInfo env) w) as [o w1]. cbn [fst snd] in *. subst o.
  exists w1. split; [exact Hq|].
  unfold Q_all, bind, tick. destruct (allSettled _); reflexivity.
Qed.

(** The chain, when the source probes call back before [generate] is
    called: seven turns pass between the call of [validArtAssets] and the
    callback that calls [generate]. *)
Lemma early_probes_chain env pg (c data : string) (result name : jsval) :
  config pg = Some c ->
  (forall k, (probeDelay env k <= 7)%nat) ->
  Forall (fun p => rootStat env c p <> None) (platformInfo env) ->
  filter (rootIsDirectory env c) (platformInfo env) <> [] ->
  fs_readFile env c = ReadOk data ->
  parseString env data = inl result ->
  widgetName0 result = Some name ->
  (forall n o, ig_resize env n o = None) ->
  forall w,
    program w = pg -> idle w ->
    fst (pipeline env (config pg) w) = Fulfilled tt
    /\ program (snd (pipeline env (config pg) w)) = probed env pg
    /\ stable (snd (pipeline env (config pg) w))
    /\ resizes (trace (snd (pipeline env (config pg) w)))
       = (resizes (trace w)
          ++ plan env c (probed env pg)
                  (map (resolvedOf env c name) (platformInfo env)))%list.
Proof.
  intros Hc Hd Hr Ha Hread Hparse Hname Hok w Hw Hidle.
  assert (Hknown : Forall (fun p => rootDirectories (platformName p) <> None)
                          (platformInfo env)).
  { eapply Forall_impl; [|exact Hr]. intros p. apply rootStat_known. }
  (* the two checks *)
  destruct (@checks_stage env idle idle_turn idle_frame pg c data Hc Hr Ha Hread
              w Hw Hidle) as (A1 & A2 & A3 & A4).
  apply fulfilled_run in A1.
  remember (snd (then_ (atLeastOnePlatformFound env)
                       (fun _ => configFileExists env (config pg) None) w))
    as wA eqn:HwA. clear HwA.
  (* the probes are started *)
  destruct (@validArtAssets_awaiting env pg 7 (yield wA) Hd A2 A3)
    as (B1 & B2 & B3).
  apply fulfilled_run in B1.
  remember (snd (validArtAssets env (yield wA))) as wB eqn:HwB. clear HwB.
  (* the project name *)
  pose proof (yield_awaiting B2) as C1.
  assert (C2 : config (program (yield wB)) = Some c).
  { rewrite <- Hc. apply C1. }
  pose proof (@getProjectName_run env (yield wB) c data result name
                C2 Hread Hparse Hname) as C3.
  remember (yield (yield (logEvent (EParse data)
              (yield (yield (logEvent (EReadFile (Some c)) (yield wB)))))))
    as wC eqn:HwC.
  assert (C4 : awaiting env pg 3 wC).
  { subst wC. do 2 apply yield_awaiting. apply awaiting_emit.
    do 2 apply yield_awaiting. apply awaiting_emit. exact C1. }
  assert (C5 : resizes (trace wC) = resizes (trace w)).
  { subst wC. rewrite !yield_resizes. cbn [trace logEvent].
    rewrite resizes_snoc_quiet by reflexivity. rewrite !yield_resizes.
    cbn [trace logEvent]. rewrite resizes_snoc_quiet by reflexivity.
    rewrite yield_resizes. rewrite B3. exact A4. }
  clear HwC.
  (* the platforms *)
  pose proof (yield_awaiting C4) as D1.
  assert (D2 : config (program (yield wC)) = Some c).
  { rewrite <- Hc. apply D1. }
  destruct (@getPlatforms_world env name (yield wC) c
              (fun w' => awaiting env pg 2 w'
                         /\ resizes (trace w') = resizes (trace w))
              D2 Hknown) as (wD & (D3 & D4) & D5).
  { intros path w' [P1 P2]. split; [apply awaiting_emit, P1|].
    cbn [trace logEvent]. rewrite resizes_snoc_quiet by reflexivity. exact P2. }
  { split; [exact D1|]. rewrite yield_resizes. exact C5. }
  assert (D6 : fst (getPlatforms env name (yield wC))
               = Fulfilled (map (resolvedOf env c name) (platformInfo env))).
  { rewrite (@getPlatforms_known env name (yield wC) c D2 Hknown).
    rewrite (allSettled_all env c name Hr). reflexivity. }
  apply fulfilled_run in D6. rewrite D5 in D6.
  (* generation *)
  pose proof (yield_awaiting D3) as E1.
  destruct (awaiting_idle (yield_awaiting E1)) as [E2 E3].
  assert (Hc' : config (probed env pg) = Some c) by exact Hc.
  destruct (@runs_generate env (probed env pg) c Hc' Hok
              (map (resolvedOf env c name) (platformInfo env))
              (yield (yield wD)) E3 (idle_stable E2)) as (F1 & F2 & F3 & F4).
  apply fulfilled_run in F1.
  assert (Run : pipeline env (config pg) w
                = (Fulfilled tt,
                   snd (generate env (map (resolvedOf env c name)
                                          (platformInfo env))
                                 (yield (yield wD))))).
  { unfold pipeline.
    eapply then_run; [|exact F1].
    eapply then_run; [|exact D6].
    eapply then_run; [|exact C3].
    eapply then_run; [exact A1 | exact B1]. }
  rewrite Run. cbn [fst snd].
  split; [reflexivity|]. split; [exact F2|]. split; [exact F3|].
  rewrite F4. rewrite !yield_resizes. rewrite D4. reflexivity.
Qed.

(** X16. Probes that call back before generation.  With a configuration
    that reads and parses to a name, every platform root answering
    [fs.stat] and at least one of them a directory, and resizes that
    succeed: a run in which each source probe calls back within seven
    turns of the event loop, that is, before [generate] is called (while
    the configuration is read and parsed and the platforms are resolved),
    disables every source that cannot be read, then resizes exactly the
    work list for what is left (nothing at all when neither source can be
    read), reports no failure and ends normally. *)
Theorem prompt_probes_run (env : Env) (pg : Program)
        (c data : string) (result name : jsval) :
  config pg = Some c ->
  (forall k, (probeDelay env k <= 7)%nat) ->
  Forall (fun p => rootStat env c p <> None) (platformInfo env) ->
  filter (rootIsDirectory env c) (platformInfo env) <> [] ->
  fs_readFile env c = ReadOk data ->
  parseString env data = inl result ->
  widgetName0 result = Some name ->
  (forall n o, ig_resize env n o = None) ->
  fst (main env (initialWorld pg)) = Fulfilled tt
  /\ program (snd (main env (initialWorld pg))) = probed env pg
  /\ resizes (trace (snd (main env (initialWorld pg))))
     = plan env c (probed env pg)
            (map (resolvedOf env c name) (platformInfo env))
  /\ produced (snd (main env (initialWorld pg)))
     = map dstPath (plan env c (probed env pg)
                         (map (resolvedOf env c name) (platformInfo env)))
  /\ filter isFailure (trace (snd (main env (initialWorld pg)))) = [].
Proof.
  intros Hc Hd Hr Ha Hread Hparse Hname Hok.
  assert (Chain :
    fst (pipeline env (config pg) (startWorld pg)) = Fulfilled tt
    /\ program (snd (pipeline env (config pg) (startWorld pg))) = probed env pg
    /\ stable (snd (pipeline env (config pg) (startWorld pg)))
    /\ resizes (trace (snd (pipeline env (config pg) (startWorld pg))))
       = (resizes (trace (startWorld pg))
          ++ plan env c (probed env pg)
                  (map (resolvedOf env c name) (platformInfo env)))%list).
  { apply (@early_probes_chain env pg c data result name Hc Hd Hr Ha Hread
             Hparse Hname Hok); reflexivity. }
  destruct Chain as (C1 & C2 & C3 & C4).
  apply main_after_chain; assumption.
Qed.

Lemma prompt_probes_run_witness :
  fst (main envPromptNoSplash (initialWorld exampleProgram)) = Fulfilled tt
  /\ program (snd (main envPromptNoSplash (initialWorld exampleProgram)))
     = probed envPromptNoSplash exampleProgram
  /\ resizes (trace (snd (main envPromptNoSplash (initialWorld exampleProgram))))
     = plan envPromptNoSplash "/proj/config.xml"
            (probed envPromptNoSplash exampleProgram)
            (map (resolvedOf envPromptNoSplash "/proj/config.xml" (JStr "Hello"))
                 (platformInfo envPromptNoSplash))
  /\ produced (snd (main envPromptNoSplash (initialWorld exampleProgram)))
     = map dstPath
           (plan envPromptNoSplash "/proj/config.xml"
                 (probed envPromptNoSplash exampleProgram)
                 (map (resolvedOf envPromptNoSplash "/proj/config.xml" (JStr "Hello"))
                      (platformInfo envPromptNoSplash)))
  /\ filter isFailure
       (trace (snd (main envPromptNoSplash (initialWorld exampleProgram)))) = [].
Proof.
  apply (@prompt_probes_run envPromptNoSplash exampleProgram "/proj/config.xml"
           "<widget><name>Hello</name></widget>"
           (JObj [("widget", JObj [("name", JArr [JStr "Hello"])])])
           (JStr "Hello"));
    try reflexivity.
  - intros k. simpl. lia.
  - repeat constructor. vm_compute. discriminate.
  - vm_compute. discriminate.
Defined.

(** ** The work list of a run that fails *)

Lemma succeeded_app env n0 e1 e2 :
  succeeded env n0 (e1 ++ e2) <->
  succeeded env n0 e1 /\ succeeded env (n0 + length e1) e2.
Proof.
  unfold succeeded. split.
  - intros H. split; intros k o Hk.
    + apply H. rewrite nth_error_app1; [exact Hk|].
      apply nth_error_Some. congruence.
    + rewrite <- Nat.add_assoc. apply H.
      rewrite nth_error_app2 by lia.
      replace (length e1 + k - length e1) with k by lia. exact Hk.
  - intros [H1 H2] k o Hk.
    destruct (Nat.lt_ge_cases k (length e1)) as [Hlt|Hge].
    + rewrite nth_error_app1 in Hk by exact Hlt. apply H1, Hk.
    + rewrite nth_error_app2 in Hk by exact Hge.
      replace (n0 + k) with (n0 + length e1 + (k - length e1)) by lia.
      apply H2, Hk.
Qed.

Section Works.

Variable env : Env.
Variable pg : Program.

Lemma works_ret : works env pg (ret tt) [].
Proof.
  intros w Hw Hst. split.
  - intros _. simpl. rewrite app_nil_r. auto.
  - intros k o msg Hk. destruct k; discriminate.
Qed.

Lemma works_then (p : M unit) (f : unit -> M unit) e1 e2 :
  works env pg p e1 -> works env pg (f tt) e2 ->
  works env pg (then_ p f) (e1 ++ e2).
Proof.
  intros Hp Hf w Hw Hst. destruct (Hp w Hw Hst) as [Pok Pko].
  assert (Next : succeeded env (length (resizes (trace w))) e1 ->
                 fst (p w) = Fulfilled tt
                 /\ program (yield (snd (p w))) = pg
                 /\ stable (yield (snd (p w)))
                 /\ length (resizes (trace (yield (snd (p w)))))
                    = length (resizes (trace w)) + length e1
                 /\ resizes (trace (yield (snd (p w))))
                    = (resizes (trace w) ++ e1)%list).
  { intros S1. destruct (Pok S1) as (A & B & C & D).
    destruct (yield_stable C) as [C' B'].
    rewrite yield_resizes, D, length_app, B'. auto. }
  split.
  - intros Hs. apply succeeded_app in Hs. destruct Hs as [S1 S2].
    destruct (Next S1) as (A & B & C & L & D).
    destruct (Hf _ B C) as [Fok _]. rewrite L in Fok.
    destruct (Fok S2) as (A2 & B2 & C2 & D2).
    unfold then_. destruct (p w) as [o w1]. cbn [fst snd] in *. subst o.
    destruct (f tt (yield w1)) as [o2 w2]. cbn [fst snd] in *. subst o2.
    cbn [fst snd]. rewrite D2, D, app_assoc. auto.
  - intros k o msg Hk Hfail Hsucc.
    destruct (Nat.lt_ge_cases k (length e1)) as [Hlt|Hge].
    + rewrite nth_error_app1 in Hk by exact Hlt.
      rewrite firstn_app in Hsucc.
      replace (k - length e1) with 0 in Hsucc by lia.
      simpl in Hsucc. rewrite app_nil_r in Hsucc.
      destruct (Pko k o msg Hk Hfail Hsucc) as (A & B & C & D).
      destruct (yield_stable C) as [C' B'].
      unfold then_. destruct (p w) as [o1 w1]. cbn [fst snd] in *. subst o1.
      cbn [fst snd]. rewrite yield_resizes, D, B', B.
      rewrite firstn_app.
      replace (Datatypes.S k - length e1) with 0 by lia.
      simpl firstn at 2. rewrite app_nil_r. auto.
    + rewrite nth_error_app2 in Hk by exact Hge.
      rewrite firstn_app in Hsucc.
      rewrite (@firstn_all2 _ k e1) in Hsucc by exact Hge.
      apply succeeded_app in Hsucc. destruct Hsucc as [S1 S2].
      destruct (Next S1) as (A & B & C & L & D).
      destruct (Hf _ B C) as [_ Fko]. rewrite L in Fko.
      assert (Hfail' : ig_resize env (length (resizes (trace w)) + length e1
                                      + (k - length e1)) o = Some msg).
      { replace (length (resizes (trace w)) + length e1 + (k - length e1))
          with (length (resizes (trace w)) + k) by lia. exact Hfail. }
      destruct (Fko (k - length e1) o msg Hk Hfail' S2) as (A2 & B2 & C2 & D2).
      unfold then_. destruct (p w) as [o1 w1]. cbn [fst snd] in *. subst o1.
      destruct (f tt (yield w1)) as [o2 w2]. cbn [fst snd] in *. subst o2.
      cbn [fst snd]. rewrite D2, D, <- app_assoc.
      rewrite (firstn_app (Datatypes.S k)).
      rewrite (@firstn_all2 _ (Datatypes.S k) e1) by lia.
      replace (Datatypes.S k - length e1) with (Datatypes.S (k - length e1)) by lia.
      auto.
Qed.

Lemma works_reduce {A} (f : A -> M unit) (g : A -> list ResizeOpts)
      (l : list A) :
  (forall a, works env pg (f a) (g a)) ->
  forall init e0,
    works env pg init e0 ->
    works env pg
          (fold_left (fun previous a => then_ previous (fun _ => f a)) l init)
          (e0 ++ flat_map g l).
Proof.
  intros Hf. induction l as [|a l IH]; intros init e0 Hinit; simpl.
  - rewrite app_nil_r. exact Hinit.
  - rewrite app_assoc. apply IH.
    apply (@works_then init (fun _ => f a) e0 (g a)); [exact Hinit | apply Hf].
Qed.

Variable c : string.
Hypothesis config_pg : config pg = Some c.

Lemma works_generateArtAsset name src dst opts :
  works env pg (generateArtAsset env name src dst opts)
        [ {| srcPath := src;
             dstPath := path_join env
                          (path_resolve env (path_dirname env c) dst) name;
             quality := 1;
             format := "png";
             width := fst opts;
             height := snd opts |} ].
Proof.
  intros w Hw Hst.
  assert (Hc : config (program w) = Some c) by congruence.
  pose proof (@generateArtAsset_call env name src dst opts w c Hc) as Hcall.
  set (o := {| srcPath := src;
               dstPath := path_join env
                            (path_resolve env (path_dirname env c) dst) name;
               quality := 1; format := "png";
               width := fst opts; height := snd opts |}) in *.
  assert (S1 : stable (logEvent (EResize o) w)) by exact Hst.
  destruct (yield_stable S1) as [S2 P2].
  assert (Run : generateArtAsset env name src dst opts w
                = match ig_resize env (length (resizes (trace w))) o with
                  | None =>
                      (Fulfilled tt,
                       logEvent (EDisplay Success (name ++ " created"))
                         (yield (addProduced (dstPath o)
                                   (yield (logEvent (EResize o) w)))))
                  | Some m =>
                      (Rejected (ResizeError m),
                       yield (yield (logEvent (EResize o) w)))
                  end).
  { unfold generateArtAsset, projectRootOf, bind, readParam, then_,
      ninvoke_resize, display, emit, ret, extend.
    simpl. rewrite Hc. simpl. fold o.
    destruct (ig_resize env (length (resizes (trace w))) o); reflexivity. }
  split.
  - intros Hs.
    assert (Hn : ig_resize env (length (resizes (trace w))) o = None).
    { specialize (Hs 0 o eq_refl). rewrite Nat.add_0_r in Hs. exact Hs. }
    rewrite Run in *. rewrite Hn in *. cbn [fst snd] in *.
    assert (S3 : stable (addProduced (dstPath o) (yield (logEvent (EResize o) w))))
      by exact S2.
    destruct (yield_stable S3) as [S4 P4].
    split; [reflexivity|]. split; [|split; [exact S4 | exact Hcall]].
    cbn [program logEvent]. rewrite P4. cbn [program addProduced].
    rewrite P2. exact Hw.
  - intros k o' msg Hk Hfail _.
    destruct k as [|k]; [|destruct k; discriminate].
    cbn in Hk. injection Hk as <-. rewrite Nat.add_0_r in Hfail.
    rewrite Run in *. rewrite Hfail in *. cbn [fst snd] in *.
    destruct (yield_stable S2) as [S4 P4].
    split; [reflexivity|]. split; [|split; [exact S4 | exact Hcall]].
    rewrite P4, P2. exact Hw.
Qed.

Lemma works_generateArtAssets platform type
      (processor : Asset -> option string -> string -> M unit) assets :
  typeAssets type platform = Some assets ->
  (forall a, works env pg (processor a (getParam (keyOf type) pg)
                                     (typePath type platform))
                   [resizeCall env c type (getParam (keyOf type) pg) platform a]) ->
  works env pg (generateArtAssets platform type processor)
        (map (resizeCall env c type (getParam (keyOf type) pg) platform) assets).
Proof.
  intros Ha Hp w Hw Hs.
  pose proof (@works_reduce Asset
                (fun asset => src <- readParam (keyOf type) ;;
                              processor asset src (typePath type platform))
                (fun a => [resizeCall env c type (getParam (keyOf type) pg)
                                      platform a])
                assets) as R.
  rewrite flat_map_singleton in R. simpl in R.
  assert (Hstep : forall a,
             works env pg (src <- readParam (keyOf type) ;;
                           processor a src (typePath type platform))
                   [resizeCall env c type (getParam (keyOf type) pg) platform a]).
  { intros a w1 Hw1 Hs1. unfold bind, readParam. rewrite Hw1.
    apply Hp; assumption. }
  specialize (R Hstep (ret tt) [] works_ret
                (logEvent (EDisplay Header
                             ("Generating " ++ typeName type ++ " assets for "
                              ++ platformName (proto platform))) w) Hw Hs).
  cbn [trace logEvent] in R.
  rewrite resizes_snoc_quiet in R by reflexivity.
  unfold generateArtAssets, bind, display, emit. rewrite Ha. exact R.
Qed.

Lemma works_processPlatformFor type platform :
  works env pg (processPlatformFor type platform
                  (match type with
                   | IconT => generateIcons env
                   | SplashT => generateSplashes env
                   end))
        (planFor env c pg type platform).
Proof.
  intros w Hw Hs. unfold processPlatformFor, planFor, bind, readParam.
  cbv zeta. rewrite Hw.
  destruct (typeAssets type platform) as [assets|] eqn:Ha.
  - destruct (truthyParam (getParam (keyOf type) pg)
              && negb (Nat.eqb (length assets) 0)).
    + destruct type.
      * apply (@works_generateArtAssets platform IconT (generateIcon env) assets Ha);
          [|exact Hw|exact Hs].
        intros a. apply works_generateArtAsset.
      * apply (@works_generateArtAssets platform SplashT (generateSplash env) assets Ha);
          [|exact Hw|exact Hs].
        intros a. apply works_generateArtAsset.
    + apply works_ret; assumption.
  - rewrite andb_false_r. apply works_ret; assumption.
Qed.

Lemma works_platform platform :
  works env pg (then_ (then_ (ret tt)
                             (fun _ => processPlatformFor IconT platform
                                         (generateIcons env)))
                      (fun _ => processPlatformFor SplashT platform
                                  (generateSplashes env)))
        (planFor env c pg IconT platform ++ planFor env c pg SplashT platform).
Proof.
  apply (@works_then _ (fun _ => processPlatformFor SplashT platform
                                   (generateSplashes env))).
  - apply (@works_then (ret tt)
             (fun _ => processPlatformFor IconT platform (generateIcons env))
             [] (planFor env c pg IconT platform)).
    + apply works_ret.
    + apply (works_processPlatformFor IconT).
  - apply (works_processPlatformFor SplashT).
Qed.

Lemma works_generate platforms :
  works env pg (generate env platforms) (plan env c pg platforms).
Proof.
  unfold generate, plan.
  apply (@works_reduce ResolvedPlatform
           (fun platform =>
              then_ (then_ (ret tt)
                           (fun _ => processPlatformFor IconT platform
                                       (generateIcons env)))
                    (fun _ => processPlatformFor SplashT platform
                                (generateSplashes env)))
           (fun platform =>
              (planFor env c pg IconT platform
               ++ planFor env c pg SplashT platform)%list)
           (whereIsAdded platforms) works_platform (ret tt) [] works_ret).
Qed.

End Works.

(** X17. Where the work list stops.  Where no pending probe can change
    [program]: if the resize at position [k] of the work list is the first
    to fail, [generate] is rejected with its error after having invoked
    exactly the first [k + 1] resizes of the list, in order; if none
    fails, it is fulfilled after the whole list. *)
Theorem generate_stops_at_first_failure (env : Env)
        (platforms : list ResolvedPlatform) (w : World) (c : string) :
  config (program w) = Some c ->
  stable w ->
  (succeeded env (length (resizes (trace w))) (plan env c (program w) platforms) ->
   fst (generate env platforms w) = Fulfilled tt
   /\ resizes (trace (snd (generate env platforms w)))
      = (resizes (trace w) ++ plan env c (program w) platforms)%list)
  /\ (forall k o msg,
         nth_error (plan env c (program w) platforms) k = Some o ->
         ig_resize env (length (resizes (trace w)) + k) o = Some msg ->
         succeeded env (length (resizes (trace w)))
                   (firstn k (plan env c (program w) platforms)) ->
         fst (generate env platforms w) = Rejected (ResizeError msg)
         /\ resizes (trace (snd (generate env platforms w)))
            = (resizes (trace w)
               ++ firstn (Datatypes.S k) (plan env c (program w) platforms))%list).
Proof.
  intros Hc Hst.
  destruct (@works_generate env (program w) c Hc platforms w eq_refl Hst)
    as [Wok Wko].
  split.
  - intros Hs. destruct (Wok Hs) as (A & _ & _ & D). auto.
  - intros k o msg Hk Hf Hs.
    destruct (Wko k o msg Hk Hf Hs) as (A & _ & _ & D). auto.
Qed.

Lemma generate_stops_at_first_failure_witness :
  fst (generate envSecondFails [androidResolved] (startWorld exampleProgram))
  = Rejected (ResizeError "convert: failed")
  /\ resizes (trace (snd (generate envSecondFails [androidResolved]
                            (startWorld exampleProgram))))
     = (resizes (trace (startWorld exampleProgram))
        ++ firstn 2 (plan envSecondFails "/proj/config.xml"
                          (program (startWorld exampleProgram))
                          [androidResolved]))%list.
Proof.
  apply (proj2 (@generate_stops_at_first_failure envSecondFails [androidResolved]
                  (startWorld exampleProgram) "/proj/config.xml"
                  eq_refl (Forall_nil _))
               1
               (resizeCall envSecondFails "/proj/config.xml" IconT
                  (Some "/proj/icon.png") androidResolved
                  (iconAsset "icon-48.png" 48))
               "convert: failed").
  - reflexivity.
  - reflexivity.
  - intros k o Hk. destruct k as [|[|k]]; [reflexivity | discriminate | discriminate].
Defined.
